(** * MediaDash: OMF/AAF media validator (media_validator.py)

    A shallow embedding of the clip-resolution and validation engine of
    [media_validator.py], and the properties of it that the written
    specification states.

    Conventions of the embedding.
    - A Python [str] is a list of Unicode code points ([pystr]); a Python
      [bytes] is a list of [Byte.byte].
    - [os.path] is [posixpath] (the tool ships for macOS); its functions are
      transcribed from CPython's [posixpath.py] and [genericpath.py].
    - A Python [float] is a binary64 [PrimFloat.float]; a Python [int] is a [Z].
      The ratio tests of the path filter are also given on the integers, and
      the two forms are shown to agree on the strings the scanner can pass.
    - What belongs to the interpreter's libraries and to the machine (the file
      system, the Unicode character database for code points above 127, the
      text codecs, the regular-expression engine and its exceptions) is a
      field of the environment records below and every theorem holds for all
      of their values. *)

From Stdlib Require Import ZArith NArith Bool String Ascii Lia PrimFloat Uint63.
From Stdlib Require Import SpecFloat FloatOps.
From Stdlib Require Import DecimalString DecimalPos List.
From Stdlib.Strings Require Import Byte.
Import ListNotations.

Set Implicit Arguments.

(* ================================================================== *)
(** ** Python strings *)

Definition char := N.
Definition pystr := list char.
Definition bytes := list byte.

Definition str (s : string) : pystr := map N_of_ascii (list_ascii_of_string s).
Arguments str s%_string.

Definition char_eqb (a b : char) : bool := N.eqb a b.

Fixpoint pystr_eqb (a b : pystr) : bool :=
  match a, b with
  | [], [] => true
  | x :: a', y :: b' => char_eqb x y && pystr_eqb a' b'
  | _, _ => false
  end.

Definition len (s : pystr) : Z := Z.of_nat (length s).

(** [s.startswith(p)] *)
Fixpoint startswith (s p : pystr) {struct p} : bool :=
  match p, s with
  | [], _ => true
  | c :: p', x :: s' => char_eqb x c && startswith s' p'
  | _ :: _, [] => false
  end.

(** [s.endswith(p)] *)
Definition endswith (s p : pystr) : bool := startswith (rev s) (rev p).

(** [c in s] for a one-character [c] *)
Definition contains (c : char) (s : pystr) : bool := existsb (char_eqb c) s.

(** [s.rfind(c)] for a one-character [c]: the highest index, or -1. *)
Fixpoint rfind_from (c : char) (s : pystr) (idx last : Z) : Z :=
  match s with
  | [] => last
  | x :: r => rfind_from c r (idx + 1) (if char_eqb x c then idx else last)
  end.
Definition rfind (c : char) (s : pystr) : Z := rfind_from c s 0 (-1).

(** [s[i:]] and [s[:i]] for [0 <= i] *)
Definition slice_from (i : Z) (s : pystr) : pystr := skipn (Z.to_nat i) s.
Definition slice_to (i : Z) (s : pystr) : pystr := firstn (Z.to_nat i) s.

(** [s.split(c)] for a one-character separator *)
Fixpoint split (c : char) (s : pystr) : list pystr :=
  match s with
  | [] => [[]]
  | x :: r =>
      if char_eqb x c then [] :: split c r
      else match split c r with
           | h :: t => (x :: h) :: t
           | [] => [[x]]
           end
  end.

(** [c.join(l)] for a one-character [c] *)
Fixpoint join_with (c : char) (l : list pystr) : pystr :=
  match l with
  | [] => []
  | [x] => x
  | x :: r => x ++ c :: join_with c r
  end.

(** [s.lstrip(chars)], [s.rstrip(chars)], with the set of characters as a predicate *)
Fixpoint lstrip_by (f : char -> bool) (s : pystr) : pystr :=
  match s with
  | x :: r => if f x then lstrip_by f r else s
  | [] => []
  end.
Definition rstrip_by (f : char -> bool) (s : pystr) : pystr := rev (lstrip_by f (rev s)).
Definition strip_by (f : char -> bool) (s : pystr) : pystr := rstrip_by f (lstrip_by f s).

(** Python truthiness of an [Optional[str]] and of a [str] *)
Definition truthy_str (s : pystr) : bool := match s with [] => false | _ :: _ => true end.
Definition truthy (o : option pystr) : bool :=
  match o with Some s => truthy_str s | None => false end.

(* ================================================================== *)
(** ** posixpath *)

Module posixpath.

Definition sep : char := 47%N.      (* "/" *)
Definition extsep : char := 46%N.   (* "." *)
Definition dot : pystr := [46%N].
Definition dotdot : pystr := [46%N; 46%N].

(** [isabs(s)]: [s.startswith('/')] *)
Definition isabs (s : pystr) : bool := startswith s [sep].

(** [join(a, b)] (one component joined) *)
Definition join (a b : pystr) : pystr :=
  if startswith b [sep] then b
  else if negb (truthy_str a) || endswith a [sep] then a ++ b
  else a ++ sep :: b.

(** [basename(p)]: [i = p.rfind('/') + 1; return p[i:]] *)
Definition basename (p : pystr) : pystr :=
  let i := (rfind sep p + 1)%Z in slice_from i p.

(** [dirname(p)] *)
Definition dirname (p : pystr) : pystr :=
  let i := (rfind sep p + 1)%Z in
  let head := slice_to i p in
  if truthy_str head && negb (pystr_eqb head (repeat sep (length head)))
  then rstrip_by (char_eqb sep) head
  else head.

(** [genericpath._splitext(p, '/', None, '.')]: the loop that skips the
    leading dots of the file name, from [filenameIndex] to [dotIndex]. *)
Fixpoint splitext_scan (p : pystr) (dotIndex : Z) (filenameIndex : Z) (fuel : nat)
  : option (pystr * pystr) :=
  match fuel with
  | O => None
  | S fuel' =>
      if (filenameIndex <? dotIndex)%Z then
        match nth_error p (Z.to_nat filenameIndex) with
        | Some c =>
            if negb (char_eqb c extsep)
            then Some (slice_to dotIndex p, slice_from dotIndex p)
            else splitext_scan p dotIndex (filenameIndex + 1) fuel'
        | None => Some (slice_to dotIndex p, slice_from dotIndex p)
        end
      else None
  end.

Definition splitext (p : pystr) : pystr * pystr :=
  let sepIndex := rfind sep p in
  let dotIndex := rfind extsep p in
  if (sepIndex <? dotIndex)%Z then
    match splitext_scan p dotIndex (sepIndex + 1) (S (length p)) with
    | Some r => r
    | None => (p, [])
    end
  else (p, []).

(** [normpath]: the number of initial slashes kept (0, 1 or 2). *)
Definition initial_slashes (path : pystr) : nat :=
  if startswith path [sep] then
    if startswith path [sep; sep] && negb (startswith path [sep; sep; sep])
    then 2 else 1
  else 0.

(** One turn of [for comp in comps]. [new_comps] is used as a stack by the
    source ([append], [pop], [new_comps[-1]]): it is kept here with its last
    element first. *)
Definition norm_step (initial : nat) (new_comps : list pystr) (comp : pystr) : list pystr :=
  if pystr_eqb comp [] || pystr_eqb comp dot then new_comps
  else if negb (pystr_eqb comp dotdot)
          || (Nat.eqb initial 0 && match new_comps with [] => true | _ => false end)
          || match new_comps with top :: _ => pystr_eqb top dotdot | [] => false end
       then comp :: new_comps
       else match new_comps with
            | _ :: rest => rest
            | [] => []
            end.

Definition normpath (path : pystr) : pystr :=
  match path with
  | [] => dot
  | _ =>
      let initial := initial_slashes path in
      let comps := split sep path in
      let new_comps := rev (fold_left (norm_step initial) comps []) in
      let path' := repeat sep initial ++ join_with sep new_comps in
      match path' with [] => dot | _ => path' end
  end.

(** [abspath(path)], with the current directory [cwd = os.getcwd()] *)
Definition abspath (cwd : pystr) (path : pystr) : pystr :=
  normpath (if isabs path then path else join cwd path).

(** The stack of [normpath] (last component first) in normal form: no empty
    component, no ".", no separator inside, and ".." only on top of ".."
    or at the bottom of a relative path. *)
Fixpoint normal_stack (initial : nat) (st : list pystr) : Prop :=
  match st with
  | [] => True
  | comp :: rest =>
      comp <> [] /\ comp <> dot /\ ~ In sep comp
      /\ (comp = dotdot -> (initial = 0 /\ rest = []) \/ exists r, rest = dotdot :: r)
      /\ normal_stack initial rest
  end.

End posixpath.


(* ================================================================== *)
(** ** Characters and [str] methods *)

(** The Unicode character database, for code points above 127 (for ASCII the
    predicates are written out below). [str.lower] is not a character-wise
    map outside ASCII (final sigma, expanding mappings), so [u_lower] is the
    whole method on a string that holds a non-ASCII character. *)
Record UnicodeDB := mkUnicodeDB {
  u_isprintable : char -> bool;
  u_isalnum : char -> bool;
  u_isspace : char -> bool;
  u_lower : pystr -> pystr
}.

Definition is_ascii (c : char) : bool := (c <? 128)%N.

(** [float(n)] of an [int] below 2^63, and the binary64 values of the
    literals [0.7], [0.1] and [0.6]. *)
Definition float_of_int (n : Z) : float := PrimFloat.of_uint63 (Uint63.of_Z n).
Definition f0_7 : float := 0x1.6666666666666p-1%float.
Definition f0_1 : float := 0x1.999999999999ap-4%float.
Definition f0_6 : float := 0x1.3333333333333p-1%float.

(** [a / b] on two [int]s of any size. Python does not convert the operands
    to [float] first: the result is the binary64 nearest to the exact
    quotient (one rounding, ties to even). [None] when Python raises:
    [ZeroDivisionError], or [OverflowError] when the quotient is too large
    for a [float]. *)
Definition int_operand (n : Z) : spec_float :=
  match n with
  | Z0 => S754_zero false
  | Zpos p => S754_finite false p 0
  | Zneg p => S754_finite true p 0
  end.

Definition py_int_true_div (a b : Z) : option float :=
  match b with
  | Z0 => None
  | _ =>
      match SFdiv prec emax (int_operand a) (int_operand b) with
      | S754_infinity _ | S754_nan => None
      | quotient => Some (SF2Prim quotient)
      end
  end.

Section StrMethods.
Variable udb : UnicodeDB.

(** [c.isprintable()] *)
Definition isprintable (c : char) : bool :=
  if is_ascii c then (32 <=? c)%N && (c <=? 126)%N else u_isprintable udb c.

(** [c.isalnum()] *)
Definition isalnum (c : char) : bool :=
  if is_ascii c then
    ((48 <=? c)%N && (c <=? 57)%N) || ((65 <=? c)%N && (c <=? 90)%N)
    || ((97 <=? c)%N && (c <=? 122)%N)
  else u_isalnum udb c.

(** [c.isspace()]: in ASCII, 0x09-0x0D, 0x1C-0x1F and the space *)
Definition isspace (c : char) : bool :=
  if is_ascii c then
    ((9 <=? c)%N && (c <=? 13)%N) || ((28 <=? c)%N && (c <=? 31)%N) || (c =? 32)%N
  else u_isspace udb c.

(** [s.strip()] *)
Definition strip (s : pystr) : pystr := strip_by isspace s.

(** [s.lower()] *)
Definition ascii_lower (c : char) : char :=
  if (65 <=? c)%N && (c <=? 90)%N then (c + 32)%N else c.
Definition lower (s : pystr) : pystr :=
  if forallb is_ascii s then map ascii_lower s else u_lower udb s.

(** [sum(1 for c in s if f c)] *)
Definition count_if (f : char -> bool) (s : pystr) : Z := Z.of_nat (length (filter f s)).

(** [c in '\n\r\t'] and [c in ' .-_()[]'] *)
Definition in_nl_cr_tab (c : char) : bool := (c =? 10)%N || (c =? 13)%N || (c =? 9)%N.
Definition in_filename_punct (c : char) : bool :=
  (c =? 32)%N || (c =? 46)%N || (c =? 45)%N || (c =? 95)%N
  || (c =? 40)%N || (c =? 41)%N || (c =? 91)%N || (c =? 93)%N.

(** The three ratio tests of the filter, [count < len(s) * 0.7] and the like,
    compare an [int] with a binary64 product; Python compares an [int] and a
    [float] exactly. [ratio64] is the test as the source computes it, with
    the binary64 value of the literal. *)
Definition ratio64 (lt : bool) (count n : Z) (r : float) : bool :=
  let product := PrimFloat.mul (float_of_int n) r in
  if lt then PrimFloat.ltb (float_of_int count) product
  else PrimFloat.ltb product (float_of_int count).

(** The same tests on the integers: [count < len * num / den] as
    [count * den < len * num]. *)
Definition lt_ratio (count n num den : Z) : bool := (count * den <? n * num)%Z.
Definition gt_ratio (count n num den : Z) : bool := (n * num <? count * den)%Z.

(** The body of [_is_valid_path_string(s)], the filter nested in
    [_extract_omf_file_paths], over its three ratio tests. *)
Definition path_string_filter (below_70 above_10 below_60 : Z -> Z -> bool) (s : pystr)
  : bool :=
  if negb (truthy_str s) || (len s <? 4)%Z then false
  else
    let printable_count := count_if (fun c => isprintable c || in_nl_cr_tab c) s in
    if below_70 printable_count (len s) then false
    else
      let control_chars := count_if (fun c => (c <? 32)%N && negb (in_nl_cr_tab c)) s in
      if above_10 control_chars (len s) then false
      else
        let filename := posixpath.basename s in
        let valid_filename_chars :=
          count_if (fun c => isalnum c || in_filename_punct c) filename in
        if below_60 valid_filename_chars (len filename) then false
        else
          let ext := snd (posixpath.splitext filename) in
          if truthy_str ext
             && ((10 <? len ext)%Z || negb (forallb isalnum (slice_from 1 ext)))
          then false
          else true.

(** The filter with its tests on binary64, as the source computes it. *)
Definition _is_valid_path_string_binary64 : pystr -> bool :=
  path_string_filter (fun count n => ratio64 true count n f0_7)
                     (fun count n => ratio64 false count n f0_1)
                     (fun count n => ratio64 true count n f0_6).

(** [_is_valid_path_string(s)], with its tests on the integers. The two
    filters agree on every string of at most 400 characters
    ([filter_binary64_agrees]); the scanner passes at most 315. *)
Definition _is_valid_path_string : pystr -> bool :=
  path_string_filter (fun count n => lt_ratio count n 7 10)
                     (fun count n => gt_ratio count n 1 10)
                     (fun count n => lt_ratio count n 6 10).

End StrMethods.

(** [str(n)] for an [int] *)
Definition str_of_int (n : Z) : pystr :=
  match n with
  | Z0 => str "0"
  | Zpos p => str (NilEmpty.string_of_uint (Pos.to_uint p))
  | Zneg p => str "-" ++ str (NilEmpty.string_of_uint (Pos.to_uint p))
  end.

Definition ascii_only : UnicodeDB :=
  mkUnicodeDB (fun _ => false) (fun _ => false) (fun _ => false) (fun s => s).

(* ================================================================== *)
(** ** Data model *)

(** [@dataclass class MediaClip] *)
Record MediaClip := mkMediaClip {
  name : pystr;
  clip_id : option pystr;
  is_embedded : bool;
  external_path : option pystr;
  is_valid : bool;
  error_message : option pystr;
  track_index : Z;
  timeline_start : float;
  timeline_end : float;
  name_matches_file : option bool;
  expected_filename : option pystr
}.

(** [MediaClip(name=.., clip_id=.., is_embedded=.., external_path=..)]: the
    call every extractor makes, the other fields at their defaults. *)
Definition MediaClip_new (name : pystr) (clip_id : option pystr) (is_embedded : bool)
    (external_path : option pystr) : MediaClip :=
  mkMediaClip name clip_id is_embedded external_path true None 0%Z 0%float 0%float None None.

(** [@dataclass class ValidationReport] *)
Record ValidationReport := mkValidationReport {
  total_clips : Z;
  embedded_clips : Z;
  linked_clips : Z;
  missing_clips : Z;
  valid_clips : Z;
  missing_clip_details : list MediaClip;
  file_path : pystr;
  timeline_clips : list MediaClip;
  total_duration : float
}.

(** Python exceptions: the class and [str(e)]. *)
Inductive exn_class :=
  FileNotFoundError | ValueError | ImportError | OSError | MemoryError | RuntimeError.
Record exn := mkExn { exn_cls : exn_class; exn_msg : pystr }.

Definition result (A : Type) := (exn + A)%type.

(* ================================================================== *)
(** ** Environment *)

Inductive encoding := utf_8 | latin_1 | mac_roman | cp1252.

(** The byte patterns the scanner compiles. *)
Inductive regex :=
| RxPathWithExt (ext : bytes)
    (** [rb'[^\x00]{1,300}' + re.escape(ext) + rb'[\x00\x20-\x7E]{0,10}'] *)
| RxWindowsPath   (** [rb'[A-Za-z]:[\\/][^\x00\n\r]{4,260}'] *)
| RxUnixPath      (** [rb'/[^\x00\n\r]{4,260}'] *)
| RxAudioRef.     (** the single pattern of [_aggressive_omf_parse] *)

(** The file system, read-only. [fs_getsize] is [None] when the call raises
    [OSError]; [fs_open p] is [open(p, 'rb')], the content of the file or the
    exception raised. *)
Record FileSystem := mkFileSystem {
  fs_cwd : pystr;
  fs_exists : pystr -> bool;
  fs_isfile : pystr -> bool;
  fs_getsize : pystr -> option Z;
  fs_open : pystr -> result bytes
}.

(** The interpreter's libraries. [rt_finditer] is the lazy iterator of
    [re.finditer]: the [match.group(0)] of the matches it yields, and the
    exception that ends the iteration when the engine raises one.
    [rt_decode] is [bytes.decode], [None] for [UnicodeDecodeError].
    [rt_format_f d x] is [format(x, '.<d>f')]. *)
Record Runtime := mkRuntime {
  rt_unicode : UnicodeDB;
  rt_decode : encoding -> bytes -> option pystr;
  rt_finditer : regex -> bytes -> list bytes * option exn;
  rt_format_f : nat -> float -> pystr
}.

(** What a run does to the input file, in order. *)
Inductive io_event :=
| EvOpen (p : pystr)
| EvRead (n : option Z)      (** [read(n)] / [read()], at offset 0 *)
| EvFinditer (r : regex).

(* ================================================================== *)
(** ** State and exceptions *)

(** A computation on a mutable state [S] that returns or raises: what it did
    to the state before raising stays done. *)
Definition M (S A : Type) : Type := S -> result A * S.

Definition ret {S A} (a : A) : M S A := fun s => (inr a, s).
Definition raise {S A} (e : exn) : M S A := fun s => (inl e, s).
Definition bind {S A B} (c : M S A) (k : A -> M S B) : M S B :=
  fun s => match c s with
           | (inr a, s') => k a s'
           | (inl e, s') => (inl e, s')
           end.
Definition get {S} : M S S := fun s => (inr s, s).
Definition modify {S} (f : S -> S) : M S unit := fun s => (inr tt, f s).
(** [try: c  except Exception: pass] *)
Definition try_pass {S} (c : M S unit) : M S unit :=
  fun s => match c s with (_, s') => (inr tt, s') end.

Declare Scope monad_scope.
Delimit Scope monad_scope with monad.
Notation "x <- c ;; k" := (bind c (fun x => k))
  (at level 61, c at next level, right associativity) : monad_scope.
Notation "c ;;; k" := (bind c (fun _ => k))
  (at level 61, right associativity) : monad_scope.
Local Open Scope monad_scope.

(** [for x in l: body x] *)
Fixpoint for_each {S A} (l : list A) (body : A -> M S unit) : M S unit :=
  match l with
  | [] => ret tt
  | x :: r => body x ;;; for_each r body
  end.

(** [for m in it: body m] over a lazy iterator that may raise at its end *)
Definition for_each_lazy {S A} (it : list A * option exn) (body : A -> M S unit) : M S unit :=
  for_each (fst it) body ;;;
  match snd it with
  | Some e => raise e
  | None => ret tt
  end.

(* ================================================================== *)
(** ** [bytes] methods *)

Definition bytes_of (s : string) : bytes := list_byte_of_string s.
Arguments bytes_of s%_string.

Definition is_nul (b : byte) : bool := Byte.eqb b x00.

(** [b.split(b'\x00')] and [b.split(b'\x00')[0]] *)
Fixpoint bytes_split_nul (b : bytes) : list bytes :=
  match b with
  | [] => [[]]
  | x :: r =>
      if is_nul x then [] :: bytes_split_nul r
      else match bytes_split_nul r with
           | h :: t => (x :: h) :: t
           | [] => [[x]]
           end
  end.
Fixpoint bytes_until_nul (b : bytes) : bytes :=
  match b with
  | [] => []
  | x :: r => if is_nul x then [] else x :: bytes_until_nul r
  end.

(** [b.rstrip()]: ASCII white space off the right end *)
Definition bytes_isspace (b : byte) : bool :=
  Byte.eqb b x20 || Byte.eqb b x09 || Byte.eqb b x0a || Byte.eqb b x0d
  || Byte.eqb b x0b || Byte.eqb b x0c.
Fixpoint bytes_lstrip (b : bytes) : bytes :=
  match b with
  | x :: r => if bytes_isspace x then bytes_lstrip r else b
  | [] => []
  end.
Definition bytes_rstrip (b : bytes) : bytes := rev (bytes_lstrip (rev b)).

(** A file object opened ['rb']: its content. Every [read] of the source
    follows a [seek(0)]. *)
Definition FileHandle := bytes.
Definition fh_size (f : FileHandle) : Z := Z.of_nat (length f).
Definition fh_read (f : FileHandle) (n : option Z) : bytes :=
  match n with
  | Some k => firstn (Z.to_nat k) f
  | None => f
  end.

(* ================================================================== *)
(** ** Legacy container scanner *)

Definition backslash : char := 92%N.
Definition MB : Z := (1024 * 1024)%Z.

Definition core_audio_exts : list pystr :=
  [str ".wav"; str ".aif"; str ".aiff"; str ".mp3"; str ".m4a"; str ".caf"; str ".sd2"].

(** [x in l] for a list of strings *)
Definition str_in (x : pystr) (l : list pystr) : bool := existsb (pystr_eqb x) l.

Section Scanner.
Variable fs : FileSystem.
Variable rt : Runtime.

Let udb := rt_unicode rt.

(** State of [_extract_omf_file_paths]: the list [file_paths] it appends to,
    and what it did to the file. *)
Record ScanState := mkScanState {
  file_paths : list pystr;
  scan_events : list io_event
}.

Definition append_path (p : pystr) : M ScanState unit :=
  modify (fun s => mkScanState (file_paths s ++ [p]) (scan_events s)).
Definition log_scan (e : io_event) : M ScanState unit :=
  modify (fun s => mkScanState (file_paths s) (scan_events s ++ [e])).

(** The size test and the read that open [_extract_omf_file_paths] and
    [_aggressive_omf_parse]: the request passed to [read]. *)
Definition read_request (f : FileHandle) : option Z :=
  if (100 * MB <? fh_size f)%Z then Some (50 * MB)%Z else None.

(** Resolution of Method 1 (lines 676-691). *)
Definition resolve_with_retry (base_dir path_str : pystr) : pystr :=
  if negb (posixpath.isabs path_str) then
    let resolved := posixpath.join base_dir path_str in
    if fs_exists fs resolved then posixpath.normpath resolved
    else
      let normalized := posixpath.normpath path_str in
      let resolved := posixpath.join base_dir normalized in
      if fs_exists fs resolved then posixpath.normpath resolved
      else posixpath.normpath path_str
  else posixpath.normpath path_str.

(** Resolution of Methods 2 and 3. *)
Definition resolve_simple (base_dir path_str : pystr) : pystr :=
  if negb (posixpath.isabs path_str) then
    let resolved := posixpath.join base_dir path_str in
    if fs_exists fs resolved then posixpath.normpath resolved
    else posixpath.normpath path_str
  else posixpath.normpath path_str.

(** Method 1, [for encoding in [...]] on one match: the path appended, if any. *)
Fixpoint method1_encodings (base_dir : pystr) (path_bytes : bytes) (encs : list encoding)
  : option pystr :=
  match encs with
  | [] => None
  | enc :: rest =>
      match rt_decode rt enc path_bytes with
      | None => method1_encodings base_dir path_bytes rest
      | Some decoded =>
          let path_str := strip udb decoded in
          if negb ((4 <? len path_str)%Z
                   && (contains posixpath.sep path_str || contains backslash path_str
                       || contains 47%N path_str))
          then method1_encodings base_dir path_bytes rest
          else if negb (_is_valid_path_string udb path_str)
          then method1_encodings base_dir path_bytes rest
          else
            let path_str := strip udb (rstrip_by (char_eqb 0%N) path_str) in
            Some (resolve_with_retry base_dir path_str)
      end
  end.

Definition method1_match (base_dir : pystr) (m : bytes) : M ScanState unit :=
  let path_bytes := bytes_rstrip (bytes_until_nul m) in
  match method1_encodings base_dir path_bytes [utf_8; latin_1; mac_roman; cp1252] with
  | Some p => append_path p
  | None => ret tt
  end.

Definition audio_extensions_bytes : list bytes :=
  [bytes_of ".wav"; bytes_of ".aif"; bytes_of ".aiff"; bytes_of ".mp3"; bytes_of ".m4a";
   bytes_of ".caf"; bytes_of ".sd2";
   bytes_of ".WAV"; bytes_of ".AIF"; bytes_of ".AIFF"; bytes_of ".MP3"; bytes_of ".M4A";
   bytes_of ".CAF"; bytes_of ".SD2"].

Definition method1 (base_dir : pystr) (data : bytes) : M ScanState unit :=
  for_each audio_extensions_bytes (fun ext =>
    log_scan (EvFinditer (RxPathWithExt ext)) ;;;
    for_each_lazy (rt_finditer rt (RxPathWithExt ext) data) (method1_match base_dir)).

(** Method 2, the encodings of one match. *)
Fixpoint method2_encodings (base_dir : pystr) (path_bytes : bytes) (encs : list encoding)
  : option pystr :=
  match encs with
  | [] => None
  | enc :: rest =>
      match rt_decode rt enc path_bytes with
      | None => method2_encodings base_dir path_bytes rest
      | Some decoded =>
          let path_str := strip udb (rstrip_by (char_eqb 0%N) decoded) in
          if negb ((4 <? len path_str)%Z && contains 46%N path_str)
          then method2_encodings base_dir path_bytes rest
          else if negb (_is_valid_path_string udb path_str)
          then method2_encodings base_dir path_bytes rest
          else
            let ext := lower udb (snd (posixpath.splitext path_str)) in
            if str_in ext core_audio_exts || (0 <? len ext)%Z
            then Some (resolve_simple base_dir path_str)
            else method2_encodings base_dir path_bytes rest
      end
  end.

Definition method2_match (base_dir : pystr) (m : bytes) : M ScanState unit :=
  let path_bytes := if existsb is_nul m then bytes_until_nul m else m in
  match method2_encodings base_dir path_bytes [utf_8; latin_1; mac_roman; cp1252] with
  | Some p => append_path p
  | None => ret tt
  end.

Definition method2 (base_dir : pystr) (data : bytes) : M ScanState unit :=
  for_each [RxWindowsPath; RxUnixPath] (fun pattern =>
    log_scan (EvFinditer pattern) ;;;
    for_each_lazy (rt_finditer rt pattern data) (method2_match base_dir)).

(** Method 3, the encodings of one null-delimited chunk. *)
Fixpoint method3_encodings (base_dir : pystr) (chunk : bytes) (encs : list encoding)
  : option pystr :=
  match encs with
  | [] => None
  | enc :: rest =>
      match rt_decode rt enc chunk with
      | None => method3_encodings base_dir chunk rest
      | Some decoded =>
          let candidate := strip udb decoded in
          if negb ((contains backslash candidate || contains 47%N candidate)
                   && contains 46%N candidate
                   && (0 <? len (snd (posixpath.splitext candidate)))%Z)
          then method3_encodings base_dir chunk rest
          else if negb (_is_valid_path_string udb candidate)
          then method3_encodings base_dir chunk rest
          else
            let ext := lower udb (snd (posixpath.splitext candidate)) in
            if str_in ext core_audio_exts
            then Some (resolve_simple base_dir candidate)
            else method3_encodings base_dir chunk rest
      end
  end.

Definition method3_chunk (base_dir : pystr) (chunk : bytes) : M ScanState unit :=
  let n := Z.of_nat (length chunk) in
  if (10 <=? n)%Z && (n <=? 260)%Z then
    match method3_encodings base_dir chunk [utf_8; latin_1; mac_roman] with
    | Some p => append_path p
    | None => ret tt
    end
  else ret tt.

Definition max_chunks : Z := 100000%Z.

Definition method3 (base_dir : pystr) (data : bytes) : M ScanState unit :=
  let chunks := bytes_split_nul data in
  let chunks :=
    if (max_chunks <? Z.of_nat (length chunks))%Z then firstn (Z.to_nat max_chunks) chunks
    else chunks in
  for_each chunks (method3_chunk base_dir).

(** The three methods on the bytes read. *)
Definition scan_paths (base_dir : pystr) (data : bytes) : M ScanState unit :=
  method1 base_dir data ;;; method2 base_dir data ;;; method3 base_dir data.

(** The body of the [try] of [_extract_omf_file_paths]. *)
Definition extract_body (file_handle : FileHandle) (base_dir : pystr) : M ScanState unit :=
  let request := read_request file_handle in
  log_scan (EvRead request) ;;;
  scan_paths base_dir (fh_read file_handle request).

(** "Remove duplicates while preserving order and normalize paths" *)
Fixpoint unique_normalized (paths seen : list pystr) : list pystr :=
  match paths with
  | [] => []
  | path :: rest =>
      let normalized := posixpath.normpath path in
      if str_in normalized seen then unique_normalized rest seen
      else normalized :: unique_normalized rest (normalized :: seen)
  end.

(** [_extract_omf_file_paths(file_handle, base_dir)]: the paths returned and
    what was done to the file. *)
Definition _extract_omf_file_paths (file_handle : FileHandle) (base_dir : pystr)
  : list pystr * list io_event :=
  let '(_, s) := try_pass (extract_body file_handle base_dir) (mkScanState [] []) in
  (unique_normalized (file_paths s) [], scan_events s).

End Scanner.

(* ================================================================== *)
(** ** [_parse_omf_file] and the aggressive fallback *)

(** An essence reference: the dict of [_extract_omf_essence_references],
    with the keys the parser reads. *)
Record EssenceRef := mkEssenceRef {
  er_path : option pystr;     (** [essence_ref.get('path')] *)
  er_name : option pystr;     (** [essence_ref.get('name')] *)
  er_id : option pystr;       (** [essence_ref.get('id')] *)
  er_embedded : bool          (** [essence_ref.get('embedded', False)] *)
}.

(** [_extract_omf_essence_references]: "This is a placeholder". *)
Definition _extract_omf_essence_references (file_handle : FileHandle) : list EssenceRef := [].

(** [a or b] on strings *)
Definition str_or (a b : pystr) : pystr := if truthy_str a then a else b.

Section ParseOmf.
Variable fs : FileSystem.
Variable rt : Runtime.

Let udb := rt_unicode rt.

(** The locals of the clip-building loops of [_parse_omf_file]. *)
Record BuildState := mkBuildState {
  b_clips : list MediaClip;
  b_clip_counter : Z;
  b_processed_paths : list pystr
}.

(** One turn of [for file_path_str in file_paths]. *)
Definition build_from_path (s : BuildState) (file_path_str : pystr) : BuildState :=
  if truthy_str file_path_str && negb (str_in file_path_str (b_processed_paths s)) then
    let processed := file_path_str :: b_processed_paths s in
    let file_ext := lower udb (snd (posixpath.splitext file_path_str)) in
    if str_in file_ext core_audio_exts || negb (truthy_str file_ext) then
      let clip_name :=
        str_or (posixpath.basename file_path_str)
               (str "Audio Clip " ++ str_of_int (b_clip_counter s)) in
      let clip :=
        MediaClip_new clip_name
          (Some (str "omf_clip_" ++ str_of_int (b_clip_counter s)))
          false (Some file_path_str) in
      mkBuildState (b_clips s ++ [clip]) (b_clip_counter s + 1) processed
    else mkBuildState (b_clips s) (b_clip_counter s) processed
  else s.

(** One turn of [for essence_ref in essence_refs]. *)
Definition build_from_essence (s : BuildState) (essence_ref : EssenceRef) : BuildState :=
  match er_path essence_ref with
  | Some path =>
      if truthy_str path && negb (str_in path (b_processed_paths s)) then
        let processed := path :: b_processed_paths s in
        let clip_name :=
          match er_name essence_ref with
          | Some n => if truthy_str n then n
                      else str_or (posixpath.basename path)
                                  (str "Essence " ++ str_of_int (b_clip_counter s))
          | None => str_or (posixpath.basename path)
                           (str "Essence " ++ str_of_int (b_clip_counter s))
          end in
        let clip :=
          MediaClip_new clip_name
            (Some match er_id essence_ref with
                  | Some i => i
                  | None => str "omf_essence_" ++ str_of_int (b_clip_counter s)
                  end)
            (er_embedded essence_ref)
            (if negb (er_embedded essence_ref) then Some path else None) in
        mkBuildState (b_clips s ++ [clip]) (b_clip_counter s + 1) processed
      else s
  | None => s
  end.

(** State of [_aggressive_omf_parse]. *)
Record AggState := mkAggState {
  a_clips : list MediaClip;
  a_clip_counter : Z;
  a_events : list io_event
}.

Definition max_clips : Z := 1000%Z.

Definition is_path_start_byte (b : byte) : bool :=
  Byte.eqb b x5c || Byte.eqb b x2f || Byte.eqb b x3a.   (* b'\\', b'/', b':' *)

(** [for i in range(len(match_bytes) - 1, -1, -1)]: looks at the indices
    [k - 1] down to 0 and returns [path_start]. *)
Fixpoint find_path_start (match_bytes : bytes) (k : nat) : Z :=
  match k with
  | O => 0%Z
  | S i =>
      match nth_error match_bytes i with
      | Some b =>
          if is_path_start_byte b then Z.of_nat i
          else if (Z.of_nat i <? Z.of_nat (length match_bytes) - 50)%Z then 0%Z
          else find_path_start match_bytes i
      | None => find_path_start match_bytes i
      end
  end.

(** [for encoding in [...]] of the aggressive parse: the decoded path of the
    clip made, if any. *)
Fixpoint aggressive_encodings (potential_path : bytes) (encs : list encoding) : option pystr :=
  match encs with
  | [] => None
  | enc :: rest =>
      match rt_decode rt enc potential_path with
      | None => aggressive_encodings potential_path rest
      | Some decoded =>
          let path_str := strip udb decoded in
          if (4 <? len path_str)%Z && (contains backslash path_str || contains 47%N path_str)
          then Some path_str
          else aggressive_encodings potential_path rest
      end
  end.

Definition aggressive_clip (base_dir path_str : pystr) (clip_counter : Z) : MediaClip :=
  let resolved :=
    if negb (posixpath.isabs path_str) then posixpath.join base_dir path_str else path_str in
  let clip_name :=
    str_or (posixpath.basename path_str) (str "Audio Reference " ++ str_of_int clip_counter) in
  MediaClip_new clip_name (Some (str "omf_ref_" ++ str_of_int clip_counter)) false (Some resolved).

(** The body of [for match in matches], after the test of [max_clips]. *)
Definition aggressive_match (base_dir : pystr) (match_bytes : bytes) : M AggState unit :=
  let path_start := find_path_start match_bytes (length match_bytes) in
  let potential_path := bytes_until_nul (skipn (Z.to_nat path_start) match_bytes) in
  match aggressive_encodings potential_path [utf_8; latin_1; mac_roman; cp1252] with
  | Some path_str =>
      modify (fun s =>
        mkAggState (a_clips s ++ [aggressive_clip base_dir path_str (a_clip_counter s)])
                   (a_clip_counter s + 1) (a_events s))
  | None => ret tt
  end.

(** [for match in matches], with its [break] at [clip_counter > max_clips];
    [pending] is the exception the iterator raises when it is run to its end. *)
Fixpoint aggressive_loop (base_dir : pystr) (matches : list bytes) (pending : option exn)
  : M AggState unit :=
  match matches with
  | [] => match pending with Some e => raise e | None => ret tt end
  | m :: rest =>
      s <- get ;;
      if (max_clips <? a_clip_counter s)%Z then ret tt
      else try_pass (aggressive_match base_dir m) ;;; aggressive_loop base_dir rest pending
  end.

Definition aggressive_body (file_handle : FileHandle) (base_dir : pystr) : M AggState unit :=
  let request := read_request file_handle in
  modify (fun s => mkAggState (a_clips s) (a_clip_counter s) (a_events s ++ [EvRead request])) ;;;
  let data := fh_read file_handle request in
  modify (fun s => mkAggState (a_clips s) (a_clip_counter s)
                              (a_events s ++ [EvFinditer RxAudioRef])) ;;;
  let it := rt_finditer rt RxAudioRef data in
  aggressive_loop base_dir (fst it) (snd it).

(** [_aggressive_omf_parse(file_handle, base_dir, omf_file_path)] *)
Definition _aggressive_omf_parse (file_handle : FileHandle) (base_dir omf_file_path : pystr)
  : list MediaClip * list io_event :=
  let '(_, s) := try_pass (aggressive_body file_handle base_dir) (mkAggState [] 1 []) in
  (a_clips s, a_events s).

Definition omf_headers : list bytes :=
  [bytes_of "OMFI"; [x00; x01; x00; x00]; [x00; x00; x00; x01]].

Definition bytes_eqb (a b : bytes) : bool :=
  if list_eq_dec Byte.byte_eq_dec a b then true else false.

(** The message of the [ValueError] raised on a file above 200 MB. *)
Definition MAX_OMF_SIZE : Z := (200 * MB)%Z.
Definition too_large_message (file_size : Z) : pystr :=
  str "OMF file is too large ("
  ++ rt_format_f rt 1 (PrimFloat.div (float_of_int file_size) (float_of_int MB))
  ++ str "MB). Maximum size is "
  ++ rt_format_f rt 0 (PrimFloat.div (float_of_int MAX_OMF_SIZE) (float_of_int MB))
  ++ str "MB.".

(** The [with open(file_path, 'rb') as f] block of [_parse_omf_file]. *)
Definition parse_omf_opened (f : FileHandle) (omf_dir file_path : pystr)
  : list MediaClip * list io_event :=
  let header := fh_read f (Some 4%Z) in
  let header_events :=
    if negb (existsb (bytes_eqb header) omf_headers)
    then [EvRead (Some 4%Z); EvRead (Some 8%Z)] else [EvRead (Some 4%Z)] in
  let '(file_paths, ev1) := _extract_omf_file_paths fs rt f omf_dir in
  let essence_refs := _extract_omf_essence_references f in
  let s0 := mkBuildState [] 1 [] in
  let s1 := fold_left build_from_path file_paths s0 in
  let s2 := fold_left build_from_essence essence_refs s1 in
  match b_clips s2 with
  | [] =>
      let '(clips, ev2) := _aggressive_omf_parse f omf_dir file_path in
      (clips, header_events ++ ev1 ++ ev2)
  | clips => (clips, header_events ++ ev1)
  end.

(** [_parse_omf_file(file_path)]: the clips or the exception raised, and what
    was done to the file. *)
Definition _parse_omf_file (file_path : pystr) : result (list MediaClip) * list io_event :=
  let omf_dir := posixpath.dirname (posixpath.abspath (fs_cwd fs) file_path) in
  let too_large :=
    match fs_getsize fs file_path with
    | Some file_size => if (MAX_OMF_SIZE <? file_size)%Z then Some file_size else None
    | None => None      (* except OSError: only a debug line *)
    end in
  match too_large with
  | Some file_size => (inl (mkExn ValueError (too_large_message file_size)), [])
  | None =>
      match fs_open fs file_path with
      | inl e => (inl (mkExn ValueError (str "Error parsing OMF file: " ++ exn_msg e)),
                  [EvOpen file_path])
      | inr f =>
          let '(clips, ev) := parse_omf_opened f omf_dir file_path in
          (inr clips, EvOpen file_path :: ev)
      end
  end.

End ParseOmf.

(* ================================================================== *)
(** ** Validation of the clips *)

(** [validate_embedded_media(clip)]: "we'll trust that the parser found the
    embedded data correctly". *)
Definition validate_embedded_media (clip : MediaClip) : bool := true.

(** [clip.is_valid = False; clip.error_message = msg] *)
Definition mark_invalid (clip : MediaClip) (msg : pystr) : MediaClip :=
  mkMediaClip (name clip) (clip_id clip) (is_embedded clip) (external_path clip)
    false (Some msg)
    (track_index clip) (timeline_start clip) (timeline_end clip)
    (name_matches_file clip) (expected_filename clip).

Section Validate.
Variable fs : FileSystem.

(** The body of [for clip in all_clips]: the clip as the turn leaves it, and
    whether the turn appended it to [missing_clips]. *)
Definition validate_clip (clip : MediaClip) : MediaClip * bool :=
  if is_embedded clip then
    if negb (validate_embedded_media clip)
    then (mark_invalid clip (str "Embedded media data is missing or corrupted"), true)
    else (clip, false)
  else
    match external_path clip with
    | Some p =>
        if negb (truthy_str p)
        then (mark_invalid clip (str "No external file path specified for linked media"), true)
        else if negb (fs_exists fs p)
        then (mark_invalid clip (str "External media file not found: " ++ p), true)
        else if negb (fs_isfile fs p)
        then (mark_invalid clip (str "External path exists but is not a file: " ++ p), true)
        else (clip, false)
    | None =>
        (mark_invalid clip (str "No external file path specified for linked media"), true)
    end.

(** The loop: the clips of [all_clips] after it (the loop writes to the
    objects of the list) and [missing_clips], which holds the same objects. *)
Fixpoint validate_clips (all_clips : list MediaClip) : list MediaClip * list MediaClip :=
  match all_clips with
  | [] => ([], [])
  | clip :: rest =>
      let '(clip', missing) := validate_clip clip in
      let '(clips', missing_clips) := validate_clips rest in
      (clip' :: clips', if missing then clip' :: missing_clips else missing_clips)
  end.

(** [sum(1 for clip in all_clips if f clip)] *)
Definition count_clips (f : MediaClip -> bool) (l : list MediaClip) : Z :=
  Z.of_nat (length (filter f l)).

(* ---------------------------------------------------------------- *)
(** *** Timeline of the legacy format *)

(** [max(a, b)] of Python on two floats: [b] when [b > a], else [a]. *)
Definition py_max (a b : float) : float := if PrimFloat.ltb a b then b else a.

Definition clips_per_track : Z := 10%Z.
Definition bytes_per_second : Z := 192000%Z.

(** [estimated_duration] of one clip. *)
Definition estimated_duration (clip : MediaClip) : float :=
  match external_path clip with
  | Some p =>
      if truthy_str p && fs_exists fs p then
        match fs_getsize fs p with
        | Some file_size =>
            match py_int_true_div file_size bytes_per_second with
            | Some seconds => py_max 1%float seconds
            | None => 5%float    (* except Exception: pass *)
            end
        | None => 5%float    (* except Exception: pass *)
        end
      else 5%float
  | None => 5%float
  end.

Variable udb : UnicodeDB.

(** The comparison of the name check: extension off, lower case, stripped. *)
Definition name_base (s : pystr) : pystr :=
  strip udb (lower udb (fst (posixpath.splitext s))).

(** "Check name matching" of [_extract_timeline_clips_from_omf]:
    [(name_matches, expected_filename)]. *)
Definition omf_name_match (clip : MediaClip) : option bool * option pystr :=
  match external_path clip with
  | Some p =>
      if truthy_str p then
        let expected_filename := posixpath.basename p in
        (Some (pystr_eqb (name_base (name clip)) (name_base expected_filename)),
         Some expected_filename)
      else (None, None)
  | None => (None, None)
  end.

(** The locals of the loop of [_extract_timeline_clips_from_omf]. *)
Record TimelineState := mkTimelineState {
  t_timeline_clips : list MediaClip;
  t_current_time : float;
  t_total_duration : float
}.

(** One turn of [for i, clip in enumerate(validation_clips)]. *)
Definition omf_timeline_step (s : TimelineState) (i : Z) (clip : MediaClip) : TimelineState :=
  let track := (i / clips_per_track)%Z in
  let clip_start := t_current_time s in
  let clip_end := PrimFloat.add clip_start (estimated_duration clip) in
  let '(name_matches, expected) := omf_name_match clip in
  let timeline_clip :=
    mkMediaClip (name clip)
      (if truthy (clip_id clip) then clip_id clip
       else Some (str "omf_timeline_" ++ str_of_int i))
      (is_embedded clip) (external_path clip) (is_valid clip) None
      track clip_start clip_end name_matches expected in
  mkTimelineState
    (t_timeline_clips s ++ [timeline_clip])
    (if ((i + 1) mod clips_per_track =? 0)%Z then 0%float else clip_end)
    (py_max (t_total_duration s) clip_end).

Fixpoint omf_timeline_loop (s : TimelineState) (i : Z) (validation_clips : list MediaClip)
  : TimelineState :=
  match validation_clips with
  | [] => s
  | clip :: rest => omf_timeline_loop (omf_timeline_step s i clip) (i + 1) rest
  end.

(** [_extract_timeline_clips_from_omf(file_path, validation_clips)] *)
Definition _extract_timeline_clips_from_omf (file_path : pystr) (validation_clips : list MediaClip)
  : list MediaClip * float :=
  let s := omf_timeline_loop (mkTimelineState [] 0%float 0%float) 0 validation_clips in
  let total :=
    match t_timeline_clips s with
    | _ :: _ =>
        if PrimFloat.eqb (t_total_duration s) 0%float
        then PrimFloat.mul (float_of_int (Z.of_nat (length (t_timeline_clips s)))) 5%float
        else t_total_duration s
    | [] => t_total_duration s
    end in
  (t_timeline_clips s, total).

End Validate.

(* ================================================================== *)
(** ** Graph container walker *)

(** The object graph that [aaf2] hands out is read by attribute probing
    ([hasattr], [getattr]); a node here carries every attribute the walker
    probes, [None] when the object has no such attribute (or holds [None]). *)
Record Locator := mkLocator {
  l_path : option pystr;          (** [str(locator.path)] *)
  l_url_string : option pystr     (** [str(locator.url_string)] *)
}.

Record Descriptor := mkDescriptor {
  d_name : option pystr;
  d_locator : option Locator;     (** [descriptor.locator], when truthy *)
  d_has_essence : bool;           (** [hasattr(d, 'essence') or hasattr(d, 'essence_data')] *)
  d_type : pystr                  (** [str(type(descriptor))] *)
}.

Record SlotOf (N : Type) := mkSlot {
  s_media_kind : option pystr;    (** [str(slot.media_kind)], when truthy *)
  s_segment : option N            (** [slot.segment], when truthy *)
}.

#[local] Unset Elimination Schemes.
Inductive Node := mkNode {
  n_name : option pystr;
  n_mob_id : option pystr;        (** [str(x.mob_id)] *)
  n_pyid : pystr;                 (** [str(id(x))] *)
  n_mob : option Node;            (** [x.mob], when not [None] *)
  n_descriptor : option Descriptor;
  n_has_essence : bool;           (** [hasattr(x, 'essence')] *)
  n_slots : option (list (SlotOf Node));
  n_components : option (list Node)
}.
#[local] Set Elimination Schemes.
Definition Slot := SlotOf Node.

(** [needle in hay] *)
Fixpoint substr_in (needle hay : pystr) : bool :=
  match hay with
  | [] => startswith [] needle
  | _ :: r => startswith hay needle || substr_in needle r
  end.

(** The path a locator gives (lines 356-365): [path], else a [file://] URL
    without its scheme, else a URL that is not [http]. *)
Definition locator_path (locator : Locator) : option pystr :=
  match l_path locator with
  | Some p => Some p
  | None =>
      match l_url_string locator with
      | Some url =>
          if startswith url (str "file://") then Some (slice_from 7 url)
          else if negb (startswith url (str "http")) then Some url
          else None
      | None => None
      end
  end.

Definition generic_names : list pystr := [str "sourceclip"; str "unnamed"; []].

Section Walker.
Variable fs : FileSystem.
Variable udb : UnicodeDB.

(** [str(getattr(source_mob, 'mob_id', id(source_mob)))] *)
Definition source_id_of (mob : Node) : pystr :=
  match n_mob_id mob with Some i => i | None => n_pyid mob end.

(** [str(x).strip()] of a name attribute that is present and truthy. *)
Definition stripped_name (o : option pystr) : option pystr :=
  match o with
  | Some s => if truthy_str s then Some (strip udb s) else None
  | None => None
  end.

(** "Get clip name - try multiple sources" (lines 296-314). *)
Definition walker_clip_name (segment source_mob : Node) (n_clips : Z) : pystr :=
  let clip_name := stripped_name (n_name segment) in
  let clip_name :=
    if truthy clip_name then clip_name
    else match stripped_name (n_name source_mob) with
         | Some s => Some s
         | None => clip_name
         end in
  let clip_name :=
    if truthy clip_name then clip_name
    else match n_descriptor source_mob with
         | Some desc =>
             match stripped_name (d_name desc) with
             | Some s => Some s
             | None => clip_name
             end
         | None => clip_name
         end in
  match clip_name with
  | Some s =>
      if negb (truthy_str s) || str_in (lower udb s) generic_names
      then str "Clip_" ++ str_of_int (n_clips + 1)
      else s
  | None => str "Clip_" ++ str_of_int (n_clips + 1)
  end.

(** "Check if this is an audio track" (lines 317-340). *)
Definition walker_is_audio (source_mob : Node) : bool :=
  let by_slots :=
    match n_slots source_mob with
    | Some slots =>
        existsb (fun slot =>
          match s_media_kind slot with
          | Some k => substr_in (str "sound") (lower udb k)
          | None => false
          end) slots
    | None => false
    end in
  if by_slots then true
  else match n_descriptor source_mob with
       | Some desc =>
           substr_in (str "audio") (lower udb (d_type desc))
           || substr_in (str "sound") (lower udb (d_type desc))
       | None => false
       end.

(** "Also check for file locators in the mob itself" (lines 377-398): the
    first slot of the source whose nested source gives a path. *)
Fixpoint nested_locator_path (slots : list Slot) : option pystr :=
  match slots with
  | [] => None
  | slot :: rest =>
      match s_segment slot with
      | Some seg =>
          match n_mob seg with
          | Some mob =>
              match n_descriptor mob with
              | Some desc =>
                  match d_locator desc with
                  | Some loc =>
                      match locator_path loc with
                      | Some p => Some p
                      | None => nested_locator_path rest
                      end
                  | None => nested_locator_path rest
                  end
              | None => nested_locator_path rest
              end
          | None => nested_locator_path rest
          end
      | None => nested_locator_path rest
      end
  end.

(** "Check for essence data (embedded vs external)" (lines 344-402):
    [(is_embedded, external_path)] before resolution. *)
Definition walker_classify (source_mob : Node) : bool * option pystr :=
  let '(is_embedded, external_path) :=
    match n_descriptor source_mob with
    | Some descriptor =>
        (d_has_essence descriptor,
         match d_locator descriptor with
         | Some locator => locator_path locator
         | None => None
         end)
    | None => (false, None)
    end in
  let is_embedded :=
    if negb (truthy external_path) && negb is_embedded
    then n_has_essence source_mob else is_embedded in
  let external_path :=
    if negb (truthy external_path) then
      match nested_locator_path (match n_slots source_mob with Some l => l | None => [] end) with
      | Some p => Some p
      | None => external_path
      end
    else external_path in
  (is_embedded, external_path).

(** "If we have an external path, resolve it relative to AAF file if needed"
    (lines 404-410). *)
Definition walker_resolve (aaf_file_path : pystr) (external_path : option pystr) : option pystr :=
  match external_path with
  | Some p =>
      if truthy_str p then
        let p :=
          if negb (posixpath.isabs p) then
            let aaf_dir := posixpath.dirname (posixpath.abspath (fs_cwd fs) aaf_file_path) in
            posixpath.join aaf_dir p
          else p in
        Some (posixpath.normpath p)
      else Some p
  | None => None
  end.

(** The clip a source reference gives (lines 295-425), if it is included. *)
Definition walker_clip (segment source_mob : Node) (aaf_file_path : pystr) (n_clips : Z)
  : option MediaClip :=
  let clip_name := walker_clip_name segment source_mob n_clips in
  let is_audio := walker_is_audio source_mob in
  let '(is_embedded, external_path) := walker_classify source_mob in
  let external_path := walker_resolve aaf_file_path external_path in
  if is_audio || truthy external_path || is_embedded
     || match n_slots source_mob with None => true | Some _ => false end
  then Some (MediaClip_new clip_name (Some (source_id_of source_mob)) is_embedded external_path)
  else None.

(** The list [clips] and the set [processed_sources] the walk writes to. *)
Record WalkState := mkWalkState {
  w_clips : list MediaClip;
  w_processed : list pystr
}.

(** The source-reference part of one call: [None] when the call returns at
    once (a source already processed). *)
Definition walker_source (segment : Node) (aaf_file_path : pystr) (st : WalkState)
  : option WalkState :=
  match n_mob segment with
  | Some source_mob =>
      let source_id := source_id_of source_mob in
      if str_in source_id (w_processed st) then None
      else
        let processed := source_id :: w_processed st in
        match walker_clip segment source_mob aaf_file_path (Z.of_nat (length (w_clips st))) with
        | Some clip => Some (mkWalkState (w_clips st ++ [clip]) processed)
        | None => Some (mkWalkState (w_clips st) processed)
        end
  | None => Some st
  end.

(** [_extract_clips_from_segment(segment, clips, processed_sources, aaf_file_path)] *)
Fixpoint _extract_clips_from_segment (segment : Node) (aaf_file_path : pystr) (st : WalkState)
  {struct segment} : WalkState :=
  match walker_source segment aaf_file_path st with
  | None => st
  | Some st1 =>
      match segment with
      | mkNode _ _ _ _ _ _ slots components =>
          let st2 :=
            match slots with
            | Some slot_list =>
                (fix over_slots (l : list (SlotOf Node)) (st : WalkState) : WalkState :=
                   match l with
                   | [] => st
                   | mkSlot _ (Some seg) :: r =>
                       over_slots r (_extract_clips_from_segment seg aaf_file_path st)
                   | mkSlot _ None :: r => over_slots r st
                   end) slot_list st1
            | None => st1
            end in
          match components with
          | Some comp_list =>
              (fix over_components (l : list Node) (st : WalkState) : WalkState :=
                 match l with
                 | [] => st
                 | component :: r =>
                     over_components r (_extract_clips_from_segment component aaf_file_path st)
                 end) comp_list st2
          | None => st2
          end
      end
  end.

End Walker.

(* ================================================================== *)
(** ** [_parse_aaf_file] *)

(** What [aaf2.open(file_path, 'r')] gives: [f.content.toplevel()] and
    [f.content.mobs] (the mobs that are not [None]; empty when the registry
    is falsy or cannot be iterated). *)
Record AafContent := mkAafContent {
  aaf_toplevel : list Node;
  aaf_mobs : list Node
}.

(** The [aaf2] library: whether the import succeeded, [aaf2.open], and the
    timeline walk [_extract_timeline_clips_from_aaf], which reads the
    container a second time; the validation stores what it returns. *)
Record Aaf2 := mkAaf2 {
  AAF_SUPPORT : bool;
  aaf2_open : pystr -> result AafContent;
  aaf2_timeline : pystr -> list MediaClip -> list MediaClip * float
}.

Section ParseAaf.
Variable fs : FileSystem.
Variable udb : UnicodeDB.
Variable aaf2 : Aaf2.

(** First pass: the segments of the slots of every mob. *)
Definition walk_mob_slots (aaf_file_path : pystr) (st : WalkState) (mob : Node) : WalkState :=
  match n_slots mob with
  | Some slots =>
      fold_left (fun st slot =>
        match s_segment slot with
        | Some seg => _extract_clips_from_segment fs udb seg aaf_file_path st
        | None => st
        end) slots st
  | None => st
  end.

(** Fallback pass, the scan of the slots of one mob: [None] when no slot
    refers to a source ([has_media] stays [False]), else [ext_path]. *)
Fixpoint fallback_media (slots : list Slot) : option (option pystr) :=
  match slots with
  | [] => None
  | slot :: rest =>
      match s_segment slot with
      | Some seg =>
          match n_mob seg with
          | Some src =>
              Some match n_descriptor src with
                   | Some desc =>
                       match d_locator desc with
                       | Some loc => locator_path loc
                       | None => None
                       end
                   | None => None
                   end
          | None => fallback_media rest
          end
      | None => fallback_media rest
      end
  end.

(** Fallback pass, one mob. *)
Definition fallback_mob (aaf_file_path : pystr) (st : WalkState) (mob : Node) : WalkState :=
  match n_name mob, n_mob_id mob with
  | None, None => st
  | _, _ =>
      match fallback_media (match n_slots mob with Some l => l | None => [] end) with
      | Some ext_path =>
          let mob_id := source_id_of mob in
          if str_in mob_id (w_processed st) then st
          else
            let name :=
              match n_name mob with
              | Some n => str_or n (str "Clip_" ++ str_of_int (Z.of_nat (length (w_clips st)) + 1))
              | None => str "Clip_" ++ str_of_int (Z.of_nat (length (w_clips st)) + 1)
              end in
            let ext_path :=
              match ext_path with
              | Some p =>
                  if truthy_str p && negb (posixpath.isabs p) then
                    let aaf_dir :=
                      posixpath.dirname (posixpath.abspath (fs_cwd fs) aaf_file_path) in
                    Some (posixpath.normpath (posixpath.join aaf_dir p))
                  else Some p
              | None => None
              end in
            let clip :=
              MediaClip_new name (Some mob_id)
                (match ext_path with None => true | Some _ => false end) ext_path in
            mkWalkState (w_clips st ++ [clip]) (mob_id :: w_processed st)
      | None => st
      end
  end.

(** [_parse_aaf_file(file_path)] *)
Definition _parse_aaf_file (file_path : pystr) : result (list MediaClip) :=
  if negb (AAF_SUPPORT aaf2) then
    inl (mkExn ImportError
      (str "pyaaf2 library is required for AAF file support. Install with: pip install pyaaf2"))
  else
    match aaf2_open aaf2 file_path with
    | inl e => inl (mkExn ValueError (str "Error parsing AAF file: " ++ exn_msg e))
    | inr f =>
        let st := mkWalkState [] [] in
        let st := fold_left (walk_mob_slots file_path) (aaf_mobs f) st in
        let st :=
          fold_left (fun st composition =>
                       _extract_clips_from_segment fs udb composition file_path st)
                    (aaf_toplevel f) st in
        let st :=
          match w_clips st with
          | [] => fold_left (fallback_mob file_path) (aaf_mobs f) st
          | _ => st
          end in
        inr (w_clips st)
    end.

(* ---------------------------------------------------------------- *)
(** *** Name check of the graph-format timeline *)

(** [validation_clip_map.get(source_id)]: the map is filled in the order of
    [validation_clips], a later clip replacing an earlier one of the same id. *)
Fixpoint validation_clip_map_get (validation_clips : list MediaClip) (source_id : pystr)
  : option MediaClip :=
  match validation_clips with
  | [] => None
  | clip :: rest =>
      match validation_clip_map_get rest source_id with
      | Some c => Some c
      | None =>
          match clip_id clip with
          | Some i => if truthy_str i && pystr_eqb i source_id then Some clip else None
          | None => None
          end
      end
  end.

(** "Name matching logic" of [_extract_timeline_clips_from_segment]
    (lines 1194-1208): [(name_matches, expected_filename)]. *)
Definition aaf_name_match (clip_name : pystr) (matched_clip : option MediaClip)
  : option bool * option pystr :=
  match matched_clip with
  | Some matched =>
      match external_path matched with
      | Some p =>
          if truthy_str p then
            let expected_filename := posixpath.basename p in
            (Some (pystr_eqb (name_base udb clip_name) (name_base udb expected_filename)),
             Some expected_filename)
          else (None, None)
      | None => (None, None)
      end
  | None => (None, None)
  end.

(** "Create timeline clip" (lines 1210-1223). *)
Definition aaf_timeline_clip (clip_name source_id : pystr) (matched_clip : option MediaClip)
    (track_index : Z) (clip_start clip_end : float) : MediaClip :=
  let '(name_matches, expected) := aaf_name_match clip_name matched_clip in
  mkMediaClip clip_name (Some source_id)
    (match matched_clip with Some m => is_embedded m | None => false end)
    (match matched_clip with Some m => external_path m | None => None end)
    (match matched_clip with Some m => is_valid m | None => true end)
    None track_index clip_start clip_end name_matches expected.

End ParseAaf.

(* ================================================================== *)
(** ** [validate_omf_aaf_media] *)

Inductive file_type := aaf | omf.

(** [needle in hay] on bytes *)
Fixpoint bytes_startswith (s p : bytes) {struct p} : bool :=
  match p, s with
  | [], _ => true
  | c :: p', x :: s' => Byte.eqb x c && bytes_startswith s' p'
  | _ :: _, [] => false
  end.
Fixpoint bytes_in (needle hay : bytes) : bool :=
  match hay with
  | [] => bytes_startswith [] needle
  | _ :: r => bytes_startswith hay needle || bytes_in needle r
  end.

Section Validator.
Variable fs : FileSystem.
Variable rt : Runtime.
Variable aaf2 : Aaf2.

Let udb := rt_unicode rt.

(** [_detect_file_type(file_path)] *)
Definition _detect_file_type (file_path : pystr) : result file_type :=
  let file_ext := lower udb (snd (posixpath.splitext file_path)) in
  if pystr_eqb file_ext (str ".aaf") then inr aaf
  else if pystr_eqb file_ext (str ".omf") then inr omf
  else
    let by_header :=
      match fs_open fs file_path with
      | inr content =>
          let header := firstn 16 content in
          if bytes_in (bytes_of "AAF") (firstn 8 header)
             || bytes_eqb (firstn 4 header) [x00; x00; x00; x01]
          then Some aaf
          else if bytes_eqb (firstn 4 header) (bytes_of "OMFI")
                  || bytes_eqb (firstn 2 header) [x00; x01]
          then Some omf
          else None
      | inl _ => None
      end in
    match by_header with
    | Some t => inr t
    | None =>
        inl (mkExn ValueError
               (str "Unable to determine file type for: " ++ file_path
                ++ str ". Expected .aaf or .omf extension."))
    end.

(** "Validate each clip" to the end of [validate_omf_aaf_media] (lines
    943-997), for the clips [all_clips] of a file of type [ft]. *)
Definition build_report (ft : file_type) (file_path : pystr) (all_clips : list MediaClip)
  : ValidationReport :=
  let '(all_clips, missing_clips) := validate_clips fs all_clips in
  let embedded_count := count_clips is_embedded all_clips in
  let linked_count := count_clips (fun clip => negb (is_embedded clip)) all_clips in
  let valid_count := count_clips is_valid all_clips in
  let missing_clips_count := Z.of_nat (length missing_clips) in
  let '(timeline_clips, total_duration) :=
    match ft with
    | aaf => if AAF_SUPPORT aaf2 then aaf2_timeline aaf2 file_path all_clips else ([], 0%float)
    | omf => _extract_timeline_clips_from_omf fs udb file_path all_clips
    end in
  mkValidationReport (Z.of_nat (length all_clips)) embedded_count linked_count
    missing_clips_count valid_count missing_clips file_path timeline_clips total_duration.

(** [validate_omf_aaf_media(file_path)] *)
Definition validate_omf_aaf_media (file_path : pystr) : result ValidationReport :=
  if negb (fs_exists fs file_path) then
    inl (mkExn FileNotFoundError (str "The specified file does not exist: " ++ file_path))
  else
    match _detect_file_type file_path with
    | inl e => inl (mkExn ValueError (exn_msg e))
    | inr ft =>
        let parsed :=
          match ft with
          | aaf => _parse_aaf_file fs udb aaf2 file_path
          | omf => fst (_parse_omf_file fs rt file_path)
          end in
        match parsed with
        | inl e => inl e
        | inr all_clips => inr (build_report ft file_path all_clips)
        end
    end.

End Validator.

(* ================================================================== *)
(** ** Predicates and sample inputs of the properties *)

(** A clip as an extractor makes it: valid until the validation says otherwise. *)
Definition fresh (clip : MediaClip) : Prop := is_valid clip = true.

(** A clip of the aggressive fallback: made by [aggressive_clip] from a
    decoded path longer than four characters. *)
Definition made_by_fallback (base_dir : pystr) (clip : MediaClip) : Prop :=
  exists path_str n, clip = aggressive_clip base_dir path_str n /\ (4 < len path_str)%Z.

(** The invariant of the loop of the fallback: [clip_counter] is one more
    than the number of clips, which is at most [max_clips]. *)
Definition agg_inv (base_dir : pystr) (s : AggState) : Prop :=
  Forall (made_by_fallback base_dir) (a_clips s)
  /\ a_clip_counter s = (1 + Z.of_nat (length (a_clips s)))%Z
  /\ (Z.of_nat (length (a_clips s)) <= max_clips)%Z.

(** The two counts the filter takes of a string. *)
Definition printable_count (udb : UnicodeDB) (s : pystr) : Z :=
  count_if (fun c => isprintable udb c || in_nl_cr_tab c) s.

Definition control_count (s : pystr) : Z :=
  count_if (fun c => (c <? 32)%N && negb (in_nl_cr_tab c)) s.

(** The ratio tests on binary64 agree with the tests on the integers, for
    every count and every length up to [bound]. *)
Definition ratio_tests_agree_upto (bound : nat) : bool :=
  forallb (fun n =>
    forallb (fun count =>
      let n := Z.of_nat n in
      let count := Z.of_nat count in
      Bool.eqb (ratio64 true count n f0_7) (lt_ratio count n 7 10)
      && Bool.eqb (ratio64 false count n f0_1) (gt_ratio count n 1 10)
      && Bool.eqb (ratio64 true count n f0_6) (lt_ratio count n 6 10))
      (seq 0 (S n)))
    (seq 0 (S bound)).

(** The clips of the legacy scan: linked, with one of the scanned paths. *)
Definition made_by_scan (paths : list pystr) (clip : MediaClip) : Prop :=
  exists n i p,
    clip = MediaClip_new n i false (Some p) /\ In p paths /\ truthy_str p = true.

(** The branch of the validation that asks the file system about [p]. *)
Definition existence_branch (fs : FileSystem) (clip : MediaClip) (p : pystr)
  : MediaClip * bool :=
  if negb (fs_exists fs p)
  then (mark_invalid clip (str "External media file not found: " ++ p), true)
  else if negb (fs_isfile fs p)
  then (mark_invalid clip (str "External path exists but is not a file: " ++ p), true)
  else (clip, false).


(** The timeline clips the loop appends from cursor [cur] and index [i]. *)
Fixpoint layout (fs : FileSystem) (udb : UnicodeDB) (cur : float) (i : Z)
    (validation_clips : list MediaClip) : list MediaClip :=
  match validation_clips with
  | [] => []
  | clip :: rest =>
      let s := omf_timeline_step fs udb (mkTimelineState [] cur 0%float) i clip in
      t_timeline_clips s ++ layout fs udb (t_current_time s) (i + 1) rest
  end.

(** [c] keeps the invariant [I] of the state, whether it returns or raises. *)
Definition preserves {S A : Type} (I : S -> Prop) (c : M S A) : Prop :=
  forall s, I s -> I (snd (c s)).

(** The [read] requests among the events. *)
Definition reads (events : list io_event) : list (option Z) :=
  flat_map (fun e => match e with EvRead n => [n] | _ => [] end) events.

(** Sample codecs and formatter: every byte decodes to the code point of its
    value (latin-1, and utf-8 on ASCII); the formatter prints nothing. *)
Definition demo_decode (enc : encoding) (b : bytes) : option pystr :=
  Some (map Byte.to_N b).

Definition demo_format_f (digits : nat) (x : float) : pystr := [].

(** A disk with no file on it. *)
Definition nothing_on_disk : FileSystem :=
  mkFileSystem (str "/") (fun _ => false) (fun _ => false) (fun _ => None)
    (fun _ => inl (mkExn OSError (str "No such file or directory"))).

(** A run of the scanner on the bytes [/proj/a.wav]: the ".wav" pattern of
    Method 1 yields the path, and the engine raises [MemoryError] on the
    first pattern of Method 2. *)
Definition raising_finditer (r : regex) (data : bytes) : list bytes * option exn :=
  match r with
  | RxPathWithExt ext =>
      if bytes_eqb ext (bytes_of ".wav") then ([bytes_of "/proj/a.wav"], None) else ([], None)
  | RxWindowsPath => ([], Some (mkExn MemoryError []))
  | _ => ([], None)
  end.

Definition raising_runtime : Runtime :=
  mkRuntime ascii_only demo_decode raising_finditer demo_format_f.

(** A normalized path: [normpath] leaves it as it is. *)
Definition normalized (q : pystr) : Prop := posixpath.normpath q = q.

(** A relative candidate of the scan that was not found under the directory
    of the container and was kept, normalized, "for validation". *)
Definition kept_relative (fs : FileSystem) (base_dir q : pystr) : Prop :=
  exists candidate,
    q = posixpath.normpath candidate
    /\ posixpath.isabs candidate = false
    /\ fs_exists fs (posixpath.join base_dir candidate) = false.

(** What the legacy scan returns. *)
Definition scanned_path (fs : FileSystem) (base_dir q : pystr) : Prop :=
  q <> [] /\ normalized q /\ (posixpath.isabs q = true \/ kept_relative fs base_dir q).

(** A clip whose path, when it has a non-empty one, is absolute; is normalized. *)
Definition absolute_if_any (clip : MediaClip) : Prop :=
  forall q, external_path clip = Some q -> q <> [] -> posixpath.isabs q = true.

Definition normalized_if_any (clip : MediaClip) : Prop :=
  forall q, external_path clip = Some q -> q <> [] -> normalized q.

(** The clips of the report carry the paths of the parsed clips. *)
Definition same_source (clip c0 : MediaClip) : Prop :=
  external_path clip = external_path c0 /\ is_embedded clip = is_embedded c0.

(** A legacy container [/proj/show.omf] whose bytes name the relative path
    [media/a.wav]; no such file is on disk. The matches are those of the
    patterns on these bytes. *)
Definition relative_bytes : bytes :=
  bytes_of "OMFI" ++ [x00] ++ bytes_of "media/a.wav" ++ [x00].

Definition relative_disk : FileSystem :=
  let is_container := fun p => pystr_eqb p (str "/proj/show.omf") in
  mkFileSystem (str "/") is_container is_container
    (fun p => if is_container p then Some 17%Z else None)
    (fun p => if is_container p then inr relative_bytes
              else inl (mkExn OSError (str "No such file or directory"))).

Definition relative_finditer (r : regex) (data : bytes) : list bytes * option exn :=
  match r with
  | RxPathWithExt ext =>
      if bytes_eqb ext (bytes_of ".wav") then ([bytes_of "media/a.wav" ++ [x00]], None)
      else ([], None)
  | RxUnixPath => ([bytes_of "/a.wav"], None)
  | _ => ([], None)
  end.

Definition relative_runtime : Runtime :=
  mkRuntime ascii_only demo_decode relative_finditer demo_format_f.

(** A machine without the [aaf2] library. *)
Definition no_aaf2 : Aaf2 :=
  mkAaf2 false (fun _ => inl (mkExn ImportError [])) (fun _ _ => ([], 0%float)).

(** A source whose descriptor has both a locator with the relative path
    [media/a.wav] and an [essence] attribute, and the segment that refers
    to it. *)
Definition embedded_with_locator : Node :=
  mkNode (Some (str "a")) (Some (str "urn:mob:1")) (str "1") None
    (Some (mkDescriptor None (Some (mkLocator (Some (str "media/a.wav")) None)) true
             (str "<class 'aaf2.essence.PCMDescriptor'>")))
    false None None.

Definition segment_of (source_mob : Node) : Node :=
  mkNode None None (str "2") (Some source_mob) None false None None.

(** A source with a locator and no essence: a linked clip. *)
Definition linked_with_locator : Node :=
  mkNode (Some (str "a")) (Some (str "urn:mob:2")) (str "3") None
    (Some (mkDescriptor None (Some (mkLocator (Some (str "media/a.wav")) None)) false
             (str "<class 'aaf2.essence.PCMDescriptor'>")))
    false None None.







(** A disk where every file has 250 MB, and a file of 150 MB of zeros. *)
Definition huge_disk : FileSystem :=
  mkFileSystem (str "/") (fun _ => true) (fun _ => true) (fun _ => Some (250 * MB)%Z)
    (fun _ => inr []).

Definition big_handle : FileHandle := repeat x00 (Z.to_nat (150 * MB)).

(** The clip number [k] (from 0) of the path loop of [_parse_omf_file]: made
    from a non-empty path [q] with an audio extension or none, named after
    its base name, with the id [omf_clip_<k+1>]. *)
Definition numbered_scan_clip (udb : UnicodeDB) (k : nat) (clip : MediaClip) : Prop :=
  exists q,
    clip = MediaClip_new
             (str_or (posixpath.basename q) (str "Audio Clip " ++ str_of_int (Z.of_nat k + 1)))
             (Some (str "omf_clip_" ++ str_of_int (Z.of_nat k + 1))) false (Some q)
    /\ truthy_str q = true
    /\ (str_in (lower udb (snd (posixpath.splitext q))) core_audio_exts = true
        \/ lower udb (snd (posixpath.splitext q)) = []).

(** The clip number [k] (from 0) of [_aggressive_omf_parse]. *)
Definition numbered_fallback_clip (base_dir : pystr) (k : nat) (clip : MediaClip) : Prop :=
  exists path_str,
    clip = aggressive_clip base_dir path_str (Z.of_nat k + 1) /\ (4 < len path_str)%Z.

(** The invariant of the path loop of [_parse_omf_file]: [clip_counter] is
    one more than the number of clips, clip [k] is the clip number [k] and
    its path is in [processed_paths], and no two clips share a path. *)
Definition scan_numbered (udb : UnicodeDB) (s : BuildState) : Prop :=
  b_clip_counter s = (1 + Z.of_nat (length (b_clips s)))%Z
  /\ (forall k clip, nth_error (b_clips s) k = Some clip ->
        numbered_scan_clip udb k clip
        /\ exists q, external_path clip = Some q /\ In q (b_processed_paths s))
  /\ NoDup (map external_path (b_clips s)).

(** The invariant of the loop of [_aggressive_omf_parse], with the numbers. *)
Definition fallback_numbered (base_dir : pystr) (s : AggState) : Prop :=
  a_clip_counter s = (1 + Z.of_nat (length (a_clips s)))%Z
  /\ forall k clip, nth_error (a_clips s) k = Some clip -> numbered_fallback_clip base_dir k clip.

(** The invariant of the walk of the graph format: the ids of the clips are
    pairwise distinct and all in [processed_sources]. *)
Definition ids_recorded (st : WalkState) : Prop :=
  NoDup (map clip_id (w_clips st))
  /\ forall c, In c (w_clips st) -> exists i, clip_id c = Some i /\ In i (w_processed st).

(* ================================================================== *)
(** ** [format_report] *)

(** The lines the loop of [format_report] appends for one clip. *)
Definition report_clip_lines (clip : MediaClip) : list pystr :=
  [str "  Clip: " ++ name clip]
  ++ match clip_id clip with
     | Some i => if truthy_str i then [str "    ID: " ++ i] else []
     | None => []
     end
  ++ [str "    Type: " ++ (if is_embedded clip then str "Embedded" else str "Linked")]
  ++ match external_path clip with
     | Some p => if truthy_str p then [str "    Expected Path: " ++ p] else []
     | None => []
     end
  ++ match error_message clip with
     | Some m => if truthy_str m then [str "    Error: " ++ m] else []
     | None => []
     end
  ++ [[]].

Definition all_valid_line : pystr := str " All audio clips are valid and accessible!".

(** The list [output] of [format_report] at its [return]. *)
Definition format_report_lines (report : ValidationReport) : list pystr :=
  [repeat 61%N 60;                       (* sixty equals signs *)
   str "OMF/AAF Media Validation Report";
   repeat 61%N 60;
   str "File: " ++ file_path report;
   [];
   str "Summary:";
   str "  Total Audio Clips: " ++ str_of_int (total_clips report);
   str "  Embedded Clips: " ++ str_of_int (embedded_clips report);
   str "  Linked Clips: " ++ str_of_int (linked_clips report);
   str "  Valid Clips: " ++ str_of_int (valid_clips report);
   str "  Missing/Invalid Clips: " ++ str_of_int (missing_clips report);
   []]
  ++ (if (0 <? missing_clips report)%Z then
        [str "Missing/Invalid Clips Details:"; repeat 45%N 60]     (* sixty dashes *)
        ++ flat_map report_clip_lines (missing_clip_details report)
      else [all_valid_line])
  ++ [repeat 61%N 60].

(** [format_report(report)]: ["\n".join(output)] *)
Definition format_report (report : ValidationReport) : pystr :=
  join_with 10%N (format_report_lines report).

(* ================================================================== *)
(** ** The command line *)

(** What a run of the [__main__] block leaves: the report whose fields are
    dumped as JSON on the standard output, the line the block itself prints
    on the standard error (the debug lines apart), and the exit status. *)
Record MainResult := mkMainResult {
  m_json : option ValidationReport;
  m_stderr : option pystr;
  m_status : Z
}.

Section Main.
Variable fs : FileSystem.
Variable rt : Runtime.
Variable aaf2 : Aaf2.

(** [if __name__ == "__main__":] with [sys.argv = argv]. *)
Definition main (argv : list pystr) : MainResult :=
  match argv with
  | _ :: file_path :: _ =>
      match validate_omf_aaf_media fs rt aaf2 file_path with
      | inr report =>
          mkMainResult (Some report) None (if (0 <? missing_clips report)%Z then 1 else 0)
      | inl e => mkMainResult None (Some (str "Error: " ++ exn_msg e)) 1
      end
  | _ =>
      mkMainResult None
        (Some (str "Usage: python media_validator.py <path_to_omf_or_aaf_file>")) 1
  end.

End Main.

(* ================================================================== *)
(** ** Timeline of the graph format *)

(** An attribute read as [float(getattr(x, 'a', 0))] inside a [try]: the
    object has no such attribute, or a value that [float] converts, or a
    value on which [float] raises. *)
Inductive float_attr := NoAttr | FloatAttr (x : float) | BadAttr.

Definition float_attr_or_zero (a : float_attr) : float :=
  match a with FloatAttr x => x | _ => 0%float end.

(** A segment with the attributes the timeline walk probes; the source
    [segment.mob] is a [Node]. *)
#[local] Unset Elimination Schemes.
Inductive Segment := mkSegment {
  sg_name : option pystr;                  (** [str(segment.name)] *)
  sg_mob : option Node;                    (** [segment.mob], when not [None] *)
  sg_start : float_attr;
  sg_length : float_attr;
  sg_components : option (list Segment);   (** [list(segment.components)] *)
  sg_segments : option (list Segment)      (** [list(segment.segments)] *)
}.
#[local] Set Elimination Schemes.

(** A slot of a composition and a top-level composition. *)
Record TimelineSlot := mkTimelineSlot {
  tl_segment : option Segment;             (** [slot.segment], when truthy *)
  tl_start : float_attr;
  tl_length : float_attr
}.

Record Composition := mkComposition {
  co_edit_rate : float_attr;
  co_slots : option (list TimelineSlot)    (** [list(composition.slots)] *)
}.

(** [a / b] on two floats: [None] when Python raises [ZeroDivisionError]. *)
Definition py_div (a b : float) : option float :=
  if PrimFloat.eqb b 0%float then None else Some (PrimFloat.div a b).

Definition MAX_DEPTH : Z := 20%Z.

Section TimelineWalk.
Variable udb : UnicodeDB.

(** [s.lower() not in ['sourceclip', 'unnamed', '']] *)
Definition not_generic (s : pystr) : bool := negb (str_in (lower udb s) generic_names).

(** "Get clip name" of the timeline walk (lines 1110-1168). *)
Definition timeline_clip_name (segment_name : option pystr) (source_mob : Node)
    (matched_clip : option MediaClip) (n_clips : Z) : pystr :=
  let clip_name : option pystr := None in
  let clip_name :=
    match stripped_name udb (n_name source_mob) with
    | Some mob_name =>
        if not_generic mob_name then Some (fst (posixpath.splitext mob_name)) else clip_name
    | None => clip_name
    end in
  let clip_name :=
    if truthy clip_name then clip_name
    else match stripped_name udb segment_name with
         | Some seg_name => if not_generic seg_name then Some seg_name else clip_name
         | None => clip_name
         end in
  let clip_name :=
    if truthy clip_name then clip_name
    else match n_descriptor source_mob with
         | Some desc =>
             match stripped_name udb (d_name desc) with
             | Some desc_name => if not_generic desc_name then Some desc_name else clip_name
             | None => clip_name
             end
         | None => clip_name
         end in
  let clip_name :=
    if truthy clip_name then clip_name
    else match matched_clip with
         | Some matched =>
             if truthy_str (name matched) then
               let val_name := strip udb (name matched) in
               if not_generic val_name then Some val_name else clip_name
             else clip_name
         | None => clip_name
         end in
  let clip_name :=
    if truthy clip_name then clip_name
    else match n_descriptor source_mob with
         | Some desc =>
             match d_locator desc with
             | Some locator =>
                 match locator_path locator with
                 | Some file_path =>
                     let filename := posixpath.basename file_path in
                     if truthy_str file_path && truthy_str filename && not_generic filename
                     then Some (fst (posixpath.splitext filename))
                     else clip_name
                 | None => clip_name
                 end
             | None => clip_name
             end
         | None => clip_name
         end in
  let clip_name :=
    if truthy clip_name then clip_name
    else match matched_clip with
         | Some matched =>
             match external_path matched with
             | Some p =>
                 if truthy_str p
                 then Some (fst (posixpath.splitext (posixpath.basename p)))
                 else clip_name
             | None => clip_name
             end
         | None => clip_name
         end in
  match clip_name with
  | Some s => if truthy_str s then s else str "Clip_" ++ str_of_int (n_clips + 1)
  | None => str "Clip_" ++ str_of_int (n_clips + 1)
  end.

(** "Get segment timing" (lines 1176-1184): [(segment_start, segment_length)];
    a [float] that raises leaves what was not yet assigned at [0.0]. *)
Definition segment_timing (start length : float_attr) : float * float :=
  match start with
  | BadAttr => (0%float, 0%float)
  | _ => (float_attr_or_zero start, float_attr_or_zero length)
  end.

(** The source reference of one call (lines 1099-1227): the list with the
    clip appended and the new [timeline_position], or [None] when the
    division by [edit_rate] raises (nothing was appended yet). After the
    first division did not raise, [edit_rate] is not zero. *)
Definition timeline_source (segment_name : option pystr) (start length : float_attr)
    (source_mob : Node) (track_index : Z) (timeline_position edit_rate : float)
    (validation_clips timeline_clips : list MediaClip) : option (list MediaClip * float) :=
  let source_id := source_id_of source_mob in
  let matched_clip := validation_clip_map_get validation_clips source_id in
  let clip_name :=
    timeline_clip_name segment_name source_mob matched_clip
      (Z.of_nat (List.length timeline_clips)) in
  let '(segment_start, segment_length) := segment_timing start length in
  match py_div segment_start edit_rate with
  | None => None
  | Some offset =>
      let clip_start := PrimFloat.add timeline_position offset in
      let clip_length :=
        if PrimFloat.ltb 0%float segment_length
        then PrimFloat.div segment_length edit_rate else 0%float in
      let clip_end := PrimFloat.add clip_start clip_length in
      let timeline_clip :=
        aaf_timeline_clip udb clip_name source_id matched_clip track_index clip_start clip_end in
      Some (timeline_clips ++ [timeline_clip],
            if PrimFloat.ltb 0%float segment_length
            then PrimFloat.add timeline_position (PrimFloat.div segment_length edit_rate)
            else timeline_position)
  end.

(** [_extract_timeline_clips_from_segment(segment, timeline_clips, ...)]: the
    list [timeline_clips] after the call. The body is one [try] whose
    [except Exception: pass] ends the call and keeps what was appended. *)
Fixpoint _extract_timeline_clips_from_segment (segment : Segment) (track_index : Z)
    (timeline_position edit_rate : float) (validation_clips : list MediaClip) (depth : Z)
    (timeline_clips : list MediaClip) {struct segment} : list MediaClip :=
  if (MAX_DEPTH <? depth)%Z then timeline_clips
  else
    match segment with
    | mkSegment segment_name mob start length components segments =>
        match
          match mob with
          | Some source_mob =>
              timeline_source segment_name start length source_mob track_index
                timeline_position edit_rate validation_clips timeline_clips
          | None => Some (timeline_clips, timeline_position)
          end
        with
        | None => timeline_clips
        | Some (timeline_clips, timeline_position) =>
            let '(timeline_clips, raised) :=
              match components with
              | Some comp_list =>
                  (fix over_components (l : list Segment) (clips : list MediaClip)
                     : list MediaClip * bool :=
                     match l with
                     | [] => (clips, false)
                     | comp :: r =>
                         match py_div (float_attr_or_zero (sg_start comp)) edit_rate with
                         | None => (clips, true)
                         | Some offset =>
                             over_components r
                               (_extract_timeline_clips_from_segment comp track_index
                                  (PrimFloat.add timeline_position offset) edit_rate
                                  validation_clips (depth + 1) clips)
                         end
                     end) comp_list timeline_clips
              | None => (timeline_clips, false)
              end in
            if raised then timeline_clips
            else
              match segments with
              | Some seg_list =>
                  (fix over_segments (l : list Segment) (clips : list MediaClip)
                     : list MediaClip :=
                     match l with
                     | [] => clips
                     | seg :: r =>
                         over_segments r
                           (_extract_timeline_clips_from_segment seg track_index
                              timeline_position edit_rate validation_clips (depth + 1) clips)
                     end) seg_list timeline_clips
              | None => timeline_clips
              end
        end
    end.

(** The locals [timeline_clips] and [total_duration] of
    [_extract_timeline_clips_from_aaf]. *)
Record TimelineAcc := mkTimelineAcc {
  tc_clips : list MediaClip;
  tc_total : float
}.

(** [for slot_idx, slot in enumerate(slots)] (lines 1044-1074). A division
    that raises ends the loop: the [except] of the composition takes over. *)
Fixpoint timeline_slots (edit_rate : float) (validation_clips : list MediaClip)
    (slots : list TimelineSlot) (track_index : Z) (acc : TimelineAcc) : TimelineAcc :=
  match slots with
  | [] => acc
  | slot :: rest =>
      match tl_segment slot with
      | Some segment =>
          let slot_position := float_attr_or_zero (tl_start slot) in
          match py_div slot_position edit_rate with
          | None => acc
          | Some timeline_position =>
              let clips :=
                _extract_timeline_clips_from_segment segment track_index timeline_position
                  edit_rate validation_clips 0 (tc_clips acc) in
              let total :=
                match tl_length slot with
                | FloatAttr slot_length =>
                    py_max (tc_total acc)
                      (PrimFloat.div (PrimFloat.add slot_position slot_length) edit_rate)
                | _ => tc_total acc
                end in
              timeline_slots edit_rate validation_clips rest (track_index + 1)
                (mkTimelineAcc clips total)
          end
      | None => timeline_slots edit_rate validation_clips rest track_index acc
      end
  end.

(** One turn of [for comp_idx, composition in enumerate(compositions)]. *)
Definition timeline_composition (validation_clips : list MediaClip) (acc : TimelineAcc)
    (composition : Composition) : TimelineAcc :=
  let edit_rate :=
    match co_edit_rate composition with FloatAttr x => x | _ => 48000%float end in
  match co_slots composition with
  | Some slots => timeline_slots edit_rate validation_clips slots 0 acc
  | None => acc
  end.

(** [_extract_timeline_clips_from_aaf(file_path, validation_clips)], with
    [toplevel file_path] for [aaf2.open(file_path, 'r')] followed by
    [list(f.content.toplevel())]. *)
Definition _extract_timeline_clips_from_aaf (aaf2 : Aaf2)
    (toplevel : pystr -> result (list Composition))
    (file_path : pystr) (validation_clips : list MediaClip) : list MediaClip * float :=
  if negb (AAF_SUPPORT aaf2) then ([], 0%float)
  else
    match toplevel file_path with
    | inl _ => ([], 0%float)
    | inr compositions =>
        let acc :=
          fold_left (timeline_composition validation_clips) compositions
            (mkTimelineAcc [] 0%float) in
        (tc_clips acc, tc_total acc)
    end.

(** The library with this timeline walk as its [aaf2_timeline]. *)
Definition with_timeline (aaf2 : Aaf2) (toplevel : pystr -> result (list Composition)) : Aaf2 :=
  mkAaf2 (AAF_SUPPORT aaf2) (aaf2_open aaf2)
    (_extract_timeline_clips_from_aaf aaf2 toplevel).

End TimelineWalk.

(** A clip of the timeline of the graph format: it has the id of its source
    and a name, no error message, and the verdict of the validation clip of
    that id (linked, without a path and valid when there is none). *)
Definition timeline_clip_of (validation_clips : list MediaClip) (clip : MediaClip) : Prop :=
  exists source_id,
    clip_id clip = Some source_id /\ name clip <> [] /\ error_message clip = None
    /\ match validation_clip_map_get validation_clips source_id with
       | Some matched =>
           is_embedded clip = is_embedded matched
           /\ external_path clip = external_path matched
           /\ is_valid clip = is_valid matched
       | None => is_embedded clip = false /\ external_path clip = None /\ is_valid clip = true
       end.

(** A source clip with nothing nested in it. *)
Definition plain_source_clip (segment : Segment) : Prop :=
  sg_mob segment <> None /\ sg_components segment = None /\ sg_segments segment = None.

(** What the validation asks of a clip: it is embedded, or its external
    path is a non-empty string that exists and is a file. *)
Definition media_present (fs : FileSystem) (clip : MediaClip) : bool :=
  is_embedded clip
  || match external_path clip with
     | Some p => truthy_str p && fs_exists fs p && fs_isfile fs p
     | None => false
     end.

(* ---------------------------------------------------------------- *)
(** *** Sample inputs *)

(** A disk that holds the container [/proj/show.aaf] and nothing else. *)
Definition aaf_disk : FileSystem :=
  let is_container := fun p => pystr_eqb p (str "/proj/show.aaf") in
  mkFileSystem (str "/") is_container is_container
    (fun p => if is_container p then Some 4096%Z else None)
    (fun p => if is_container p then inr []
              else inl (mkExn OSError (str "No such file or directory"))).

(** A container whose top level refers twice to the source [linked_with_locator]. *)
Definition two_references : Aaf2 :=
  mkAaf2 true
    (fun _ => inr (mkAafContent
                     [segment_of linked_with_locator; segment_of linked_with_locator] []))
    (fun _ _ => ([], 0%float)).

(** The same container as the timeline walk sees it: one composition at
    48000 with one track, a sequence of two one-second clips of that source. *)
Definition one_second_clip : Segment :=
  mkSegment (Some (str "a")) (Some linked_with_locator) (FloatAttr 0%float)
    (FloatAttr 48000%float) None None.

Definition two_clip_sequence : Segment :=
  mkSegment None None NoAttr (FloatAttr 96000%float)
    (Some [one_second_clip; one_second_clip]) None.

Definition two_references_toplevel (file_path : pystr) : result (list Composition) :=
  inr [mkComposition (FloatAttr 48000%float)
         (Some [mkTimelineSlot (Some two_clip_sequence) (FloatAttr 0%float)
                  (FloatAttr 96000%float)])].

(** A legacy container [/proj/show.omf] whose bytes name the path [/a//]
    followed by sixty tildes and [.wav]. The matches are those of the
    patterns on these bytes: the scan turns the candidate down (its base
    name has too few characters of a file name), and the pattern of the
    aggressive fallback finds no separator in the last 51 bytes of its match. *)
Definition tilde_path : bytes := bytes_of "/a//" ++ repeat x7e 60 ++ bytes_of ".wav".

Definition tilde_bytes : bytes := bytes_of "OMFI" ++ [x00] ++ tilde_path ++ [x00].

Definition tilde_disk : FileSystem :=
  let is_container := fun p => pystr_eqb p (str "/proj/show.omf") in
  mkFileSystem (str "/") is_container is_container
    (fun p => if is_container p then Some 74%Z else None)
    (fun p => if is_container p then inr tilde_bytes
              else inl (mkExn OSError (str "No such file or directory"))).

Definition tilde_finditer (r : regex) (data : bytes) : list bytes * option exn :=
  match r with
  | RxPathWithExt ext =>
      if bytes_eqb ext (bytes_of ".wav") then ([tilde_path ++ [x00]], None) else ([], None)
  | RxWindowsPath => ([], None)
  | RxUnixPath => ([tilde_path], None)
  | RxAudioRef => ([tilde_path ++ [x00]], None)
  end.

Definition tilde_runtime : Runtime :=
  mkRuntime ascii_only demo_decode tilde_finditer demo_format_f.

(** A graph container whose only clip is [embedded_with_locator], and its
    timeline: one track with one one-second clip of that source. *)
Definition one_embedded : Aaf2 :=
  mkAaf2 true (fun _ => inr (mkAafContent [segment_of embedded_with_locator] []))
    (fun _ _ => ([], 0%float)).

Definition one_embedded_toplevel (file_path : pystr) : result (list Composition) :=
  inr [mkComposition (FloatAttr 48000%float)
         (Some [mkTimelineSlot
                  (Some (mkSegment (Some (str "a")) (Some embedded_with_locator)
                           (FloatAttr 0%float) (FloatAttr 48000%float) None None))
                  (FloatAttr 0%float) (FloatAttr 48000%float)])].

(** A graph container whose only source has a locator with an empty path. *)
Definition empty_locator : Node :=
  mkNode (Some (str "e")) (Some (str "urn:mob:5")) (str "5") None
    (Some (mkDescriptor None (Some (mkLocator (Some []) None)) false
             (str "<class 'aaf2.essence.PCMDescriptor'>")))
    false None None.

Definition one_empty_locator : Aaf2 :=
  mkAaf2 true (fun _ => inr (mkAafContent [segment_of empty_locator] []))
    (fun _ _ => ([], 0%float)).

(** A graph container on which the walk makes no clip: the mobs [A] and [B]
    refer to two sources of the same id; the first has slots and nothing
    else, so the walk records its id and makes no clip, and then skips the
    second, whose locator holds the path [/a/../b//c.wav]. The fallback pass
    makes a clip of [A] and a clip of [B]. *)
Definition bare_source : Node :=
  mkNode (Some (str "s")) (Some (str "urn:mob:7")) (str "6") None None false (Some []) None.

Definition located_source : Node :=
  mkNode (Some (str "s")) (Some (str "urn:mob:7")) (str "7") None
    (Some (mkDescriptor None (Some (mkLocator (Some (str "/a/../b//c.wav")) None)) false
             (str "<class 'aaf2.essence.PCMDescriptor'>")))
    false None None.

Definition mob_referring_to (mob_name mob_id : string) (source_mob : Node) : Node :=
  mkNode (Some (str mob_name)) (Some (str mob_id)) (str "8") None None false
    (Some [mkSlot None (Some (segment_of source_mob))]) None.

Definition walk_finds_nothing : Aaf2 :=
  mkAaf2 true
    (fun _ => inr (mkAafContent []
                     [mob_referring_to "A" "urn:mob:8" bare_source;
                      mob_referring_to "B" "urn:mob:9" located_source]))
    (fun _ _ => ([], 0%float)).

Definition no_toplevel (file_path : pystr) : result (list Composition) := inr [].

(* ================================================================== *)
(** * Properties *)

Unset Implicit Arguments.

(** ** The path functions on examples *)

Example normpath_ex1 :
  posixpath.normpath (str "/proj//media/../media/./a.wav") = str "/proj/media/a.wav".
Proof. reflexivity. Qed.
Example normpath_ex2 : posixpath.normpath (str "../../a/b/..") = str "../../a".
Proof. reflexivity. Qed.
Example normpath_ex3 : posixpath.normpath (str "//a/../..") = str "//".
Proof. reflexivity. Qed.
Example splitext_ex1 : posixpath.splitext (str "/x/.hidden") = (str "/x/.hidden", []).
Proof. reflexivity. Qed.
Example splitext_ex2 :
  posixpath.splitext (str "VO_Line_04.WAV") = (str "VO_Line_04", str ".WAV").
Proof. reflexivity. Qed.
Example splitext_ex3 : posixpath.splitext (str "a.b/c") = (str "a.b/c", []).
Proof. reflexivity. Qed.
Example dirname_ex1 : posixpath.dirname (str "/proj/show.aaf") = str "/proj".
Proof. reflexivity. Qed.
Example dirname_ex2 : posixpath.dirname (str "/show.aaf") = str "/".
Proof. reflexivity. Qed.
Example basename_ex1 : posixpath.basename (str "/proj/media/a.wav") = str "a.wav".
Proof. reflexivity. Qed.
Example join_ex1 :
  posixpath.join (str "/proj") (str "media/a.wav") = str "/proj/media/a.wav".
Proof. reflexivity. Qed.
Example str_of_int_ex : str_of_int 1000 = str "1000".
Proof. reflexivity. Qed.

(* ================================================================== *)
(** ** Validation: counts of the report *)

Lemma MediaClip_new_fresh n i e p : fresh (MediaClip_new n i e p).
Proof. reflexivity. Qed.

Section ValidateFacts.
Variable fs : FileSystem.

Lemma validate_clip_cases clip :
  (validate_clip fs clip = (clip, false))
  \/ (exists msg, validate_clip fs clip = (mark_invalid clip msg, true)
                  /\ is_embedded clip = false).
Proof.
  unfold validate_clip, validate_embedded_media.
  destruct (is_embedded clip) eqn:E; simpl; [now left|].
  destruct (external_path clip) as [p|].
  - destruct (truthy_str p); simpl; [|right; eauto].
    destruct (fs_exists fs p); simpl; [|right; eauto].
    destruct (fs_isfile fs p); simpl; [now left|right; eauto].
  - right; eauto.
Qed.

Lemma validate_clips_cons clip rest :
  validate_clips fs (clip :: rest) =
  (fst (validate_clip fs clip) :: fst (validate_clips fs rest),
   if snd (validate_clip fs clip)
   then fst (validate_clip fs clip) :: snd (validate_clips fs rest)
   else snd (validate_clips fs rest)).
Proof.
  simpl. destruct (validate_clip fs clip), (validate_clips fs rest). reflexivity.
Qed.

Lemma validate_clips_length l : length (fst (validate_clips fs l)) = length l.
Proof.
  induction l as [|c r IH]; [reflexivity|].
  rewrite validate_clips_cons. simpl. now rewrite IH.
Qed.

Lemma validate_clip_embedded clip :
  is_embedded (fst (validate_clip fs clip)) = is_embedded clip.
Proof.
  destruct (validate_clip_cases clip) as [H|[msg [H _]]]; rewrite H; reflexivity.
Qed.

Lemma count_split (f : MediaClip -> bool) l :
  (count_clips f l + count_clips (fun c => negb (f c)) l = Z.of_nat (length l))%Z.
Proof.
  unfold count_clips. induction l as [|c r IH]; [reflexivity|].
  simpl. destruct (f c); simpl length; lia.
Qed.

Lemma valid_plus_missing l :
  Forall fresh l ->
  (count_clips is_valid (fst (validate_clips fs l))
   + Z.of_nat (length (snd (validate_clips fs l))) = Z.of_nat (length l))%Z.
Proof.
  unfold count_clips. induction 1 as [|c r Hc Hr IH]; [reflexivity|].
  rewrite validate_clips_cons.
  destruct (validate_clip_cases c) as [H|[msg [H _]]]; rewrite H; simpl fst; simpl snd;
    cbn [filter]; [rewrite Hc|]; simpl is_valid; simpl length; lia.
Qed.

(** What the validation leaves of an embedded clip, and where the clips of
    [missing_clips] come from. *)
Lemma validate_clips_nth l i clip :
  nth_error l i = Some clip ->
  nth_error (fst (validate_clips fs l)) i = Some (fst (validate_clip fs clip)).
Proof.
  revert i. induction l as [|c r IH]; intros [|i] H; try discriminate;
    rewrite validate_clips_cons; simpl in *.
  - now inversion H.
  - now apply IH.
Qed.

Lemma missing_not_embedded l clip :
  In clip (snd (validate_clips fs l)) -> is_embedded clip = false /\ is_valid clip = false.
Proof.
  induction l as [|c r IH]; [intros []|].
  rewrite validate_clips_cons. simpl snd.
  destruct (validate_clip_cases c) as [H|[msg [H E]]]; rewrite H; simpl; auto.
  intros [<-|]; auto.
Qed.

End ValidateFacts.

(* ================================================================== *)
(** ** The aggressive fallback *)

Section AggressiveFacts.
Variable fs : FileSystem.
Variable rt : Runtime.

Lemma aggressive_encodings_long potential_path encs path_str :
  aggressive_encodings rt potential_path encs = Some path_str -> (4 < len path_str)%Z.
Proof.
  induction encs as [|e r IH]; simpl; [discriminate|].
  destruct (rt_decode rt e potential_path) as [d|]; auto.
  destruct (4 <? len (strip (rt_unicode rt) d))%Z eqn:L; simpl; auto.
  destruct (_ || _); auto.
  intros H; inversion H; subst. now apply Z.ltb_lt.
Qed.

Lemma aggressive_match_inv base_dir m s :
  agg_inv base_dir s -> (a_clip_counter s <= max_clips)%Z ->
  agg_inv base_dir (snd (aggressive_match rt base_dir m s)).
Proof.
  intros (Hm & Hc & Hl) Hle. unfold aggressive_match.
  destruct (aggressive_encodings rt _ _) as [path_str|] eqn:E; simpl.
  - unfold agg_inv, modify; cbn [snd a_clips a_clip_counter].
    rewrite length_app; cbn [length]. repeat split.
    + apply Forall_app; split; auto. constructor; [|constructor].
      exists path_str, (a_clip_counter s). split; auto.
      eapply aggressive_encodings_long; eauto.
    + lia.
    + lia.
  - repeat split; auto.
Qed.

Lemma aggressive_loop_inv base_dir matches pending s :
  agg_inv base_dir s -> agg_inv base_dir (snd (aggressive_loop rt base_dir matches pending s)).
Proof.
  revert s. induction matches as [|m r IH]; intros s H; simpl.
  - destruct pending; exact H.
  - unfold bind, get. simpl.
    destruct (max_clips <? a_clip_counter s)%Z eqn:L; [exact H|].
    apply Z.ltb_ge in L.
    unfold try_pass.
    pose proof (aggressive_match_inv base_dir m s H L) as H'.
    destruct (aggressive_match rt base_dir m s) as [x s1]. simpl in *.
    now apply IH.
Qed.

Lemma aggressive_parse_inv file_handle base_dir omf_file_path :
  let clips := fst (_aggressive_omf_parse rt file_handle base_dir omf_file_path) in
  Forall (made_by_fallback base_dir) clips /\ (Z.of_nat (length clips) <= max_clips)%Z.
Proof.
  unfold _aggressive_omf_parse, try_pass, aggressive_body, bind, modify. simpl.
  pose proof (aggressive_loop_inv base_dir
                (fst (rt_finditer rt RxAudioRef (fh_read file_handle (read_request file_handle))))
                (snd (rt_finditer rt RxAudioRef (fh_read file_handle (read_request file_handle))))
                (mkAggState [] 1 [EvRead (read_request file_handle); EvFinditer RxAudioRef])) as H.
  destruct (aggressive_loop rt base_dir _ _ _) as [x s'].
  simpl in *. destruct H as (H1 & H2 & H3).
  - repeat split; simpl; [constructor|unfold max_clips; lia].
  - split; assumption.
Qed.

End AggressiveFacts.

(* ================================================================== *)
(** ** posixpath: normal forms and absolute paths *)

Lemma char_eqb_eq a b : char_eqb a b = true <-> a = b.
Proof. apply N.eqb_eq. Qed.

Lemma pystr_eqb_eq a b : pystr_eqb a b = true <-> a = b.
Proof.
  revert b. induction a as [|x a IH]; intros [|y b]; simpl; split; try easy.
  - intros H. apply andb_true_iff in H as [H1 H2].
    apply char_eqb_eq in H1. apply IH in H2. now subst.
  - intros H. inversion H; subst. apply andb_true_iff. split.
    + now apply char_eqb_eq.
    + now apply IH.
Qed.

Lemma pystr_eqb_refl a : pystr_eqb a a = true.
Proof. now apply pystr_eqb_eq. Qed.

Lemma pystr_eqb_neq a b : pystr_eqb a b = false <-> a <> b.
Proof.
  split.
  - intros H E. apply pystr_eqb_eq in E. congruence.
  - intros H. destruct (pystr_eqb a b) eqn:E; [|reflexivity].
    apply pystr_eqb_eq in E. contradiction.
Qed.

Module posixpath_facts.
Import posixpath.

(** A string that does not hold the separator is one component. *)
Lemma split_one c s : ~ In c s -> split c s = [s].
Proof.
  induction s as [|x s IH]; simpl; intros H; [reflexivity|].
  destruct (char_eqb x c) eqn:E.
  - apply char_eqb_eq in E. subst. exfalso. apply H. now left.
  - rewrite IH; [reflexivity|]. intros Hin. apply H. now right.
Qed.

Lemma split_app_sep c s rest : ~ In c s -> split c (s ++ c :: rest) = s :: split c rest.
Proof.
  induction s as [|x s IH]; simpl; intros H.
  - now rewrite (proj2 (char_eqb_eq c c) eq_refl).
  - destruct (char_eqb x c) eqn:E.
    + apply char_eqb_eq in E. subst. exfalso. apply H. now left.
    + rewrite IH; [reflexivity|]. intros Hin. apply H. now right.
Qed.

Lemma split_not_nil c s : split c s <> [].
Proof.
  destruct s as [|x s]; simpl; [discriminate|].
  destruct (char_eqb x c); [discriminate|].
  destruct (split c s); discriminate.
Qed.

(** The components of a split do not hold the separator. *)
Lemma split_no_sep c s : Forall (fun comp => ~ In c comp) (split c s).
Proof.
  induction s as [|x s IH]; simpl.
  - constructor; [intros []|constructor].
  - destruct (char_eqb x c) eqn:E.
    + constructor; [intros []|exact IH].
    + destruct (split c s) as [|h t] eqn:S.
      * constructor; [|constructor]. intros [->|[]].
        rewrite (proj2 (char_eqb_eq c c) eq_refl) in E. discriminate.
      * inversion IH; subst. constructor; [|assumption].
        intros [->|Hin]; [|contradiction].
        rewrite (proj2 (char_eqb_eq c c) eq_refl) in E. discriminate.
Qed.

Lemma split_join_with c comps :
  comps <> [] -> Forall (fun comp => ~ In c comp) comps ->
  split c (join_with c comps) = comps.
Proof.
  induction comps as [|x r IH]; [congruence|]. intros _ H.
  inversion H as [|? ? Hx Hr]; subst.
  destruct r as [|y r'].
  - simpl. now apply split_one.
  - change (join_with c (x :: y :: r')) with (x ++ c :: join_with c (y :: r')).
    rewrite split_app_sep by assumption. f_equal. apply IH; [discriminate|assumption].
Qed.

Lemma norm_step_normal initial st comp :
  ~ In sep comp -> normal_stack initial st -> normal_stack initial (norm_step initial st comp).
Proof.
  intros Hsep Hst. unfold norm_step.
  destruct (pystr_eqb comp []) eqn:E1; simpl; [exact Hst|].
  destruct (pystr_eqb comp dot) eqn:E2; simpl; [exact Hst|].
  apply pystr_eqb_neq in E1, E2.
  destruct (pystr_eqb comp dotdot) eqn:E3; simpl.
  - apply pystr_eqb_eq in E3. subst comp.
    destruct st as [|top rest]; simpl.
    + destruct initial; simpl; [|exact I].
      repeat split; auto.
    + rewrite andb_false_r. simpl.
      destruct (pystr_eqb top dotdot) eqn:E4.
      * apply pystr_eqb_eq in E4. subst top.
        split; [auto|]. split; [auto|]. split; [auto|].
        split; [intros _; right; eauto|exact Hst].
      * simpl in Hst. tauto.
  - apply pystr_eqb_neq in E3. simpl. repeat split; auto. intros; contradiction.
Qed.

Lemma fold_norm_step_normal initial comps st :
  Forall (fun comp => ~ In sep comp) comps -> normal_stack initial st ->
  normal_stack initial (fold_left (norm_step initial) comps st).
Proof.
  revert st. induction comps as [|c r IH]; intros st H Hst; simpl; [exact Hst|].
  inversion H; subst. apply IH; [assumption|]. now apply norm_step_normal.
Qed.

(** On a stack in normal form the loop is the identity. *)
Lemma refold_normal initial st :
  normal_stack initial st -> fold_left (norm_step initial) (rev st) [] = st.
Proof.
  induction st as [|comp rest IH]; [reflexivity|].
  intros (H1 & H2 & H3 & H4 & H5). simpl rev. rewrite fold_left_app. simpl.
  rewrite IH by assumption. unfold norm_step.
  rewrite (proj2 (pystr_eqb_neq comp []) H1), (proj2 (pystr_eqb_neq comp dot) H2). simpl.
  destruct (pystr_eqb comp dotdot) eqn:E; simpl; [|reflexivity].
  apply pystr_eqb_eq in E. destruct (H4 E) as [[-> ->]|[r ->]]; simpl; [reflexivity|].
  now rewrite orb_true_r.
Qed.

Lemma fold_skip_empty initial k comps st :
  fold_left (norm_step initial) (repeat [] k ++ comps) st
  = fold_left (norm_step initial) comps st.
Proof. induction k as [|k IH]; simpl; auto. Qed.

Lemma normal_stack_no_sep initial st :
  normal_stack initial st -> Forall (fun comp => ~ In sep comp) st.
Proof.
  induction st as [|c r IH]; simpl; [constructor|].
  intros (_ & _ & H & _ & Hr). constructor; auto.
Qed.

Lemma split_slashes k s : split sep (repeat sep k ++ s) = repeat [] k ++ split sep s.
Proof.
  induction k as [|k IH]; [reflexivity|].
  change (repeat sep (S k) ++ s) with (sep :: (repeat sep k ++ s)).
  change (split sep (sep :: (repeat sep k ++ s))) with ([] :: split sep (repeat sep k ++ s)).
  now rewrite IH.
Qed.

Lemma initial_slashes_le path : initial_slashes path <= 2.
Proof.
  unfold initial_slashes. destruct (startswith path [sep]); [|lia].
  destruct (_ && _); lia.
Qed.

(** The first character of the joined components of a stack in normal form
    is not the separator. *)
Lemma join_normal_head initial st :
  normal_stack initial st ->
  match join_with sep (rev st) with
  | [] => st = []
  | x :: _ => x <> sep
  end.
Proof.
  intros H.
  assert (Hall : Forall (fun comp => comp <> [] /\ ~ In sep comp) (rev st)).
  { apply Forall_rev. induction st as [|c r IH]; simpl in *; [constructor|].
    destruct H as (H1 & _ & H3 & _ & H5). constructor; auto. }
  destruct (rev st) as [|c r] eqn:R.
  - simpl. apply (f_equal (@rev pystr)) in R. now rewrite rev_involutive in R.
  - inversion Hall as [|? ? [Hc Hs] _]; subst.
    destruct c as [|x c]; [congruence|].
    assert (Hx : x <> sep) by (intros ->; apply Hs; now left).
    destruct r; simpl; exact Hx.
Qed.

Lemma initial_slashes_rebuilt k tail :
  k <= 2 -> match tail with [] => True | x :: _ => x <> sep end ->
  (k = 0 -> tail <> []) ->
  initial_slashes (repeat sep k ++ tail) = k.
Proof.
  intros Hk Ht H0. unfold initial_slashes.
  assert (Hs : char_eqb sep sep = true) by reflexivity.
  destruct k as [|[|[|k]]]; try lia; simpl.
  - destruct tail as [|x t]; [now specialize (H0 eq_refl)|].
    simpl. destruct (char_eqb x sep) eqn:E; [|reflexivity].
    apply char_eqb_eq in E. contradiction.
  - destruct tail as [|x t]; [reflexivity|]. simpl.
    destruct (char_eqb x sep) eqn:E; [|reflexivity].
    apply char_eqb_eq in E. contradiction.
  - destruct tail as [|x t]; [reflexivity|]. simpl.
    destruct (char_eqb x sep) eqn:E; [|reflexivity].
    apply char_eqb_eq in E. contradiction.
Qed.

Lemma normpath_nonempty path :
  path <> [] ->
  normpath path =
  let out :=
    repeat sep (initial_slashes path)
    ++ join_with sep (rev (fold_left (norm_step (initial_slashes path)) (split sep path) [])) in
  match out with
  | [] => dot
  | _ :: _ => out
  end.
Proof. destruct path; [congruence|reflexivity]. Qed.

(** [normpath] is idempotent: its result is a normalized path. *)
Lemma normpath_idempotent path : normpath (normpath path) = normpath path.
Proof.
  destruct path as [|c path]; [reflexivity|].
  rewrite (normpath_nonempty (c :: path)) by discriminate. cbv zeta.
  set (p := c :: path).
  set (initial := initial_slashes p).
  set (st := fold_left (norm_step initial) (split sep p) []).
  assert (Hst : normal_stack initial st).
  { apply fold_norm_step_normal; [apply split_no_sep|exact I]. }
  pose proof (join_normal_head initial st Hst) as Hhead.
  pose proof (initial_slashes_le p) as Hle. fold initial in Hle.
  destruct (repeat sep initial ++ join_with sep (rev st)) as [|x out] eqn:Eout;
    [reflexivity|].
  rewrite <- Eout.
  assert (Hinit : initial_slashes (repeat sep initial ++ join_with sep (rev st)) = initial).
  { apply initial_slashes_rebuilt; [exact Hle| |].
    - destruct (join_with sep (rev st)); [exact I|exact Hhead].
    - intros H0 Hj. rewrite H0, Hj in Eout. discriminate. }
  rewrite normpath_nonempty by (rewrite Eout; discriminate). cbv zeta.
  rewrite Hinit, split_slashes, fold_skip_empty.
  assert (Hfold : fold_left (norm_step initial) (split sep (join_with sep (rev st))) [] = st).
  { destruct (rev st) as [|c1 r1] eqn:R.
    - apply (f_equal (@rev pystr)) in R. rewrite rev_involutive in R. simpl in R.
      rewrite R. reflexivity.
    - rewrite split_join_with.
      + rewrite <- R. now apply refold_normal.
      + discriminate.
      + rewrite <- R. apply Forall_rev. eapply normal_stack_no_sep; eauto. }
  rewrite Hfold. rewrite Eout. reflexivity.
Qed.

(** *** Absolute paths *)

Lemma isabs_cons p : isabs p = true <-> exists rest, p = sep :: rest.
Proof.
  unfold isabs. destruct p as [|x p]; cbn [startswith].
  - split; [discriminate|intros [r H]; discriminate].
  - rewrite andb_true_r. split.
    + intros H. apply char_eqb_eq in H. subst. eauto.
    + intros [r H]. inversion H. reflexivity.
Qed.

Lemma normpath_isabs p : isabs (normpath p) = isabs p.
Proof.
  destruct p as [|c p]; [reflexivity|].
  rewrite normpath_nonempty by discriminate. cbv zeta.
  set (q := c :: p).
  set (st := fold_left (norm_step (initial_slashes q)) (split sep q) []).
  assert (Hst : normal_stack (initial_slashes q) st).
  { apply fold_norm_step_normal; [apply split_no_sep|exact I]. }
  pose proof (join_normal_head _ _ Hst) as Hhead.
  unfold initial_slashes in *. unfold isabs at 2.
  destruct (startswith q [sep]) eqn:E.
  - destruct (_ && _); reflexivity.
  - simpl. destruct (join_with sep (rev st)) as [|x out]; [reflexivity|].
    unfold isabs. simpl. rewrite andb_true_r.
    destruct (char_eqb x sep) eqn:Ex; [|reflexivity].
    apply char_eqb_eq in Ex. contradiction.
Qed.

Lemma join_isabs a b : isabs a = true -> isabs (join a b) = true.
Proof.
  intros Ha. unfold join. destruct (startswith b [sep]) eqn:Eb; [exact Eb|].
  apply isabs_cons in Ha as [r ->].
  destruct (_ || _); reflexivity.
Qed.

Lemma join_relative a b : isabs b = true -> join a b = b.
Proof. unfold join, isabs. now intros ->. Qed.

Lemma join_not_nil a b : b <> [] -> join a b <> [].
Proof.
  intros Hb. unfold join. destruct (startswith b [sep]); [exact Hb|].
  destruct (_ || _); intros H; apply app_eq_nil in H as [_ H]; [contradiction|discriminate].
Qed.

Lemma rfind_from_ge c s idx last :
  (last <= idx)%Z -> (last <= rfind_from c s idx last)%Z.
Proof.
  revert idx last. induction s as [|x s IH]; intros idx last H; simpl; [lia|].
  destruct (char_eqb x c).
  - specialize (IH (idx + 1)%Z idx). lia.
  - specialize (IH (idx + 1)%Z last). lia.
Qed.

Lemma lstrip_by_app f a b :
  lstrip_by f (a ++ b) =
  match lstrip_by f a with
  | [] => lstrip_by f b
  | x :: r => (x :: r) ++ b
  end.
Proof.
  induction a as [|x a IH]; [reflexivity|].
  simpl. destruct (f x); [exact IH|reflexivity].
Qed.

Lemma lstrip_by_nil f a : lstrip_by f a = [] -> forallb f a = true.
Proof.
  induction a as [|x a IH]; [reflexivity|].
  simpl. destruct (f x); [exact IH|discriminate].
Qed.

Lemma rstrip_by_cons f x l :
  rstrip_by f l <> [] -> rstrip_by f (x :: l) = x :: rstrip_by f l.
Proof.
  unfold rstrip_by. simpl rev. rewrite lstrip_by_app.
  destruct (lstrip_by f (rev l)) as [|y r]; [intros H; now contradiction H|].
  intros _. now rewrite rev_app_distr.
Qed.

Lemma rstrip_by_nil f l : rstrip_by f l = [] -> forallb f l = true.
Proof.
  unfold rstrip_by. intros H.
  apply (f_equal (@rev char)) in H. rewrite rev_involutive in H. simpl in H.
  apply lstrip_by_nil in H. rewrite forallb_forall in *.
  intros y Hy. apply H. now apply in_rev in Hy.
Qed.

Lemma all_sep_repeat l : forallb (char_eqb sep) l = true -> l = repeat sep (length l).
Proof.
  induction l as [|x l IH]; [reflexivity|]. cbn [forallb length repeat].
  intros H. apply andb_true_iff in H as [H1 H2].
  apply char_eqb_eq in H1. subst. f_equal. now apply IH.
Qed.

Lemma dirname_isabs p : isabs p = true -> isabs (dirname p) = true.
Proof.
  intros H. apply isabs_cons in H as [rest ->].
  unfold dirname, slice_to.
  assert (Hi : (1 <= rfind sep (sep :: rest) + 1)%Z).
  { unfold rfind. simpl. pose proof (rfind_from_ge sep rest 1 0). lia. }
  destruct (Z.to_nat (rfind sep (sep :: rest) + 1)) as [|k] eqn:Ek; [lia|].
  simpl firstn. set (h := firstn k rest).
  destruct (truthy_str (sep :: h) && negb (pystr_eqb (sep :: h) (repeat sep (length (sep :: h)))))
    eqn:E; [|reflexivity].
  apply andb_true_iff in E as [_ E]. apply negb_true_iff, pystr_eqb_neq in E.
  rewrite rstrip_by_cons; [reflexivity|].
  intros Hn. apply rstrip_by_nil, all_sep_repeat in Hn.
  apply E. simpl. now f_equal.
Qed.

Lemma abspath_isabs cwd p : isabs cwd = true -> isabs (abspath cwd p) = true.
Proof.
  intros H. unfold abspath. rewrite normpath_isabs.
  destruct (isabs p) eqn:E; [exact E|]. now apply join_isabs.
Qed.

Lemma abspath_normalized cwd p : normpath (abspath cwd p) = abspath cwd p.
Proof. apply normpath_idempotent. Qed.

End posixpath_facts.

(* ================================================================== *)
(** ** The path filter *)

Lemma ratio_tests_binary64 : ratio_tests_agree_upto 400 = true.
Proof. vm_compute. reflexivity. Qed.

Lemma ratio_tests_agree_upto_spec (bound n count : nat) :
  ratio_tests_agree_upto bound = true ->
  count <= n -> n <= bound ->
  ratio64 true (Z.of_nat count) (Z.of_nat n) f0_7
  = lt_ratio (Z.of_nat count) (Z.of_nat n) 7 10
  /\ ratio64 false (Z.of_nat count) (Z.of_nat n) f0_1
     = gt_ratio (Z.of_nat count) (Z.of_nat n) 1 10
  /\ ratio64 true (Z.of_nat count) (Z.of_nat n) f0_6
     = lt_ratio (Z.of_nat count) (Z.of_nat n) 6 10.
Proof.
  intros H Hc Hn. unfold ratio_tests_agree_upto in H.
  rewrite forallb_forall in H.
  assert (Hin : In n (seq 0 (S bound))) by (apply in_seq; lia).
  specialize (H n Hin). rewrite forallb_forall in H.
  assert (Hic : In count (seq 0 (S n))) by (apply in_seq; lia).
  specialize (H count Hic). cbv zeta in H.
  apply andb_true_iff in H as [H H3]. apply andb_true_iff in H as [H1 H2].
  apply Bool.eqb_prop in H1. apply Bool.eqb_prop in H2. apply Bool.eqb_prop in H3.
  exact (conj H1 (conj H2 H3)).
Qed.

Lemma ratio_tests_agree (n count : nat) :
  count <= n -> n <= 400 ->
  ratio64 true (Z.of_nat count) (Z.of_nat n) f0_7
  = lt_ratio (Z.of_nat count) (Z.of_nat n) 7 10
  /\ ratio64 false (Z.of_nat count) (Z.of_nat n) f0_1
     = gt_ratio (Z.of_nat count) (Z.of_nat n) 1 10
  /\ ratio64 true (Z.of_nat count) (Z.of_nat n) f0_6
     = lt_ratio (Z.of_nat count) (Z.of_nat n) 6 10.
Proof. exact (ratio_tests_agree_upto_spec 400 n count ratio_tests_binary64). Qed.

(** The filter as the source computes it and the filter on the integers
    agree on every string of at most 400 characters. *)
Lemma filter_binary64_agrees (udb : UnicodeDB) (s : pystr) :
  length s <= 400 -> _is_valid_path_string_binary64 udb s = _is_valid_path_string udb s.
Proof.
  intros Hlen. unfold _is_valid_path_string_binary64, _is_valid_path_string, path_string_filter.
  unfold count_if, len.
  assert (Hf : forall f (l : pystr), length (filter f l) <= length l)
    by (intros; apply filter_length_le).
  assert (Hb : length (posixpath.basename s) <= length s).
  { unfold posixpath.basename, slice_from. rewrite length_skipn. lia. }
  destruct (ratio_tests_agree (length s)
              (length (filter (fun c => isprintable udb c || in_nl_cr_tab c) s))
              (Hf _ _) Hlen) as (-> & _ & _).
  destruct (ratio_tests_agree (length s)
              (length (filter (fun c : char => (c <? 32)%N && negb (in_nl_cr_tab c)) s))
              (Hf _ _) Hlen) as (_ & -> & _).
  destruct (ratio_tests_agree (length (posixpath.basename s))
              (length (filter (fun c => isalnum udb c || in_filename_punct c)
                         (posixpath.basename s)))
              (Hf _ _) (Nat.le_trans _ _ _ Hb Hlen)) as (_ & _ & ->).
  reflexivity.
Qed.

Section PathFilterFacts.
Variable udb : UnicodeDB.

Lemma count_if_le f s : (0 <= count_if f s <= len s)%Z.
Proof.
  unfold count_if, len. pose proof (filter_length_le f s). lia.
Qed.

Lemma count_if_app f a b : count_if f (a ++ b) = (count_if f a + count_if f b)%Z.
Proof. unfold count_if. rewrite filter_app, length_app. lia. Qed.

(** Counting with two predicates that never hold together. *)
Lemma count_if_disjoint f g s :
  (forall c, In c s -> f c = true -> g c = false) ->
  (count_if f s + count_if g s <= len s)%Z.
Proof.
  unfold count_if, len. induction s as [|x s IH]; intros H; [simpl; lia|].
  assert (Hs : forall c, In c s -> f c = true -> g c = false)
    by (intros c Hc; apply H; now right).
  specialize (IH Hs). simpl.
  destruct (f x) eqn:Ef.
  - rewrite (H x (or_introl eq_refl) Ef). simpl length. lia.
  - destruct (g x); simpl length; lia.
Qed.

Lemma filter_rejects_short s : (len s < 4)%Z -> _is_valid_path_string udb s = false.
Proof.
  intros H. unfold _is_valid_path_string, path_string_filter.
  apply Z.ltb_lt in H. rewrite H. now rewrite orb_true_r.
Qed.

Lemma filter_rejects_unprintable s :
  (10 * printable_count udb s < 7 * len s)%Z -> _is_valid_path_string udb s = false.
Proof.
  intros H. unfold _is_valid_path_string, path_string_filter.
  destruct (negb (truthy_str s) || (len s <? 4)%Z); [reflexivity|].
  fold (printable_count udb s). unfold lt_ratio.
  replace (printable_count udb s * 10 <? len s * 7)%Z with true; [reflexivity|].
  symmetry. apply Z.ltb_lt. lia.
Qed.

Lemma filter_rejects_control s :
  (len s < 10 * control_count s)%Z -> _is_valid_path_string udb s = false.
Proof.
  intros H. unfold _is_valid_path_string, path_string_filter.
  destruct (negb (truthy_str s) || (len s <? 4)%Z); [reflexivity|].
  destruct (lt_ratio _ _ _ _); [reflexivity|].
  fold (control_count s). unfold gt_ratio.
  replace (len s * 1 <? control_count s * 10)%Z with true; [reflexivity|].
  symmetry. apply Z.ltb_lt. lia.
Qed.

Lemma filter_accepts_take1 : _is_valid_path_string udb (str "C:\Audio\Take1.wav") = true.
Proof. reflexivity. Qed.

(** A string without [/] is its own base name. *)
Lemma rfind_from_absent c s idx last :
  ~ In c s -> rfind_from c s idx last = last.
Proof.
  revert idx last. induction s as [|x s IH]; intros idx last H; [reflexivity|].
  simpl. destruct (char_eqb x c) eqn:E.
  - apply char_eqb_eq in E. subst. exfalso. apply H. now left.
  - apply IH. intros Hin. apply H. now right.
Qed.

Lemma basename_no_sep s : ~ In posixpath.sep s -> posixpath.basename s = s.
Proof.
  intros H. unfold posixpath.basename, rfind. now rewrite rfind_from_absent.
Qed.

Lemma filter_rejects_nonprintable s :
  length s = 200 -> (forall c, In c s -> isprintable udb c = false) ->
  _is_valid_path_string udb s = false.
Proof.
  intros Hlen Hnp. unfold _is_valid_path_string, path_string_filter.
  assert (Hl : len s = 200%Z) by (unfold len; rewrite Hlen; reflexivity).
  destruct (negb (truthy_str s) || (len s <? 4)%Z); [reflexivity|].
  destruct (lt_ratio _ _ _ _) eqn:E1; [reflexivity|].
  destruct (gt_ratio _ _ _ _); [reflexivity|].
  assert (Hsep : ~ In posixpath.sep s).
  { intros Hin. apply Hnp in Hin. discriminate. }
  rewrite basename_no_sep by assumption.
  replace (lt_ratio _ (len s) 6 10) with true; [reflexivity|].
  symmetry. unfold lt_ratio in *. apply Z.ltb_lt. apply Z.ltb_ge in E1.
  pose proof (count_if_disjoint
                (fun c => isprintable udb c || in_nl_cr_tab c)
                (fun c => isalnum udb c || in_filename_punct c) s) as Hd.
  rewrite Hl in *.
  enough ((count_if (fun c => isprintable udb c || in_nl_cr_tab c) s
           + count_if (fun c => isalnum udb c || in_filename_punct c) s <= 200)%Z) by lia.
  apply Hd. intros c Hc Hp.
  rewrite (Hnp c Hc) in Hp. simpl in Hp.
  unfold in_nl_cr_tab in Hp.
  assert (Hc3 : c = 10%N \/ c = 13%N \/ c = 9%N).
  { apply orb_true_iff in Hp as [Hp|Hp]; [apply orb_true_iff in Hp as [Hp|Hp]|];
      apply N.eqb_eq in Hp; auto. }
  destruct Hc3 as [->|[->| ->]]; reflexivity.
Qed.

End PathFilterFacts.

(** C7. The path filter [_is_valid_path_string] returns [False] for every
    string shorter than 4 characters, for every string with fewer than 70%
    printable characters (newline, carriage return and tab counted as
    printable) and for every string whose control characters (code point
    below 32, those three apart) are more than 10% of its length; it accepts
    ["C:\Audio\Take1.wav"] and rejects every string of 200 non-printable
    characters. *)
Theorem is_valid_path_string_filter (udb : UnicodeDB) :
  (forall s, (len s < 4)%Z -> _is_valid_path_string udb s = false)
  /\ (forall s, (10 * printable_count udb s < 7 * len s)%Z ->
                _is_valid_path_string udb s = false)
  /\ (forall s, (len s < 10 * control_count s)%Z -> _is_valid_path_string udb s = false)
  /\ _is_valid_path_string udb (str "C:\Audio\Take1.wav") = true
  /\ (forall s, length s = 200 -> (forall c, In c s -> isprintable udb c = false) ->
                _is_valid_path_string udb s = false).
Proof.
  repeat split.
  - apply filter_rejects_short.
  - apply filter_rejects_unprintable.
  - apply filter_rejects_control.
  - apply filter_rejects_nonprintable.
Qed.

(* ================================================================== *)
(** ** What the extractors put in a clip *)

(** The graph walk: a property of every clip [walker_clip] makes holds of
    every clip the walk appends. *)
Section WalkerFacts.
Variable fs : FileSystem.
Variable udb : UnicodeDB.
Variable aaf_file_path : pystr.
Variable P : MediaClip -> Prop.
Hypothesis P_walker_clip :
  forall segment source_mob n clip,
    walker_clip fs udb segment source_mob aaf_file_path n = Some clip -> P clip.

Lemma walker_source_Forall segment st st' :
  walker_source fs udb segment aaf_file_path st = Some st' ->
  Forall P (w_clips st) -> Forall P (w_clips st').
Proof.
  unfold walker_source. destruct (n_mob segment) as [source_mob|].
  - destruct (str_in _ _); [discriminate|].
    destruct (walker_clip _ _ _ _ _ _) as [clip|] eqn:E; intros H; inversion H; subst; simpl.
    + intros Hst. apply Forall_app. split; [assumption|].
      constructor; [|constructor]. eapply P_walker_clip; eauto.
    + auto.
  - intros H; inversion H; subst; auto.
Qed.

Lemma walker_Forall segment :
  forall st, Forall P (w_clips st) ->
             Forall P (w_clips (_extract_clips_from_segment fs udb segment aaf_file_path st)).
Proof.
  revert segment. fix IH 1. intros segment st Hst.
  destruct segment as [nm mid pyid mob desc ess slots comps].
  cbn [_extract_clips_from_segment].
  destruct (walker_source fs udb _ aaf_file_path st) as [st1|] eqn:E; [|exact Hst].
  apply walker_source_Forall in E; [|exact Hst]. clear Hst.
  assert (Hslots :
    forall (l : list (SlotOf Node)) s, Forall P (w_clips s) ->
      Forall P (w_clips
        ((fix over_slots (l : list (SlotOf Node)) (st : WalkState) : WalkState :=
            match l with
            | [] => st
            | mkSlot _ (Some seg) :: r =>
                over_slots r (_extract_clips_from_segment fs udb seg aaf_file_path st)
            | mkSlot _ None :: r => over_slots r st
            end) l s))).
  { clear - IH. induction l as [|[mk [seg|]] r IHl]; intros s Hs; simpl; auto. }
  assert (Hcomps :
    forall (l : list Node) s, Forall P (w_clips s) ->
      Forall P (w_clips
        ((fix over_components (l : list Node) (st : WalkState) : WalkState :=
            match l with
            | [] => st
            | component :: r =>
                over_components r
                  (_extract_clips_from_segment fs udb component aaf_file_path st)
            end) l s))).
  { clear - IH. induction l as [|c r IHl]; intros s Hs; simpl; auto. }
  destruct slots as [slot_list|]; destruct comps as [comp_list|]; auto.
Qed.

End WalkerFacts.

Section ParserFacts.
Variable fs : FileSystem.
Variable rt : Runtime.

Lemma build_from_path_made paths0 file_path_str s :
  In file_path_str paths0 ->
  Forall (made_by_scan paths0) (b_clips s) ->
  Forall (made_by_scan paths0) (b_clips (build_from_path rt s file_path_str)).
Proof.
  intros Hin Hs. unfold build_from_path.
  destruct (truthy_str file_path_str) eqn:T; simpl; [|exact Hs].
  destruct (negb (str_in _ _)); simpl; [|exact Hs].
  destruct (_ || _); simpl; [|exact Hs].
  apply Forall_app. split; [exact Hs|].
  constructor; [|constructor]. unfold made_by_scan. eauto 8.
Qed.

Lemma fold_build_from_path_made paths0 paths s :
  incl paths paths0 ->
  Forall (made_by_scan paths0) (b_clips s) ->
  Forall (made_by_scan paths0) (b_clips (fold_left (build_from_path rt) paths s)).
Proof.
  revert s. induction paths as [|p r IH]; intros s Hi Hs; simpl; [exact Hs|].
  apply IH.
  - intros x Hx. apply Hi. now right.
  - apply build_from_path_made; [apply Hi; now left|exact Hs].
Qed.

(** Where the clips of [_parse_omf_file] come from: the structured scan, or
    the aggressive fallback when the scan gave no clip. *)
Lemma parse_omf_origin file_path clips ev :
  _parse_omf_file fs rt file_path = (inr clips, ev) ->
  exists f,
    fs_open fs file_path = inr f
    /\ let base_dir := posixpath.dirname (posixpath.abspath (fs_cwd fs) file_path) in
       (clips <> []
        /\ Forall (made_by_scan (fst (_extract_omf_file_paths fs rt f base_dir))) clips)
       \/ (clips = fst (_aggressive_omf_parse rt f base_dir file_path)
           /\ Forall (made_by_fallback base_dir) clips
           /\ (Z.of_nat (length clips) <= max_clips)%Z).
Proof.
  unfold _parse_omf_file.
  destruct (match fs_getsize fs file_path with
            | Some file_size => if (MAX_OMF_SIZE <? file_size)%Z then Some file_size else None
            | None => None
            end); [discriminate|].
  destruct (fs_open fs file_path) as [e|f]; [discriminate|].
  set (base_dir := posixpath.dirname (posixpath.abspath (fs_cwd fs) file_path)).
  unfold parse_omf_opened.
  destruct (_extract_omf_file_paths fs rt f base_dir) as [paths ev1] eqn:Ep.
  unfold _extract_omf_essence_references. cbn [fold_left].
  pose proof (fold_build_from_path_made paths paths (mkBuildState [] 1 [])
                (incl_refl _) (Forall_nil _)) as Hmade.
  destruct (b_clips (fold_left (build_from_path rt) paths (mkBuildState [] 1 []))) as [|c r] eqn:Eb.
  - pose proof (aggressive_parse_inv rt f base_dir file_path) as Hagg.
    destruct (_aggressive_omf_parse rt f base_dir file_path) as [aclips ev2] eqn:Ea.
    simpl in Hagg. destruct Hagg as [Ha Hb].
    intros H. injection H as <- _. exists f. split; [reflexivity|].
    right. fold base_dir. rewrite Ea. simpl. repeat split; auto.
  - intros H. injection H as <- _. exists f. split; [reflexivity|].
    left. split; [discriminate|]. fold base_dir. rewrite Ep. exact Hmade.
Qed.

Lemma made_by_fallback_fresh base_dir clip : made_by_fallback base_dir clip -> fresh clip.
Proof. intros (p & n & -> & _). reflexivity. Qed.

Lemma made_by_scan_fresh paths clip : made_by_scan paths clip -> fresh clip.
Proof. intros (n & i & p & -> & _). reflexivity. Qed.

Lemma parse_omf_fresh file_path clips ev :
  _parse_omf_file fs rt file_path = (inr clips, ev) -> Forall fresh clips.
Proof.
  intros H. apply parse_omf_origin in H as (f & _ & [[_ H]|(_ & H & _)]);
    eapply Forall_impl; try exact H; intros c Hc.
  - eapply made_by_scan_fresh; eauto.
  - eapply made_by_fallback_fresh; eauto.
Qed.

Variable aaf2 : Aaf2.
Let udb := rt_unicode rt.

Lemma walker_clip_fresh p segment source_mob n clip :
  walker_clip fs udb segment source_mob p n = Some clip -> fresh clip.
Proof.
  unfold walker_clip. destruct (walker_classify source_mob) as [e x].
  destruct (_ || _); [|discriminate]. intros H; inversion H. reflexivity.
Qed.

Lemma fold_left_inv {A S : Type} (I : S -> Prop) (f : S -> A -> S) (l : list A) :
  (forall s x, I s -> I (f s x)) -> forall s, I s -> I (fold_left f l s).
Proof. intros Hf. induction l as [|x r IH]; intros s Hs; simpl; auto. Qed.

Lemma fallback_mob_fresh p st mob :
  Forall fresh (w_clips st) -> Forall fresh (w_clips (fallback_mob fs p st mob)).
Proof.
  intros Hst. unfold fallback_mob.
  destruct (n_name mob), (n_mob_id mob); try exact Hst;
    (destruct (fallback_media _); [|exact Hst];
     destruct (str_in _ _); [exact Hst|];
     cbn [w_clips]; apply Forall_app; split; [exact Hst|];
     constructor; [reflexivity|constructor]).
Qed.

Lemma parse_aaf_fresh file_path clips :
  _parse_aaf_file fs udb aaf2 file_path = inr clips -> Forall fresh clips.
Proof.
  unfold _parse_aaf_file. destruct (negb (AAF_SUPPORT aaf2)); [discriminate|].
  destruct (aaf2_open aaf2 file_path) as [e|f]; [discriminate|].
  intros H. inversion H; subst; clear H.
  set (walk := fun st seg => _extract_clips_from_segment fs udb seg file_path st).
  assert (Hwalk : forall st seg, Forall fresh (w_clips st) ->
                                 Forall fresh (w_clips (walk st seg))).
  { intros st seg Hst. apply walker_Forall; [|exact Hst].
    intros s m n c Hc. eapply walker_clip_fresh; eauto. }
  assert (H1 : Forall fresh (w_clips
            (fold_left (walk_mob_slots fs udb file_path) (aaf_mobs f) (mkWalkState [] [])))).
  { apply (fold_left_inv (fun st => Forall fresh (w_clips st))); [|constructor].
    intros st mob Hst. unfold walk_mob_slots. destruct (n_slots mob) as [slots|]; [|exact Hst].
    apply (fold_left_inv (fun st => Forall fresh (w_clips st))); [|exact Hst].
    intros st' slot Hst'. destruct (s_segment slot); [|exact Hst']. now apply Hwalk. }
  assert (H2 : Forall fresh (w_clips
            (fold_left walk (aaf_toplevel f)
               (fold_left (walk_mob_slots fs udb file_path) (aaf_mobs f) (mkWalkState [] []))))).
  { apply (fold_left_inv (fun st => Forall fresh (w_clips st))); [|exact H1].
    intros st seg Hst. now apply Hwalk. }
  fold walk.
  destruct (w_clips (fold_left walk (aaf_toplevel f) _)) eqn:E.
  - apply (fold_left_inv (fun st => Forall fresh (w_clips st))).
    + intros st mob Hst. now apply fallback_mob_fresh.
    + rewrite E. constructor.
  - rewrite E. exact H2.
Qed.

End ParserFacts.

(* ================================================================== *)
(** ** The report *)

Section ReportFacts.
Variable fs : FileSystem.
Variable rt : Runtime.
Variable aaf2 : Aaf2.

Lemma build_report_counts ft p all_clips :
  Forall fresh all_clips ->
  let report := build_report fs rt aaf2 ft p all_clips in
  (embedded_clips report + linked_clips report = total_clips report)%Z
  /\ (valid_clips report + missing_clips report = total_clips report)%Z
  /\ missing_clips report = Z.of_nat (length (missing_clip_details report)).
Proof.
  intros Hf. unfold build_report.
  pose proof (valid_plus_missing fs all_clips Hf) as Hv.
  pose proof (validate_clips_length fs all_clips) as Hl.
  destruct (validate_clips fs all_clips) as [clips' missing]. simpl in Hv, Hl.
  destruct (match ft with
            | aaf => if AAF_SUPPORT aaf2 then aaf2_timeline aaf2 p clips' else ([], 0%float)
            | omf => _extract_timeline_clips_from_omf fs (rt_unicode rt) p clips'
            end) as [tl total].
  cbn [embedded_clips linked_clips total_clips valid_clips missing_clips missing_clip_details].
  rewrite Hl. repeat split.
  - rewrite <- Hl. apply count_split.
  - exact Hv.
Qed.

Lemma validate_report_parsed file_path report :
  validate_omf_aaf_media fs rt aaf2 file_path = inr report ->
  exists ft all_clips,
    Forall fresh all_clips /\ report = build_report fs rt aaf2 ft file_path all_clips.
Proof.
  unfold validate_omf_aaf_media.
  destruct (negb (fs_exists fs file_path)); [discriminate|].
  destruct (_detect_file_type fs rt file_path) as [e|ft]; [discriminate|].
  destruct ft.
  - destruct (_parse_aaf_file fs (rt_unicode rt) aaf2 file_path) as [e|clips] eqn:E;
      [discriminate|].
    intros H; inversion H. exists aaf, clips. split; [|reflexivity].
    eapply parse_aaf_fresh; eauto.
  - destruct (_parse_omf_file fs rt file_path) as [[e|clips] ev] eqn:E; [discriminate|].
    intros H; inversion H. exists omf, clips. split; [|reflexivity].
    eapply parse_omf_fresh; eauto.
Qed.

End ReportFacts.

(** C1. In every report that [validate_omf_aaf_media] returns, the embedded
    and the linked clips add up to the total, the valid and the missing
    clips add up to the total, and [missing_clips] is the length of
    [missing_clip_details]. *)
Theorem report_counts_invariant (fs : FileSystem) (rt : Runtime) (aaf2 : Aaf2)
    (file_path : pystr) (report : ValidationReport) :
  validate_omf_aaf_media fs rt aaf2 file_path = inr report ->
  (embedded_clips report + linked_clips report = total_clips report)%Z
  /\ (valid_clips report + missing_clips report = total_clips report)%Z
  /\ missing_clips report = Z.of_nat (length (missing_clip_details report)).
Proof.
  intros H. apply validate_report_parsed in H as (ft & all_clips & Hf & ->).
  now apply build_report_counts.
Qed.

(** C5. [validate_embedded_media] returns [True] for every clip; the
    validation leaves an embedded clip as it was ([is_valid] and
    [error_message] unchanged, so [True] and [None] for a clip an extractor
    made) and never appends it to [missing_clip_details]. *)
Theorem embedded_clips_always_valid (fs : FileSystem) :
  (forall clip, validate_embedded_media clip = true)
  /\ (forall clip, is_embedded clip = true -> validate_clip fs clip = (clip, false))
  /\ (forall n i p,
        let clip := fst (validate_clip fs (MediaClip_new n i true p)) in
        is_valid clip = true /\ error_message clip = None)
  /\ (forall all_clips k clip,
        nth_error all_clips k = Some clip -> is_embedded clip = true ->
        nth_error (fst (validate_clips fs all_clips)) k = Some clip)
  /\ (forall all_clips clip,
        In clip (snd (validate_clips fs all_clips)) -> is_embedded clip = false).
Proof.
  assert (He : forall clip, is_embedded clip = true -> validate_clip fs clip = (clip, false)).
  { intros clip H. unfold validate_clip. now rewrite H. }
  repeat split.
  - exact He.
  - intros all_clips k clip Hn Hemb.
    rewrite (validate_clips_nth fs all_clips k clip Hn), (He clip Hemb). reflexivity.
  - intros all_clips clip Hin. now apply (missing_not_embedded fs all_clips clip).
Qed.

(* ================================================================== *)
(** ** The aggressive fallback in the report *)

Lemma made_by_fallback_linked fs base_dir clip :
  made_by_fallback base_dir clip ->
  is_embedded clip = false
  /\ exists p, external_path clip = Some p /\ truthy_str p = true
               /\ validate_clip fs clip = existence_branch fs clip p.
Proof.
  intros (path_str & n & -> & Hlen). split; [reflexivity|].
  assert (Hne : path_str <> []) by (intros ->; unfold len in Hlen; simpl in Hlen; lia).
  set (resolved :=
         if negb (posixpath.isabs path_str) then posixpath.join base_dir path_str
         else path_str).
  assert (Ht : truthy_str resolved = true).
  { assert (Hr : resolved <> []).
    { unfold resolved. destruct (negb _); [now apply posixpath_facts.join_not_nil|exact Hne]. }
    destruct resolved; [congruence|reflexivity]. }
  exists resolved. split; [reflexivity|]. split; [exact Ht|].
  unfold validate_clip, aggressive_clip. cbn [is_embedded external_path MediaClip_new].
  fold resolved. rewrite Ht. reflexivity.
Qed.

Lemma count_clips_none f l : Forall (fun c => f c = false) l -> count_clips f l = 0%Z.
Proof.
  unfold count_clips. induction 1 as [|c r Hc Hr IH]; [reflexivity|].
  simpl. now rewrite Hc.
Qed.

Lemma validate_clips_embedded fs l :
  Forall (fun c => is_embedded c = false) l ->
  Forall (fun c => is_embedded c = false) (fst (validate_clips fs l)).
Proof.
  induction 1 as [|c r Hc Hr IH]; [constructor|].
  rewrite validate_clips_cons. simpl. constructor; [|exact IH].
  now rewrite validate_clip_embedded.
Qed.

(** C10. Every clip of the aggressive fallback has [is_embedded = False]
    and an [external_path] that is a non-empty string, so the validation
    takes it through the file-system branch; a report built from these clips
    has [embedded_clips = 0]; the fallback makes at most 1000 clips. *)
Theorem aggressive_fallback_clips (fs : FileSystem) (rt : Runtime) (aaf2 : Aaf2)
    (file_handle : FileHandle) (base_dir omf_file_path : pystr) :
  let clips := fst (_aggressive_omf_parse rt file_handle base_dir omf_file_path) in
  Forall (fun clip =>
            is_embedded clip = false
            /\ exists p, external_path clip = Some p /\ truthy_str p = true
                         /\ validate_clip fs clip = existence_branch fs clip p) clips
  /\ embedded_clips (build_report fs rt aaf2 omf omf_file_path clips) = 0%Z
  /\ (Z.of_nat (length clips) <= 1000)%Z.
Proof.
  intros clips.
  destruct (aggressive_parse_inv rt file_handle base_dir omf_file_path) as [Hmade Hlen].
  fold clips in Hmade, Hlen.
  assert (Hall : Forall (fun clip =>
            is_embedded clip = false
            /\ exists p, external_path clip = Some p /\ truthy_str p = true
                         /\ validate_clip fs clip = existence_branch fs clip p) clips).
  { eapply Forall_impl; [|exact Hmade]. intros c Hc.
    now apply (made_by_fallback_linked fs base_dir). }
  repeat split; [exact Hall| |exact Hlen].
  unfold build_report.
  assert (He : Forall (fun c => is_embedded c = false) clips).
  { eapply Forall_impl; [|exact Hall]. now intros c [H _]. }
  apply (validate_clips_embedded fs) in He.
  destruct (validate_clips fs clips) as [clips' missing]. simpl in He.
  destruct (_extract_timeline_clips_from_omf fs (rt_unicode rt) omf_file_path clips').
  cbn [embedded_clips]. now apply count_clips_none.
Qed.

(* ================================================================== *)
(** ** Timeline of the legacy format *)

Section TimelineFacts.
Variable fs : FileSystem.
Variable udb : UnicodeDB.

Lemma omf_timeline_step_clips s i clip :
  t_timeline_clips (omf_timeline_step fs udb s i clip)
  = t_timeline_clips s
    ++ t_timeline_clips
         (omf_timeline_step fs udb (mkTimelineState [] (t_current_time s) 0%float) i clip)
  /\ t_current_time (omf_timeline_step fs udb s i clip)
     = t_current_time
         (omf_timeline_step fs udb (mkTimelineState [] (t_current_time s) 0%float) i clip).
Proof.
  unfold omf_timeline_step. destruct (omf_name_match udb clip). simpl. auto.
Qed.

Lemma omf_timeline_loop_layout clips : forall s i,
  t_timeline_clips (omf_timeline_loop fs udb s i clips)
  = t_timeline_clips s ++ layout fs udb (t_current_time s) i clips.
Proof.
  induction clips as [|c r IH]; intros s i; simpl.
  - now rewrite app_nil_r.
  - rewrite IH. destruct (omf_timeline_step_clips s i c) as [-> ->].
    now rewrite app_assoc.
Qed.


Lemma layout_cons cur i clip rest :
  exists tc,
    layout fs udb cur i (clip :: rest)
    = tc :: layout fs udb (if ((i + 1) mod clips_per_track =? 0)%Z then 0%float
                           else timeline_end tc) (i + 1) rest
    /\ track_index tc = (i / clips_per_track)%Z
    /\ timeline_start tc = cur
    /\ timeline_end tc = PrimFloat.add cur (estimated_duration fs clip)
    /\ external_path tc = external_path clip
    /\ is_embedded tc = is_embedded clip
    /\ is_valid tc = is_valid clip
    /\ name tc = name clip.
Proof.
  cbn [layout]. unfold omf_timeline_step. destruct (omf_name_match udb clip).
  cbn [t_timeline_clips t_current_time app].
  match goal with |- exists tc, ?x :: _ = _ /\ _ => exists x end.
  split; [reflexivity|]. cbn. repeat split.
Qed.




Lemma validate_clip_fields clip :
  external_path (fst (validate_clip fs clip)) = external_path clip
  /\ is_embedded (fst (validate_clip fs clip)) = is_embedded clip.
Proof.
  destruct (validate_clip_cases fs clip) as [H|[msg [H _]]]; rewrite H; split; reflexivity.
Qed.

Lemma validate_clips_nth_inv l k clip' :
  nth_error (fst (validate_clips fs l)) k = Some clip' ->
  exists clip, nth_error l k = Some clip /\ clip' = fst (validate_clip fs clip).
Proof.
  revert k. induction l as [|c r IH]; intros k; [destruct k; discriminate|].
  rewrite validate_clips_cons. destruct k as [|k]; simpl.
  - intros H; inversion H. eauto.
  - apply IH.
Qed.

End TimelineFacts.



(* ================================================================== *)
(** ** Name matching *)

Lemma rfind_from_app c a : forall b idx last,
  rfind_from c (a ++ b) idx last
  = rfind_from c b (idx + Z.of_nat (length a)) (rfind_from c a idx last).
Proof.
  induction a as [|x a IH]; intros b idx last.
  - simpl. now rewrite Z.add_0_r.
  - cbn [app rfind_from length]. rewrite IH. f_equal. lia.
Qed.


Section NameMatchFacts.
Variable udb : UnicodeDB.









End NameMatchFacts.



(* ================================================================== *)
(** ** State invariants of a computation *)

Section Preserves.
Context {S : Type} (I : S -> Prop).

Lemma preserves_ret {A} (a : A) : preserves I (ret a).
Proof. intros s H. exact H. Qed.

Lemma preserves_raise {A} (e : exn) : preserves I (@raise S A e).
Proof. intros s H. exact H. Qed.

Lemma preserves_modify (f : S -> S) : (forall s, I s -> I (f s)) -> preserves I (modify f).
Proof. intros Hf s H. now apply Hf. Qed.

Lemma preserves_bind {A B} (c : M S A) (k : A -> M S B) :
  preserves I c -> (forall a, preserves I (k a)) -> preserves I (bind c k).
Proof.
  intros Hc Hk s H. unfold bind. specialize (Hc s H).
  destruct (c s) as [[e|a] s']; simpl in *; [exact Hc|]. now apply Hk.
Qed.

Lemma preserves_try_pass (c : M S unit) : preserves I c -> preserves I (try_pass c).
Proof.
  intros Hc s H. unfold try_pass. specialize (Hc s H). destruct (c s). exact Hc.
Qed.

Lemma preserves_for_each {A} (l : list A) (body : A -> M S unit) :
  (forall x, preserves I (body x)) -> preserves I (for_each l body).
Proof.
  intros Hb. induction l as [|x r IH]; simpl.
  - apply preserves_ret.
  - apply preserves_bind; [apply Hb|intros _; exact IH].
Qed.

Lemma preserves_for_each_lazy {A} (it : list A * option exn) (body : A -> M S unit) :
  (forall x, preserves I (body x)) -> preserves I (for_each_lazy it body).
Proof.
  intros Hb. unfold for_each_lazy. apply preserves_bind.
  - now apply preserves_for_each.
  - intros _. destruct (snd it); [apply preserves_raise|apply preserves_ret].
Qed.

End Preserves.

(** The scan keeps an invariant of the state that appending a path the
    resolution made and logging a [finditer] keep. *)
Section ScanInvariant.
Variable fs : FileSystem.
Variable rt : Runtime.
Variable base_dir : pystr.
Variable I : ScanState -> Prop.
Variable Q : pystr -> Prop.
Hypothesis I_append : forall p, Q p -> preserves I (append_path p).
Hypothesis I_log : forall r, preserves I (log_scan (EvFinditer r)).
Hypothesis Q_retry : forall p, Q (resolve_with_retry fs base_dir p).
Hypothesis Q_simple : forall p, Q (resolve_simple fs base_dir p).

Ltac split_if :=
  match goal with
  | |- (if ?c then _ else _) = _ -> _ => destruct c
  end.

Lemma method1_encodings_Q path_bytes encs p :
  method1_encodings fs rt base_dir path_bytes encs = Some p -> Q p.
Proof.
  induction encs as [|e r IH]; simpl; [discriminate|].
  destruct (rt_decode rt e path_bytes) as [d|]; [|exact IH].
  split_if; [exact IH|]. split_if; [exact IH|].
  intros H; inversion H. apply Q_retry.
Qed.

Lemma method2_encodings_Q path_bytes encs p :
  method2_encodings fs rt base_dir path_bytes encs = Some p -> Q p.
Proof.
  induction encs as [|e r IH]; simpl; [discriminate|].
  destruct (rt_decode rt e path_bytes) as [d|]; [|exact IH].
  split_if; [exact IH|]. split_if; [exact IH|]. split_if; [|exact IH].
  intros H; inversion H. apply Q_simple.
Qed.

Lemma method3_encodings_Q chunk encs p :
  method3_encodings fs rt base_dir chunk encs = Some p -> Q p.
Proof.
  induction encs as [|e r IH]; simpl; [discriminate|].
  destruct (rt_decode rt e chunk) as [d|]; [|exact IH].
  split_if; [exact IH|]. split_if; [exact IH|]. split_if; [|exact IH].
  intros H; inversion H. apply Q_simple.
Qed.

Lemma scan_paths_preserves data : preserves I (scan_paths fs rt base_dir data).
Proof.
  unfold scan_paths. apply preserves_bind; [|intros _; apply preserves_bind; [|intros _]].
  - unfold method1. apply preserves_for_each. intros ext.
    apply preserves_bind; [apply I_log|intros _].
    apply preserves_for_each_lazy. intros m. unfold method1_match.
    destruct (method1_encodings _ _ _ _ _) as [p|] eqn:E; [|apply preserves_ret].
    apply I_append. eapply method1_encodings_Q; eauto.
  - unfold method2. apply preserves_for_each. intros pattern.
    apply preserves_bind; [apply I_log|intros _].
    apply preserves_for_each_lazy. intros m. unfold method2_match.
    destruct (method2_encodings _ _ _ _ _) as [p|] eqn:E; [|apply preserves_ret].
    apply I_append. eapply method2_encodings_Q; eauto.
  - unfold method3. apply preserves_for_each. intros chunk. unfold method3_chunk.
    destruct (_ && _); [|apply preserves_ret].
    destruct (method3_encodings _ _ _ _ _) as [p|] eqn:E; [|apply preserves_ret].
    apply I_append. eapply method3_encodings_Q; eauto.
Qed.

End ScanInvariant.

(* ================================================================== *)
(** ** Size caps of the legacy scanner *)

Lemma reads_app a b : reads (a ++ b) = reads a ++ reads b.
Proof. apply flat_map_app. Qed.

Lemma scan_paths_reads fs rt base_dir data s :
  reads (scan_events (snd (scan_paths fs rt base_dir data s))) = reads (scan_events s).
Proof.
  apply (scan_paths_preserves fs rt base_dir
           (fun s' => reads (scan_events s') = reads (scan_events s)) (fun _ => True)).
  - intros p _ s' H. exact H.
  - intros r s' H. simpl. rewrite reads_app, H. simpl. apply app_nil_r.
  - intros p. exact I.
  - intros p. exact I.
  - reflexivity.
Qed.

(** C4. A legacy file above 200 MB makes [_parse_omf_file] raise the
    "too large" [ValueError] before the file is opened, read or scanned;
    on a file above 100 MB the path extraction reads the first 50 MB and
    scans only them. *)
Theorem large_file_caps (fs : FileSystem) (rt : Runtime) :
  (forall file_path file_size,
     fs_getsize fs file_path = Some file_size -> (200 * MB < file_size)%Z ->
     _parse_omf_file fs rt file_path
     = (inl (mkExn ValueError (too_large_message rt file_size)), []))
  /\ (forall file_handle base_dir,
        (100 * MB < fh_size file_handle)%Z ->
        let data := firstn (Z.to_nat (50 * MB)) file_handle in
        let s := snd (scan_paths fs rt base_dir data
                        (mkScanState [] [EvRead (Some (50 * MB)%Z)])) in
        _extract_omf_file_paths fs rt file_handle base_dir
        = (unique_normalized (file_paths s) [], scan_events s)
        /\ reads (scan_events s) = [Some (50 * MB)%Z]).
Proof.
  split.
  - intros file_path file_size Hsize Hbig. unfold _parse_omf_file.
    rewrite Hsize. unfold MAX_OMF_SIZE.
    now rewrite (proj2 (Z.ltb_lt _ _) Hbig).
  - intros file_handle base_dir Hbig data s. split.
    + unfold _extract_omf_file_paths, extract_body, try_pass, read_request.
      rewrite (proj2 (Z.ltb_lt _ _) Hbig).
      unfold bind, log_scan, modify. cbn [file_paths scan_events app fh_read].
      fold data. subst s.
      destruct (scan_paths fs rt base_dir data _) as [x s']. reflexivity.
    + subst s. rewrite scan_paths_reads. reflexivity.
Qed.

(* ================================================================== *)
(** ** An exception in the middle of the scan *)

(** C6 (the scanner does not do what the statement and the comment "If
    parsing fails, return empty list" say). The run above raises in the
    [try], and [_extract_omf_file_paths] returns the path appended before the
    exception, not the empty list. *)
Theorem scan_exception_keeps_partial_paths :
  fst (extract_body nothing_on_disk raising_runtime (bytes_of "/proj/a.wav") (str "/proj")
         (mkScanState [] []))
  = inl (mkExn MemoryError [])
  /\ fst (_extract_omf_file_paths nothing_on_disk raising_runtime
            (bytes_of "/proj/a.wav") (str "/proj"))
     = [str "/proj/a.wav"].
Proof. split; vm_compute; reflexivity. Qed.

(* ================================================================== *)
(** ** The shape of [external_path] *)

Section PathShape.
Import posixpath posixpath_facts.
Variable fs : FileSystem.
Variable rt : Runtime.

Lemma normpath_not_nil p : normpath p <> [].
Proof.
  destruct p as [|c p]; [discriminate|].
  rewrite normpath_nonempty by discriminate. cbv zeta.
  destruct (repeat sep _ ++ _); discriminate.
Qed.

Lemma normpath_scanned_abs base_dir p :
  isabs p = true -> scanned_path fs base_dir (normpath p).
Proof.
  intros H. split; [apply normpath_not_nil|]. split; [apply normpath_idempotent|].
  left. now rewrite normpath_isabs.
Qed.

Lemma normpath_scanned_kept base_dir p :
  isabs p = false -> fs_exists fs (join base_dir p) = false ->
  scanned_path fs base_dir (normpath p).
Proof.
  intros H He. split; [apply normpath_not_nil|]. split; [apply normpath_idempotent|].
  right. exists p. auto.
Qed.

Lemma resolve_simple_scanned base_dir p :
  isabs base_dir = true -> scanned_path fs base_dir (resolve_simple fs base_dir p).
Proof.
  intros Hb. unfold resolve_simple. destruct (isabs p) eqn:Ep; simpl.
  - now apply normpath_scanned_abs.
  - destruct (fs_exists fs (join base_dir p)) eqn:Ee.
    + apply normpath_scanned_abs. now apply join_isabs.
    + now apply normpath_scanned_kept.
Qed.

Lemma resolve_with_retry_scanned base_dir p :
  isabs base_dir = true -> scanned_path fs base_dir (resolve_with_retry fs base_dir p).
Proof.
  intros Hb. unfold resolve_with_retry. destruct (isabs p) eqn:Ep; simpl.
  - now apply normpath_scanned_abs.
  - destruct (fs_exists fs (join base_dir p)) eqn:Ee.
    + apply normpath_scanned_abs. now apply join_isabs.
    + destruct (fs_exists fs (join base_dir (normpath p))).
      * apply normpath_scanned_abs. now apply join_isabs.
      * now apply normpath_scanned_kept.
Qed.

Lemma unique_normalized_Forall (Q : pystr -> Prop) paths :
  (forall q, Q q -> normalized q) -> Forall Q paths ->
  forall seen, Forall Q (unique_normalized paths seen).
Proof.
  intros HQ. induction 1 as [|p r Hp Hr IH]; intros seen; simpl; [constructor|].
  rewrite (HQ p Hp). destruct (str_in p seen); [apply IH|].
  constructor; [exact Hp|apply IH].
Qed.

Lemma extract_paths_scanned f base_dir :
  isabs base_dir = true ->
  Forall (scanned_path fs base_dir) (fst (_extract_omf_file_paths fs rt f base_dir)).
Proof.
  intros Hb. unfold _extract_omf_file_paths.
  assert (Hinv : preserves (fun s => Forall (scanned_path fs base_dir) (file_paths s))
                           (try_pass (extract_body fs rt f base_dir))).
  { apply preserves_try_pass. unfold extract_body.
    apply preserves_bind; [intros s H; exact H|intros _].
    apply (scan_paths_preserves fs rt base_dir _ (scanned_path fs base_dir)).
    - intros p Hp s H. simpl. apply Forall_app. split; [exact H|].
      constructor; [exact Hp|constructor].
    - intros r s H. exact H.
    - intros p. now apply resolve_with_retry_scanned.
    - intros p. now apply resolve_simple_scanned. }
  specialize (Hinv (mkScanState [] []) (Forall_nil _)).
  destruct (try_pass (extract_body fs rt f base_dir) (mkScanState [] [])) as [x s].
  simpl in *. apply unique_normalized_Forall; [|exact Hinv].
  intros q (_ & H & _). exact H.
Qed.

Lemma made_by_fallback_abs base_dir clip :
  isabs base_dir = true -> made_by_fallback base_dir clip ->
  is_embedded clip = false
  /\ exists q, external_path clip = Some q /\ q <> [] /\ isabs q = true.
Proof.
  intros Hb (path_str & n & -> & Hlen). split; [reflexivity|].
  assert (Hne : path_str <> []) by (intros ->; unfold len in Hlen; simpl in Hlen; lia).
  unfold aggressive_clip. cbn [external_path MediaClip_new].
  destruct (isabs path_str) eqn:Ep; simpl; eexists; (split; [reflexivity|]); split; auto.
  - now apply join_not_nil.
  - now apply join_isabs.
Qed.

Lemma made_by_scan_path base_dir paths clip :
  Forall (scanned_path fs base_dir) paths -> made_by_scan paths clip ->
  is_embedded clip = false
  /\ exists q, external_path clip = Some q /\ scanned_path fs base_dir q.
Proof.
  intros Hp (n & i & p & -> & Hin & _). split; [reflexivity|].
  exists p. split; [reflexivity|]. rewrite Forall_forall in Hp. now apply Hp.
Qed.

Lemma validated_same_source l clip :
  In clip (fst (validate_clips fs l)) -> exists c0, In c0 l /\ same_source clip c0.
Proof.
  induction l as [|c r IH]; [intros []|].
  rewrite validate_clips_cons. simpl. intros [<-|H].
  - exists c. split; [now left|]. apply validate_clip_fields.
  - destruct (IH H) as (c0 & Hin & Hs). exists c0. split; [now right|exact Hs].
Qed.

Lemma missing_same_source l clip :
  In clip (snd (validate_clips fs l)) -> exists c0, In c0 l /\ same_source clip c0.
Proof.
  induction l as [|c r IH]; [intros []|].
  rewrite validate_clips_cons. cbn [snd].
  assert (Hr : In clip (snd (validate_clips fs r)) ->
               exists c0, In c0 (c :: r) /\ same_source clip c0).
  { intros H. destruct (IH H) as (c0 & Hin & Hs). exists c0. split; [now right|exact Hs]. }
  destruct (snd (validate_clip fs c)); [|exact Hr].
  intros [<-|H]; [|now apply Hr].
  exists c. split; [now left|]. apply validate_clip_fields.
Qed.

Lemma layout_same_source udb l : forall cur i tc,
  In tc (layout fs udb cur i l) -> exists c, In c l /\ same_source tc c.
Proof.
  induction l as [|c r IH]; intros cur i tc; [intros []|].
  destruct (layout_cons fs udb cur i c r) as (tc0 & -> & _ & _ & _ & Hp & He & _).
  intros [<-|H].
  - exists c. split; [now left|]. split; assumption.
  - destruct (IH _ _ _ H) as (c0 & Hin & Hs). exists c0. split; [now right|exact Hs].
Qed.

Lemma report_same_source aaf2 file_path parsed clip :
  let report := build_report fs rt aaf2 omf file_path parsed in
  In clip (missing_clip_details report ++ timeline_clips report) ->
  exists c0, In c0 parsed /\ same_source clip c0.
Proof.
  intros report. unfold report, build_report.
  pose proof (missing_same_source parsed clip) as Hm.
  pose proof (fun tc => validated_same_source parsed tc) as Hv.
  destruct (validate_clips fs parsed) as [cl ms]. cbn [fst snd] in Hm, Hv.
  unfold _extract_timeline_clips_from_omf. rewrite omf_timeline_loop_layout.
  cbn [missing_clip_details timeline_clips t_timeline_clips t_current_time app].
  intros H. apply in_app_or in H as [H|H]; [now apply Hm|].
  apply layout_same_source in H as (c & Hc & Hs1 & Hs2).
  destruct (Hv c Hc) as (c0 & Hc0 & Hs3 & Hs4).
  exists c0. split; [exact Hc0|]. split; congruence.
Qed.

(** The graph walk. *)
Lemma walker_resolve_shape aaf_file_path ext q :
  isabs (fs_cwd fs) = true ->
  walker_resolve fs aaf_file_path ext = Some q -> q <> [] ->
  isabs q = true /\ normalized q.
Proof.
  intros Hcwd. unfold walker_resolve. destruct ext as [p|]; [|discriminate].
  destruct (truthy_str p) eqn:Et.
  - intros H Hq. inversion H. split; [|apply normpath_idempotent].
    rewrite normpath_isabs. destruct (isabs p) eqn:Ep; simpl; [exact Ep|].
    apply join_isabs, dirname_isabs, abspath_isabs. exact Hcwd.
  - intros H Hq. inversion H; subst. destruct q; [congruence|discriminate].
Qed.

Lemma walker_clip_shape udb aaf_file_path segment source_mob n clip q :
  isabs (fs_cwd fs) = true ->
  walker_clip fs udb segment source_mob aaf_file_path n = Some clip ->
  external_path clip = Some q -> q <> [] ->
  isabs q = true /\ normalized q.
Proof.
  intros Hcwd. unfold walker_clip. destruct (walker_classify source_mob) as [e x].
  destruct (_ || _); [|discriminate]. intros H; inversion H; subst.
  cbn [external_path MediaClip_new]. now apply walker_resolve_shape.
Qed.

End PathShape.

(* ================================================================== *)
(** ** Resolution of a relative path in the graph format *)

(** C2, as stated, fails: the clip of the source above resolves to
    [/proj/media/a.wav], the file is not on disk, and the validation leaves
    the clip valid, because it is embedded. *)
Lemma embedded_clip_with_missing_file_stays_valid :
  ~ (forall (fs : FileSystem) (udb : UnicodeDB) segment source_mob n is_emb clip,
       walker_classify source_mob = (is_emb, Some (str "media/a.wav")) ->
       walker_clip fs udb segment source_mob (str "/proj/show.aaf") n = Some clip ->
       external_path clip = Some (str "/proj/media/a.wav")
       /\ (fs_exists fs (str "/proj/media/a.wav") = false ->
           is_valid (fst (validate_clip fs clip)) = false)).
Proof.
  intros H.
  assert (E : exists clip,
             walker_clip nothing_on_disk ascii_only (segment_of embedded_with_locator)
               embedded_with_locator (str "/proj/show.aaf") 0 = Some clip).
  { vm_compute. eexists. reflexivity. }
  destruct E as (clip & Hclip).
  destruct (H nothing_on_disk ascii_only (segment_of embedded_with_locator)
              embedded_with_locator 0%Z true clip eq_refl Hclip) as [_ Hv].
  specialize (Hv eq_refl).
  vm_compute in Hclip. injection Hclip as <-. vm_compute in Hv. discriminate.
Qed.

(** C2, amended. A clip of a container at [/proj/show.aaf] whose relative
    external path is [media/a.wav] gets the [external_path]
    [/proj/media/a.wav]; when the clip is not embedded and that file is not
    on disk, the validation marks it invalid, with the message
    "External media file not found: /proj/media/a.wav", and appends it to
    the missing clips. *)
Theorem relative_path_resolution (fs : FileSystem) (udb : UnicodeDB)
    (segment source_mob : Node) (n : Z) (is_emb : bool) :
  walker_classify source_mob = (is_emb, Some (str "media/a.wav")) ->
  exists clip,
    walker_clip fs udb segment source_mob (str "/proj/show.aaf") n = Some clip
    /\ external_path clip = Some (str "/proj/media/a.wav")
    /\ is_embedded clip = is_emb
    /\ (is_emb = false -> fs_exists fs (str "/proj/media/a.wav") = false ->
        validate_clip fs clip
        = (mark_invalid clip (str "External media file not found: /proj/media/a.wav"), true)
        /\ is_valid (fst (validate_clip fs clip)) = false
        /\ error_message (fst (validate_clip fs clip))
           = Some (str "External media file not found: /proj/media/a.wav")).
Proof.
  intros Hc. unfold walker_clip. rewrite Hc.
  change (walker_resolve fs (str "/proj/show.aaf") (Some (str "media/a.wav")))
    with (Some (str "/proj/media/a.wav")).
  change (truthy (Some (str "/proj/media/a.wav"))) with true.
  rewrite orb_true_r. cbn [orb].
  eexists. split; [reflexivity|]. split; [reflexivity|]. split; [reflexivity|].
  intros -> He.
  assert (Hv : validate_clip fs
                 (MediaClip_new (walker_clip_name udb segment source_mob n)
                    (Some (source_id_of source_mob)) false (Some (str "/proj/media/a.wav")))
               = (mark_invalid
                    (MediaClip_new (walker_clip_name udb segment source_mob n)
                       (Some (source_id_of source_mob)) false (Some (str "/proj/media/a.wav")))
                    (str "External media file not found: /proj/media/a.wav"), true)).
  { unfold validate_clip. cbn [is_embedded external_path MediaClip_new].
    change (truthy_str (str "/proj/media/a.wav")) with true. cbn [negb].
    rewrite He. reflexivity. }
  rewrite Hv. repeat split.
Qed.

(* ================================================================== *)
(** ** The statements on concrete inputs *)

Lemma report_counts_invariant_witness :
  exists report,
    validate_omf_aaf_media relative_disk relative_runtime no_aaf2 (str "/proj/show.omf")
    = inr report
    /\ (embedded_clips report + linked_clips report = total_clips report)%Z
    /\ (valid_clips report + missing_clips report = total_clips report)%Z
    /\ missing_clips report = Z.of_nat (length (missing_clip_details report)).
Proof.
  eexists. split.
  - vm_compute. reflexivity.
  - apply (report_counts_invariant relative_disk relative_runtime no_aaf2
             (str "/proj/show.omf")).
    vm_compute. reflexivity.
Defined.

Lemma relative_path_resolution_witness :
  walker_classify linked_with_locator = (false, Some (str "media/a.wav"))
  /\ exists clip,
       walker_clip nothing_on_disk ascii_only (segment_of linked_with_locator)
         linked_with_locator (str "/proj/show.aaf") 0 = Some clip
       /\ external_path clip = Some (str "/proj/media/a.wav")
       /\ is_valid (fst (validate_clip nothing_on_disk clip)) = false
       /\ error_message (fst (validate_clip nothing_on_disk clip))
          = Some (str "External media file not found: /proj/media/a.wav").
Proof.
  split; [reflexivity|].
  destruct (relative_path_resolution nothing_on_disk ascii_only
              (segment_of linked_with_locator) linked_with_locator 0 false eq_refl)
    as (clip & H1 & H2 & _ & H3).
  exists clip. destruct (H3 eq_refl eq_refl) as (_ & H4 & H5). auto.
Defined.

Lemma big_handle_size : fh_size big_handle = (150 * MB)%Z.
Proof.
  unfold fh_size, big_handle. rewrite repeat_length. apply Z2Nat.id. unfold MB. lia.
Qed.

Lemma large_file_caps_witness :
  fs_getsize huge_disk (str "/proj/big.omf") = Some (250 * MB)%Z
  /\ (200 * MB < 250 * MB)%Z
  /\ _parse_omf_file huge_disk relative_runtime (str "/proj/big.omf")
     = (inl (mkExn ValueError (too_large_message relative_runtime (250 * MB))), [])
  /\ (100 * MB < fh_size big_handle)%Z
  /\ reads (snd (_extract_omf_file_paths nothing_on_disk relative_runtime big_handle
                   (str "/proj")))
     = [Some (50 * MB)%Z].
Proof.
  assert (H250 : (200 * MB < 250 * MB)%Z) by (unfold MB; lia).
  assert (H150 : (100 * MB < fh_size big_handle)%Z)
    by (rewrite big_handle_size; unfold MB; lia).
  split; [reflexivity|]. split; [exact H250|]. split.
  - exact (proj1 (large_file_caps huge_disk relative_runtime) _ _ eq_refl H250).
  - split; [exact H150|].
    destruct (proj2 (large_file_caps nothing_on_disk relative_runtime)
                big_handle (str "/proj") H150) as [E R].
    rewrite E. exact R.
Defined.

Lemma embedded_clips_always_valid_witness :
  is_embedded (MediaClip_new (str "a.wav") None true None) = true
  /\ validate_clip nothing_on_disk (MediaClip_new (str "a.wav") None true None)
     = (MediaClip_new (str "a.wav") None true None, false).
Proof.
  split; [reflexivity|].
  exact (proj1 (proj2 (embedded_clips_always_valid nothing_on_disk))
           (MediaClip_new (str "a.wav") None true None) eq_refl).
Defined.

Lemma is_valid_path_string_filter_witness :
  (len (str "a.w") < 4)%Z
  /\ _is_valid_path_string ascii_only (str "a.w") = false
  /\ length (repeat 1%N 200) = 200
  /\ _is_valid_path_string ascii_only (repeat 1%N 200) = false.
Proof.
  destruct (is_valid_path_string_filter ascii_only) as (H1 & _ & _ & _ & H5).
  assert (Hlen : length (repeat 1%N 200) = 200) by apply repeat_length.
  split; [reflexivity|]. split; [apply H1; reflexivity|]. split; [exact Hlen|].
  apply H5; [exact Hlen|].
  intros c Hc. apply repeat_spec in Hc. subst. reflexivity.
Defined.



(* ================================================================== *)
(** ** Removal of duplicates in the legacy scan *)

Lemma str_in_In x l : str_in x l = true <-> In x l.
Proof.
  unfold str_in. rewrite existsb_exists. split.
  - intros (y & Hy & E). apply pystr_eqb_eq in E. now subst.
  - intros H. exists x. split; [exact H|apply pystr_eqb_refl].
Qed.

Lemma str_in_not_In x l : str_in x l = false <-> ~ In x l.
Proof.
  rewrite <- str_in_In. destruct (str_in x l); split; congruence.
Qed.

Lemma unique_normalized_In paths : forall seen q,
  In q (unique_normalized paths seen)
  <-> (exists p, In p paths /\ q = posixpath.normpath p) /\ ~ In q seen.
Proof.
  induction paths as [|path rest IH]; intros seen q; simpl.
  - split; [tauto|]. intros [(p & [] & _) _].
  - destruct (str_in (posixpath.normpath path) seen) eqn:E.
    + apply str_in_In in E. rewrite IH. split.
      * intros [(p & Hp & Hq) Hs]. split; [exists p; auto|exact Hs].
      * intros [(p & [Hp|Hp] & Hq) Hs]; subst.
        -- contradiction.
        -- split; [exists p; auto|exact Hs].
    + apply str_in_not_In in E. simpl. rewrite IH. split.
      * intros [Hq|[(p & Hp & Hq) Hs]].
        -- subst q. split; [exists path; auto|exact E].
        -- split; [exists p; auto|]. intros Hin. apply Hs. now right.
      * intros [(p & [Hp|Hp] & Hq) Hs]; subst.
        -- now left.
        -- destruct (list_eq_dec N.eq_dec (posixpath.normpath path) (posixpath.normpath p))
             as [Heq|Hne]; [now left|].
           right. split; [exists p; auto|]. intros [H|H]; [congruence|contradiction].
Qed.

Lemma unique_normalized_NoDup paths : forall seen, NoDup (unique_normalized paths seen).
Proof.
  induction paths as [|path rest IH]; intros seen; simpl; [constructor|].
  destruct (str_in (posixpath.normpath path) seen); [apply IH|].
  constructor; [|apply IH].
  intros Hin. apply unique_normalized_In in Hin as [_ Hs]. apply Hs. now left.
Qed.

(** X1. The last block of [_extract_omf_file_paths] returns exactly the
    normal forms of the paths found, each one once; so the paths the scan
    returns are pairwise distinct and [normpath] leaves each as it is. *)
Theorem scan_result_unique_normalized :
  (forall paths,
      NoDup (unique_normalized paths [])
      /\ forall q, In q (unique_normalized paths [])
                   <-> exists p, In p paths /\ q = posixpath.normpath p)
  /\ (forall fs rt file_handle base_dir,
        let paths := fst (_extract_omf_file_paths fs rt file_handle base_dir) in
        NoDup paths /\ Forall normalized paths).
Proof.
  split.
  - intros paths. split; [apply unique_normalized_NoDup|].
    intros q. rewrite unique_normalized_In. split; [tauto|]. intros H. split; [exact H|tauto].
  - intros fs rt file_handle base_dir. unfold _extract_omf_file_paths.
    destruct (try_pass _ _) as [x s]. cbn [fst]. split; [apply unique_normalized_NoDup|].
    apply Forall_forall. intros q Hq. apply unique_normalized_In in Hq as [(p & _ & ->) _].
    apply posixpath_facts.normpath_idempotent.
Qed.

(* ================================================================== *)
(** ** Numbering of the legacy clips *)

Lemma str_inj a b : str a = str b -> a = b.
Proof.
  unfold str. intros H.
  assert (E : list_ascii_of_string a = list_ascii_of_string b).
  { revert H. generalize (list_ascii_of_string a) (list_ascii_of_string b).
    induction l as [|x l IH]; intros [|y l'] H; simpl in H; try discriminate; auto.
    injection H as Hxy Hl. f_equal; [|now apply IH].
    rewrite <- (ascii_N_embedding x), <- (ascii_N_embedding y). now rewrite Hxy. }
  rewrite <- (string_of_list_ascii_of_string a), <- (string_of_list_ascii_of_string b).
  now f_equal.
Qed.

Lemma str_of_int_pos_inj a b :
  (0 < a)%Z -> (0 < b)%Z -> str_of_int a = str_of_int b -> a = b.
Proof.
  destruct a as [|p|p], b as [|q|q]; try lia. intros _ _ H.
  unfold str_of_int in H. apply str_inj in H.
  assert (E : Some (Pos.to_uint p) = Some (Pos.to_uint q))
    by (rewrite <- !NilEmpty.usu; now rewrite H).
  injection E as E. apply Unsigned.to_uint_inj in E. now subst.
Qed.

Lemma nth_error_snoc {A} (l : list A) (x : A) k y :
  nth_error (l ++ [x]) k = Some y ->
  (k < length l /\ nth_error l k = Some y) \/ (k = length l /\ y = x).
Proof.
  intros H. destruct (Nat.lt_ge_cases k (length l)) as [Hlt|Hge].
  - left. split; [exact Hlt|]. now rewrite nth_error_app1 in H.
  - right. rewrite nth_error_app2 in H by exact Hge.
    destruct (k - length l) as [|n] eqn:E; simpl in H.
    + split; [lia|congruence].
    + destruct n; discriminate.
Qed.

Section LegacyNumbering.
Variable fs : FileSystem.
Variable rt : Runtime.

Lemma build_from_path_numbered s p :
  scan_numbered (rt_unicode rt) s -> scan_numbered (rt_unicode rt) (build_from_path rt s p).
Proof.
  intros (Hc & Hn & Hd). unfold build_from_path.
  destruct (truthy_str p) eqn:T; cbn [andb]; [|exact (conj Hc (conj Hn Hd))].
  destruct (str_in p (b_processed_paths s)) eqn:E; cbn [negb]; [exact (conj Hc (conj Hn Hd))|].
  apply str_in_not_In in E.
  destruct (str_in (lower (rt_unicode rt) (snd (posixpath.splitext p))) core_audio_exts
            || negb (truthy_str (lower (rt_unicode rt) (snd (posixpath.splitext p))))) eqn:X.
  - unfold scan_numbered. cbn [b_clips b_clip_counter b_processed_paths].
    rewrite length_app, map_app. cbn [length map]. repeat split.
    + lia.
    + apply nth_error_snoc in H as [[Hk H]|[Hk ->]].
      * now destruct (Hn k clip H).
      * subst k. rewrite Hc. exists p. replace (Z.of_nat (length (b_clips s)) + 1)%Z
          with (1 + Z.of_nat (length (b_clips s)))%Z by lia.
        split; [reflexivity|]. split; [exact T|].
        apply orb_true_iff in X as [X|X]; [now left|right].
        destruct (lower _ _); [reflexivity|discriminate].
    + apply nth_error_snoc in H as [[Hk H]|[Hk ->]].
      * destruct (Hn k clip H) as [_ (q & Hq & Hin)]. exists q. split; [exact Hq|now right].
      * exists p. split; [reflexivity|now left].
    + apply NoDup_app; [exact Hd|repeat constructor; intros []|].
      intros x Hx [<-|[]]. apply in_map_iff in Hx as (c & Hc' & Hin).
      apply In_nth_error in Hin as (k & Hk).
      destruct (Hn k c Hk) as [_ (q & Hq & Hq')]. cbn [external_path MediaClip_new] in Hc'.
      rewrite Hq in Hc'. injection Hc' as ->. contradiction.
  - unfold scan_numbered. cbn [b_clips b_clip_counter b_processed_paths]. repeat split; auto.
    + now destruct (Hn k clip H).
    + destruct (Hn k clip H) as [_ (q & Hq & Hin)]. exists q. split; [exact Hq|now right].
Qed.

Lemma fold_build_from_path_numbered paths : forall s,
  scan_numbered (rt_unicode rt) s ->
  scan_numbered (rt_unicode rt) (fold_left (build_from_path rt) paths s).
Proof.
  induction paths as [|p r IH]; intros s Hs; simpl; [exact Hs|].
  apply IH. now apply build_from_path_numbered.
Qed.

Lemma aggressive_match_numbered base_dir m s :
  fallback_numbered base_dir s ->
  fallback_numbered base_dir (snd (aggressive_match rt base_dir m s)).
Proof.
  intros (Hc & Hn). unfold aggressive_match.
  destruct (aggressive_encodings rt _ _) as [path_str|] eqn:E; [|exact (conj Hc Hn)].
  unfold fallback_numbered, modify. cbn [snd a_clips a_clip_counter].
  rewrite length_app. cbn [length]. split; [lia|].
  intros k clip H. apply nth_error_snoc in H as [[Hk H]|[Hk ->]]; [now apply Hn|].
  subst k. exists path_str. rewrite Hc.
  replace (Z.of_nat (length (a_clips s)) + 1)%Z with (1 + Z.of_nat (length (a_clips s)))%Z by lia.
  split; [reflexivity|]. eapply aggressive_encodings_long; eauto.
Qed.

Lemma aggressive_loop_numbered base_dir matches pending : forall s,
  fallback_numbered base_dir s ->
  fallback_numbered base_dir (snd (aggressive_loop rt base_dir matches pending s)).
Proof.
  induction matches as [|m r IH]; intros s H; simpl.
  - destruct pending; exact H.
  - unfold bind, get. simpl.
    destruct (max_clips <? a_clip_counter s)%Z; [exact H|].
    unfold try_pass.
    pose proof (aggressive_match_numbered base_dir m s H) as H'.
    destruct (aggressive_match rt base_dir m s) as [x s1]. simpl in *.
    now apply IH.
Qed.

Lemma aggressive_parse_numbered file_handle base_dir omf_file_path k clip :
  nth_error (fst (_aggressive_omf_parse rt file_handle base_dir omf_file_path)) k = Some clip ->
  numbered_fallback_clip base_dir k clip.
Proof.
  unfold _aggressive_omf_parse, try_pass, aggressive_body, bind, modify. simpl.
  pose proof (aggressive_loop_numbered base_dir
                (fst (rt_finditer rt RxAudioRef (fh_read file_handle (read_request file_handle))))
                (snd (rt_finditer rt RxAudioRef (fh_read file_handle (read_request file_handle))))
                (mkAggState [] 1 [EvRead (read_request file_handle); EvFinditer RxAudioRef])) as H.
  destruct (aggressive_loop rt base_dir _ _ _) as [x s'].
  simpl in *. destruct H as (H1 & H2).
  - split; [reflexivity|]. intros j c Hj. destruct j; discriminate.
  - apply H2.
Qed.

(** The clips of [_parse_omf_file], by their position. *)
Lemma parse_omf_numbered file_path clips ev :
  _parse_omf_file fs rt file_path = (inr clips, ev) ->
  ((forall k clip, nth_error clips k = Some clip ->
                   numbered_scan_clip (rt_unicode rt) k clip)
   /\ NoDup (map external_path clips))
  \/ (forall k clip, nth_error clips k = Some clip ->
        numbered_fallback_clip
          (posixpath.dirname (posixpath.abspath (fs_cwd fs) file_path)) k clip).
Proof.
  unfold _parse_omf_file.
  destruct (match fs_getsize fs file_path with
            | Some file_size => if (MAX_OMF_SIZE <? file_size)%Z then Some file_size else None
            | None => None
            end); [discriminate|].
  destruct (fs_open fs file_path) as [e|f]; [discriminate|].
  set (base_dir := posixpath.dirname (posixpath.abspath (fs_cwd fs) file_path)).
  unfold parse_omf_opened.
  destruct (_extract_omf_file_paths fs rt f base_dir) as [paths ev1] eqn:Ep.
  unfold _extract_omf_essence_references. cbn [fold_left].
  assert (H0 : scan_numbered (rt_unicode rt) (mkBuildState [] 1 [])).
  { repeat split; simpl; try constructor; destruct k; discriminate. }
  pose proof (fold_build_from_path_numbered paths _ H0) as (_ & Hn & Hd).
  destruct (b_clips (fold_left (build_from_path rt) paths (mkBuildState [] 1 []))) as [|c r] eqn:Eb.
  - destruct (_aggressive_omf_parse rt f base_dir file_path) as [aclips ev2] eqn:Ea.
    intros H. injection H as <- _. right. intros k clip Hk.
    apply (aggressive_parse_numbered f base_dir file_path).
    now rewrite Ea.
  - intros H. injection H as <- _. left. split; [|exact Hd].
    intros k clip Hk. now destruct (Hn k clip Hk).
Qed.

End LegacyNumbering.

Lemma numbered_ids_NoDup prefix clips :
  (forall k clip, nth_error clips k = Some clip ->
                  clip_id clip = Some (prefix ++ str_of_int (Z.of_nat k + 1))) ->
  NoDup (map clip_id clips).
Proof.
  intros H. apply NoDup_nth_error. intros i j Hi E.
  rewrite length_map in Hi. rewrite !nth_error_map in E.
  destruct (nth_error clips i) as [ci|] eqn:Ei; [|apply nth_error_None in Ei; lia].
  destruct (nth_error clips j) as [cj|] eqn:Ej; simpl in E; [|discriminate].
  rewrite (H i _ Ei), (H j _ Ej) in E. injection E as E.
  apply app_inv_head in E. apply str_of_int_pos_inj in E; lia.
Qed.

(** X2. The clips [_parse_omf_file] returns are numbered from 1 in the order
    of the list, without gaps: clip [k] (from 0) has the id [omf_clip_<k+1>]
    when the structured scan made the clips and [omf_ref_<k+1>] when the
    aggressive fallback did; so no two clips of a parse share a [clip_id]. *)
Theorem legacy_clip_ids_numbered (fs : FileSystem) (rt : Runtime)
    (file_path : pystr) (clips : list MediaClip) (ev : list io_event) :
  _parse_omf_file fs rt file_path = (inr clips, ev) ->
  ((forall k clip, nth_error clips k = Some clip ->
      clip_id clip = Some (str "omf_clip_" ++ str_of_int (Z.of_nat k + 1)))
   \/ (forall k clip, nth_error clips k = Some clip ->
         clip_id clip = Some (str "omf_ref_" ++ str_of_int (Z.of_nat k + 1))))
  /\ NoDup (map clip_id clips).
Proof.
  intros H. apply parse_omf_numbered in H as [[Hn _]|Hn].
  - assert (Hid : forall k clip, nth_error clips k = Some clip ->
              clip_id clip = Some (str "omf_clip_" ++ str_of_int (Z.of_nat k + 1))).
    { intros k clip Hk. destruct (Hn k clip Hk) as (q & -> & _). reflexivity. }
    split; [now left|]. now apply (numbered_ids_NoDup (str "omf_clip_")).
  - assert (Hid : forall k clip, nth_error clips k = Some clip ->
              clip_id clip = Some (str "omf_ref_" ++ str_of_int (Z.of_nat k + 1))).
    { intros k clip Hk. destruct (Hn k clip Hk) as (q & -> & _). reflexivity. }
    split; [now right|]. now apply (numbered_ids_NoDup (str "omf_ref_")).
Qed.

Lemma str_or_not_nil a b : b <> [] -> str_or a b <> [].
Proof. unfold str_or. destruct a; simpl; [auto|discriminate]. Qed.

(** X3. When the structured scan of [_parse_omf_file] finds clips, every clip
    is linked, its [external_path] is a non-empty path whose extension is
    one of the seven audio extensions (in any case) or is missing, its name
    is the base name of that path, and no two clips share a path; the
    other clips are those of the aggressive fallback. *)
Theorem legacy_scan_clips (fs : FileSystem) (rt : Runtime)
    (file_path : pystr) (clips : list MediaClip) (ev : list io_event) :
  _parse_omf_file fs rt file_path = (inr clips, ev) ->
  (NoDup (map external_path clips)
   /\ Forall (fun clip =>
        is_embedded clip = false
        /\ exists q,
             external_path clip = Some q /\ q <> []
             /\ (str_in (lower (rt_unicode rt) (snd (posixpath.splitext q))) core_audio_exts = true
                 \/ lower (rt_unicode rt) (snd (posixpath.splitext q)) = [])
             /\ (posixpath.basename q <> [] -> name clip = posixpath.basename q)) clips)
  \/ Forall (made_by_fallback (posixpath.dirname (posixpath.abspath (fs_cwd fs) file_path)))
            clips.
Proof.
  intros H. apply parse_omf_numbered in H as [[Hn Hd]|Hn].
  - left. split; [exact Hd|]. apply Forall_forall. intros clip Hin.
    apply In_nth_error in Hin as (k & Hk).
    destruct (Hn k clip Hk) as (q & -> & Hq & Hext).
    split; [reflexivity|]. exists q. split; [reflexivity|].
    split; [intros ->; discriminate|]. split; [exact Hext|].
    intros Hb. cbn [name MediaClip_new]. unfold str_or.
    destruct (posixpath.basename q); [congruence|reflexivity].
  - right. apply Forall_forall. intros clip Hin.
    apply In_nth_error in Hin as (k & Hk).
    destruct (Hn k clip Hk) as (p & -> & Hp). now exists p, (Z.of_nat k + 1)%Z.
Qed.

(* ================================================================== *)
(** ** Invariants of the walk of the graph format *)

Section WalkInvariant.
Variable fs : FileSystem.
Variable udb : UnicodeDB.
Variable aaf2 : Aaf2.
Variable file_path : pystr.
Variable I : WalkState -> Prop.
Hypothesis I_source :
  forall segment st st',
    walker_source fs udb segment file_path st = Some st' -> I st -> I st'.

Lemma walker_inv segment :
  forall st, I st -> I (_extract_clips_from_segment fs udb segment file_path st).
Proof.
  revert segment. fix IH 1. intros segment st Hst.
  destruct segment as [nm mid pyid mob desc ess slots comps].
  cbn [_extract_clips_from_segment].
  destruct (walker_source fs udb _ file_path st) as [st1|] eqn:E; [|exact Hst].
  apply I_source in E; [|exact Hst]. clear Hst.
  assert (Hslots :
    forall (l : list (SlotOf Node)) s, I s ->
      I ((fix over_slots (l : list (SlotOf Node)) (st : WalkState) : WalkState :=
            match l with
            | [] => st
            | mkSlot _ (Some seg) :: r =>
                over_slots r (_extract_clips_from_segment fs udb seg file_path st)
            | mkSlot _ None :: r => over_slots r st
            end) l s)).
  { clear - IH. induction l as [|[mk [seg|]] r IHl]; intros s Hs; simpl; auto. }
  assert (Hcomps :
    forall (l : list Node) s, I s ->
      I ((fix over_components (l : list Node) (st : WalkState) : WalkState :=
            match l with
            | [] => st
            | component :: r =>
                over_components r
                  (_extract_clips_from_segment fs udb component file_path st)
            end) l s)).
  { clear - IH. induction l as [|c r IHl]; intros s Hs; simpl; auto. }
  destruct slots as [slot_list|]; destruct comps as [comp_list|]; auto.
Qed.

Hypothesis I_fallback : forall st mob, I st -> I (fallback_mob fs file_path st mob).

Lemma parse_aaf_inv clips :
  I (mkWalkState [] []) ->
  _parse_aaf_file fs udb aaf2 file_path = inr clips ->
  exists st, I st /\ w_clips st = clips.
Proof.
  intros H0. unfold _parse_aaf_file. destruct (negb (AAF_SUPPORT aaf2)); [discriminate|].
  destruct (aaf2_open aaf2 file_path) as [e|f]; [discriminate|].
  intros H. inversion H; subst; clear H.
  set (walk := fun st seg => _extract_clips_from_segment fs udb seg file_path st).
  assert (Hwalk : forall st seg, I st -> I (walk st seg)).
  { intros st seg Hst. now apply walker_inv. }
  assert (H1 : I (fold_left (walk_mob_slots fs udb file_path) (aaf_mobs f) (mkWalkState [] []))).
  { apply (fold_left_inv I); [|exact H0].
    intros st mob Hst. unfold walk_mob_slots. destruct (n_slots mob) as [slots|]; [|exact Hst].
    apply (fold_left_inv I); [|exact Hst].
    intros st' slot Hst'. destruct (s_segment slot); [|exact Hst']. now apply Hwalk. }
  assert (H2 : I (fold_left walk (aaf_toplevel f)
               (fold_left (walk_mob_slots fs udb file_path) (aaf_mobs f) (mkWalkState [] [])))).
  { apply (fold_left_inv I); [|exact H1]. intros st seg Hst. now apply Hwalk. }
  fold walk.
  destruct (w_clips (fold_left walk (aaf_toplevel f) _)) eqn:E.
  - eexists. split; [|reflexivity].
    apply (fold_left_inv I); [|exact H2]. intros st mob Hst. now apply I_fallback.
  - eexists. split; [exact H2|reflexivity].
Qed.

End WalkInvariant.

(* ================================================================== *)
(** ** One clip for each source of the graph format *)

Lemma walker_clip_id fs udb segment source_mob p n clip :
  walker_clip fs udb segment source_mob p n = Some clip ->
  clip_id clip = Some (source_id_of source_mob).
Proof.
  unfold walker_clip. destruct (walker_classify source_mob) as [e x].
  destruct (_ || _); [|discriminate]. intros H; inversion H. reflexivity.
Qed.

Lemma NoDup_snoc {A} (l : list A) (x : A) : NoDup l -> ~ In x l -> NoDup (l ++ [x]).
Proof.
  intros Hl Hx. apply NoDup_app; [exact Hl|repeat constructor; intros []|].
  intros y Hy [<-|[]]. contradiction.
Qed.

Section SourceIds.
Variable fs : FileSystem.
Variable udb : UnicodeDB.
Variable file_path : pystr.

Lemma ids_inv_append st clip i :
  ids_recorded st -> clip_id clip = Some i -> ~ In i (w_processed st) ->
  ids_recorded (mkWalkState (w_clips st ++ [clip]) (i :: w_processed st)).
Proof.
  intros [Hd Hp] Hi Hn. split; cbn [w_clips w_processed].
  - rewrite map_app. cbn [map]. apply NoDup_snoc; [exact Hd|].
    intros Hin. apply in_map_iff in Hin as (c & Hc & Hin).
    destruct (Hp c Hin) as (j & Hj & Hj'). rewrite Hi, Hj in Hc. injection Hc as ->.
    contradiction.
  - intros c Hc. apply in_app_iff in Hc as [Hc|[<-|[]]].
    + destruct (Hp c Hc) as (j & Hj & Hj'). exists j. split; [exact Hj|now right].
    + exists i. split; [exact Hi|now left].
Qed.

Lemma ids_inv_processed st i :
  ids_recorded st -> ids_recorded (mkWalkState (w_clips st) (i :: w_processed st)).
Proof.
  intros [Hd Hp]. split; [exact Hd|]. cbn [w_clips w_processed]. intros c Hc.
  destruct (Hp c Hc) as (j & Hj & Hj'). exists j. split; [exact Hj|now right].
Qed.

Lemma walker_source_ids segment st st' :
  walker_source fs udb segment file_path st = Some st' -> ids_recorded st -> ids_recorded st'.
Proof.
  unfold walker_source. destruct (n_mob segment) as [source_mob|].
  - destruct (str_in _ _) eqn:E; [discriminate|]. apply str_in_not_In in E.
    destruct (walker_clip _ _ _ _ _ _) as [clip|] eqn:Ec; intros H; inversion H; subst.
    + intros Hst. apply ids_inv_append; [exact Hst| |exact E].
      eapply walker_clip_id; eauto.
    + now apply ids_inv_processed.
  - intros H; inversion H; subst; auto.
Qed.

Lemma fallback_mob_ids st mob : ids_recorded st -> ids_recorded (fallback_mob fs file_path st mob).
Proof.
  intros Hst. unfold fallback_mob.
  destruct (n_name mob), (n_mob_id mob); try exact Hst;
    (destruct (fallback_media _); [|exact Hst];
     destruct (str_in _ _) eqn:E; [exact Hst|]; apply str_in_not_In in E;
     apply ids_inv_append; [exact Hst|reflexivity|exact E]).
Qed.

Lemma parse_aaf_ids aaf2 clips :
  _parse_aaf_file fs udb aaf2 file_path = inr clips -> NoDup (map clip_id clips).
Proof.
  intros H.
  apply (parse_aaf_inv fs udb aaf2 file_path ids_recorded walker_source_ids fallback_mob_ids) in H
    as (st & [Hd _] & <-); [exact Hd|].
  split; [constructor|intros c []].
Qed.

End SourceIds.

Lemma validate_clip_id fs clip : clip_id (fst (validate_clip fs clip)) = clip_id clip.
Proof.
  destruct (validate_clip_cases fs clip) as [H|[msg [H _]]]; rewrite H; reflexivity.
Qed.

Lemma validate_clips_ids fs l :
  map clip_id (fst (validate_clips fs l)) = map clip_id l.
Proof.
  induction l as [|c r IH]; [reflexivity|].
  rewrite validate_clips_cons. cbn [fst map]. now rewrite validate_clip_id, IH.
Qed.

Lemma validation_clip_map_get_unique l clip i :
  NoDup (map clip_id l) -> In clip l -> clip_id clip = Some i -> truthy_str i = true ->
  validation_clip_map_get l i = Some clip.
Proof.
  induction l as [|c r IH]; intros Hd Hin Hi Ht; [destruct Hin|].
  cbn [map] in Hd. apply NoDup_cons_iff in Hd as [Hc Hd].
  cbn [validation_clip_map_get]. destruct Hin as [->|Hin].
  - destruct (validation_clip_map_get r i) as [c'|] eqn:E.
    + exfalso. apply Hc. rewrite Hi.
      clear - E. induction r as [|x r IH]; [discriminate|].
      cbn [validation_clip_map_get] in E. cbn [map].
      destruct (validation_clip_map_get r i); [right; now apply IH|].
      destruct (clip_id x) as [j|] eqn:Ej; [|discriminate].
      destruct (truthy_str j); [|discriminate]. simpl in E.
      destruct (pystr_eqb j i) eqn:Eq; [|discriminate].
      apply pystr_eqb_eq in Eq. subst. now left.
    + rewrite Hi, Ht, pystr_eqb_refl. reflexivity.
  - now rewrite (IH Hd Hin Hi Ht).
Qed.

(** X4. In the graph format every source gives at most one clip: no two clips
    that [_parse_aaf_file] returns share a [clip_id] (the set
    [processed_sources] of the walk and of the fallback pass). The
    validation keeps the ids, so the map [validation_clip_map] of the
    timeline holds each validated clip under its own id, when that id is not
    the empty string. *)
Theorem aaf_one_clip_per_source (fs : FileSystem) (udb : UnicodeDB) (aaf2 : Aaf2)
    (file_path : pystr) (clips : list MediaClip) :
  _parse_aaf_file fs udb aaf2 file_path = inr clips ->
  NoDup (map clip_id clips)
  /\ forall clip i,
       In clip (fst (validate_clips fs clips)) ->
       clip_id clip = Some i -> i <> [] ->
       validation_clip_map_get (fst (validate_clips fs clips)) i = Some clip.
Proof.
  intros H. apply parse_aaf_ids in H. split; [exact H|].
  intros clip i Hin Hi Hne. apply validation_clip_map_get_unique; auto.
  - now rewrite validate_clips_ids.
  - destruct i; [congruence|reflexivity].
Qed.

(* ================================================================== *)
(** ** Clip names *)

Lemma prefixed_not_nil (prefix : string) rest : str prefix <> [] -> str prefix ++ rest <> [].
Proof. intros H E. apply app_eq_nil in E as [E _]. contradiction. Qed.

Lemma walker_clip_name_not_nil udb segment source_mob n :
  walker_clip_name udb segment source_mob n <> [].
Proof.
  unfold walker_clip_name.
  match goal with |- match ?x with _ => _ end <> [] => destruct x as [s|] end.
  - destruct (negb (truthy_str s) || str_in (lower udb s) generic_names) eqn:E.
    + apply prefixed_not_nil. discriminate.
    + apply orb_false_iff in E as [E _]. destruct s; [discriminate|discriminate].
  - apply prefixed_not_nil. discriminate.
Qed.

Lemma walker_source_names fs udb p segment st st' :
  walker_source fs udb segment p st = Some st' ->
  Forall (fun c => name c <> []) (w_clips st) -> Forall (fun c => name c <> []) (w_clips st').
Proof.
  apply walker_source_Forall. clear. intros segment source_mob n clip.
  unfold walker_clip. destruct (walker_classify source_mob) as [e x].
  destruct (_ || _); [|discriminate]. intros H; inversion H.
  cbn [name MediaClip_new]. apply walker_clip_name_not_nil.
Qed.

Lemma fallback_mob_names fs p st mob :
  Forall (fun c => name c <> []) (w_clips st) ->
  Forall (fun c => name c <> []) (w_clips (fallback_mob fs p st mob)).
Proof.
  intros Hst. unfold fallback_mob.
  destruct (n_name mob), (n_mob_id mob); try exact Hst;
    (destruct (fallback_media _); [|exact Hst];
     destruct (str_in _ _); [exact Hst|];
     cbn [w_clips]; apply Forall_app; split; [exact Hst|];
     constructor; [|constructor]; cbn [name MediaClip_new];
     try apply str_or_not_nil; apply prefixed_not_nil; discriminate).
Qed.

(** X5. No parsed clip is nameless: every clip that [_parse_omf_file] or
    [_parse_aaf_file] returns has a non-empty [name] (the base name of the
    path, the name of the segment, of the source or of its descriptor, or
    else a generated ["Audio Clip N"], ["Audio Reference N"] or ["Clip_N"]). *)
Theorem parsed_clip_names_not_empty (fs : FileSystem) (rt : Runtime) (aaf2 : Aaf2)
    (file_path : pystr) (clips : list MediaClip) :
  fst (_parse_omf_file fs rt file_path) = inr clips
  \/ _parse_aaf_file fs (rt_unicode rt) aaf2 file_path = inr clips ->
  Forall (fun clip => name clip <> []) clips.
Proof.
  intros [H|H].
  - destruct (_parse_omf_file fs rt file_path) as [r ev] eqn:E. cbn [fst] in H. subst r.
    apply Forall_forall. intros clip Hin. apply In_nth_error in Hin as (k & Hk).
    apply parse_omf_numbered in E as [[Hn _]|Hn].
    + destruct (Hn k clip Hk) as (q & -> & _). cbn [name MediaClip_new].
      apply str_or_not_nil, prefixed_not_nil. discriminate.
    + destruct (Hn k clip Hk) as (q & -> & _). unfold aggressive_clip. cbn [name MediaClip_new].
      apply str_or_not_nil, prefixed_not_nil. discriminate.
  - apply (parse_aaf_inv fs (rt_unicode rt) aaf2 file_path
             (fun st => Forall (fun c => name c <> []) (w_clips st))) in H
      as (st & Hst & <-); [exact Hst| | |constructor].
    + intros segment st st'. apply walker_source_names.
    + intros st mob. apply fallback_mob_names.
Qed.

(* ================================================================== *)
(** ** The exceptions of the validation *)

Lemma parse_omf_raises fs rt file_path e :
  fst (_parse_omf_file fs rt file_path) = inl e -> exn_cls e = ValueError.
Proof.
  unfold _parse_omf_file.
  destruct (match fs_getsize fs file_path with
            | Some file_size => if (MAX_OMF_SIZE <? file_size)%Z then Some file_size else None
            | None => None
            end); [intros H; inversion H; reflexivity|].
  destruct (fs_open fs file_path) as [e'|f]; [intros H; inversion H; reflexivity|].
  destruct (parse_omf_opened fs rt f _ file_path). discriminate.
Qed.

Lemma parse_aaf_raises fs udb aaf2 file_path e :
  _parse_aaf_file fs udb aaf2 file_path = inl e ->
  (exn_cls e = ImportError /\ AAF_SUPPORT aaf2 = false)
  \/ (exn_cls e = ValueError /\ AAF_SUPPORT aaf2 = true).
Proof.
  unfold _parse_aaf_file. destruct (AAF_SUPPORT aaf2); cbn [negb].
  - destruct (aaf2_open aaf2 file_path); [|discriminate].
    intros H; inversion H. now right.
  - intros H; inversion H. now left.
Qed.

(** X6. [validate_omf_aaf_media] raises [FileNotFoundError], with the path
    in its message, for every path that does not exist, whatever its
    extension. For a path that exists it raises nothing but [ValueError],
    except that the [ImportError] of [_parse_aaf_file] passes through it
    unwrapped: that one is raised exactly when the file is typed [aaf] and
    the [aaf2] library is missing. *)
Theorem validation_exceptions (fs : FileSystem) (rt : Runtime) (aaf2 : Aaf2)
    (file_path : pystr) :
  (fs_exists fs file_path = false ->
   validate_omf_aaf_media fs rt aaf2 file_path
   = inl (mkExn FileNotFoundError (str "The specified file does not exist: " ++ file_path)))
  /\ (forall e,
        fs_exists fs file_path = true ->
        validate_omf_aaf_media fs rt aaf2 file_path = inl e ->
        exn_cls e = ValueError
        \/ (exn_cls e = ImportError
            /\ _detect_file_type fs rt file_path = inr aaf /\ AAF_SUPPORT aaf2 = false))
  /\ (fs_exists fs file_path = true ->
      _detect_file_type fs rt file_path = inr aaf -> AAF_SUPPORT aaf2 = false ->
      exists e, validate_omf_aaf_media fs rt aaf2 file_path = inl e
                /\ exn_cls e = ImportError).
Proof.
  unfold validate_omf_aaf_media. repeat split.
  - intros ->. reflexivity.
  - intros e -> . cbn [negb].
    destruct (_detect_file_type fs rt file_path) as [e'|[|]].
    + intros H; inversion H. now left.
    + destruct (_parse_aaf_file fs (rt_unicode rt) aaf2 file_path) as [e'|clips] eqn:E;
        [|discriminate].
      intros H; inversion H; subst.
      apply parse_aaf_raises in E as [[E1 E2]|[E1 E2]]; [right|left]; auto.
    + destruct (fst (_parse_omf_file fs rt file_path)) as [e'|clips] eqn:E; [|discriminate].
      intros H; inversion H; subst. left. eapply parse_omf_raises; eauto.
  - intros -> -> Hs. cbn [negb]. unfold _parse_aaf_file. rewrite Hs. cbn [negb].
    eexists. split; reflexivity.
Qed.

(* ================================================================== *)
(** ** Where the aggressive fallback starts a path *)

Lemma find_path_start_at_separator prefix b tail :
  is_path_start_byte b = true ->
  forallb (fun x => negb (is_path_start_byte x)) tail = true ->
  length tail <= 50 ->
  forall t, t <= length tail ->
    find_path_start (prefix ++ b :: tail) (length prefix + 1 + t) = Z.of_nat (length prefix).
Proof.
  intros Hb Ht Hlen. induction t as [|t IH]; intros Hle.
  - replace (length prefix + 1 + 0) with (S (length prefix)) by lia.
    cbn [find_path_start]. rewrite nth_error_app2 by lia.
    rewrite Nat.sub_diag. cbn [nth_error]. now rewrite Hb.
  - replace (length prefix + 1 + S t) with (S (length prefix + 1 + t)) by lia.
    cbn [find_path_start]. rewrite nth_error_app2 by lia.
    replace (length prefix + 1 + t - length prefix) with (S t) by lia.
    cbn [nth_error].
    destruct (nth_error tail t) as [x|] eqn:Ex; [|apply nth_error_None in Ex; lia].
    assert (Hx : is_path_start_byte x = false).
    { rewrite forallb_forall in Ht. apply nth_error_In in Ex.
      apply Ht in Ex. now apply negb_true_iff in Ex. }
    rewrite Hx, length_app. cbn [length].
    destruct (Z.ltb_spec (Z.of_nat (length prefix + 1 + t))
                (Z.of_nat (length prefix + S (length tail)) - 50)); [lia|].
    apply IH. lia.
Qed.

Lemma find_path_start_no_separator m :
  (forall j b, length m - 51 <= j -> nth_error m j = Some b -> is_path_start_byte b = false) ->
  forall k, k <= length m -> length m - 50 <= k -> find_path_start m k = 0%Z.
Proof.
  intros H. induction k as [|i IH]; intros Hk Hlow; [reflexivity|].
  cbn [find_path_start].
  destruct (nth_error m i) as [b|] eqn:Eb; [|apply nth_error_None in Eb; lia].
  rewrite (H i b) by (auto; lia).
  destruct (Z.ltb_spec (Z.of_nat i) (Z.of_nat (length m) - 50)); [reflexivity|].
  apply IH; lia.
Qed.

(** X7. The backward search of [_aggressive_omf_parse] for the start of a
    path returns the index of the last byte of the match that is a
    backslash, a slash or a colon, when at most 50 bytes follow it, and 0
    when none of the last 51 bytes is one: [potential_path] begins at that
    last separator, and the directories before it are left out. *)
Theorem aggressive_path_start :
  (forall prefix b tail,
      is_path_start_byte b = true ->
      forallb (fun x => negb (is_path_start_byte x)) tail = true ->
      length tail <= 50 ->
      let match_bytes := prefix ++ b :: tail in
      find_path_start match_bytes (length match_bytes) = Z.of_nat (length prefix)
      /\ skipn (Z.to_nat (find_path_start match_bytes (length match_bytes))) match_bytes
         = b :: tail)
  /\ (forall match_bytes,
        (forall j b, length match_bytes - 51 <= j -> nth_error match_bytes j = Some b ->
                     is_path_start_byte b = false) ->
        find_path_start match_bytes (length match_bytes) = 0%Z).
Proof.
  split.
  - intros prefix b tail Hb Ht Hlen match_bytes.
    assert (E : find_path_start match_bytes (length match_bytes) = Z.of_nat (length prefix)).
    { unfold match_bytes. rewrite length_app. cbn [length].
      replace (length prefix + S (length tail)) with (length prefix + 1 + length tail) by lia.
      now apply find_path_start_at_separator. }
    split; [exact E|]. rewrite E, Nat2Z.id. unfold match_bytes.
    rewrite skipn_app, skipn_all, Nat.sub_diag. reflexivity.
  - intros match_bytes H. apply find_path_start_no_separator; [exact H| |]; lia.
Qed.

(* ================================================================== *)
(** ** The text report *)



Lemma build_report_missing fs rt aaf2 ft p all_clips :
  missing_clip_details (build_report fs rt aaf2 ft p all_clips)
  = snd (validate_clips fs all_clips).
Proof.
  unfold build_report. destruct (validate_clips fs all_clips) as [clips' missing].
  destruct (match ft with
            | aaf => if AAF_SUPPORT aaf2 then aaf2_timeline aaf2 p clips' else ([], 0%float)
            | omf => _extract_timeline_clips_from_omf fs (rt_unicode rt) p clips'
            end) as [tl total].
  reflexivity.
Qed.





(* ================================================================== *)
(** ** The exit status *)

(** X10. The command line exits with status 0 or 1, and with 0 exactly when
    it was given a path, the validation returned a report and every clip of
    the report is valid; in that case only the report goes to the standard
    output. A missing argument, any exception of the validation and any
    missing clip give status 1. *)
Theorem main_exit_status (fs : FileSystem) (rt : Runtime) (aaf2 : Aaf2) (argv : list pystr) :
  (m_status (main fs rt aaf2 argv) = 0%Z \/ m_status (main fs rt aaf2 argv) = 1%Z)
  /\ (m_status (main fs rt aaf2 argv) = 0%Z
      <-> exists prog file_path rest report,
            argv = prog :: file_path :: rest
            /\ validate_omf_aaf_media fs rt aaf2 file_path = inr report
            /\ valid_clips report = total_clips report)
  /\ (m_status (main fs rt aaf2 argv) = 0%Z ->
      m_stderr (main fs rt aaf2 argv) = None
      /\ exists report, m_json (main fs rt aaf2 argv) = Some report
                        /\ missing_clip_details report = []).
Proof.
  unfold main.
  destruct argv as [|prog [|file_path rest]].
  - cbn [m_status]. split; [now right|]. split; [|discriminate].
    split; [discriminate|]. intros (a & b & c & d & E & _). discriminate.
  - cbn [m_status]. split; [now right|]. split; [|discriminate].
    split; [discriminate|]. intros (a & b & c & d & E & _). discriminate.
  - destruct (validate_omf_aaf_media fs rt aaf2 file_path) as [e|report] eqn:Ev.
    + cbn [m_status]. split; [now right|]. split; [|discriminate].
      split; [discriminate|]. intros (a & b & c & d & E & Hv & _).
      injection E as -> -> ->. congruence.
    + pose proof Ev as Hp. apply validate_report_parsed in Hp as (ft & all_clips & Hf & Er).
      destruct (build_report_counts fs rt aaf2 ft file_path all_clips Hf) as (_ & Hv & Hm).
      rewrite <- Er in Hv, Hm.
      cbn [m_status m_stderr m_json].
      destruct (Z.ltb_spec 0 (missing_clips report)) as [Hlt|Hge].
      * split; [now right|]. split; [|discriminate].
        split; [discriminate|]. intros (a & b & c & d & E & Hd & Hvt).
        injection E as -> -> ->. rewrite Ev in Hd. injection Hd as <-. lia.
      * split; [now left|]. split.
        -- split; [|reflexivity]. intros _. exists prog, file_path, rest, report.
           split; [reflexivity|]. split; [exact Ev|lia].
        -- intros _. split; [reflexivity|]. exists report. split; [reflexivity|].
           destruct (missing_clip_details report); [reflexivity|]. simpl length in Hm. lia.
Qed.

(* ================================================================== *)
(** ** Timeline of the graph format *)

Section TimelineWalkFacts.
Variable udb : UnicodeDB.
Variable validation_clips : list MediaClip.

Lemma timeline_clip_name_not_nil segment_name source_mob matched_clip n :
  timeline_clip_name udb segment_name source_mob matched_clip n <> [].
Proof.
  unfold timeline_clip_name.
  match goal with |- match ?x with _ => _ end <> [] => destruct x as [s|] end.
  - destruct s; cbn [truthy_str]; [|discriminate]. apply prefixed_not_nil. discriminate.
  - apply prefixed_not_nil. discriminate.
Qed.

Lemma timeline_source_clip segment_name start length source_mob track pos rate clips r :
  timeline_source udb segment_name start length source_mob track pos rate
    validation_clips clips = Some r ->
  exists clip, fst r = clips ++ [clip]
               /\ clip_id clip = Some (source_id_of source_mob)
               /\ track_index clip = track
               /\ timeline_clip_of validation_clips clip.
Proof.
  unfold timeline_source. destruct (segment_timing start length) as [s l].
  destruct (py_div s rate) as [offset|]; [|discriminate].
  intros H. inversion H; subst; clear H. cbn [fst].
  eexists. split; [reflexivity|].
  unfold aaf_timeline_clip.
  destruct (aaf_name_match udb _ _) as [nm ex].
  cbn [clip_id track_index]. split; [reflexivity|]. split; [reflexivity|].
  exists (source_id_of source_mob). cbn [clip_id name error_message is_embedded external_path is_valid].
  split; [reflexivity|]. split; [apply timeline_clip_name_not_nil|]. split; [reflexivity|].
  destruct (validation_clip_map_get validation_clips (source_id_of source_mob)); auto.
Qed.

Variable P : MediaClip -> Prop.
Hypothesis P_source :
  forall segment_name start length source_mob track pos rate clips r clip,
    timeline_source udb segment_name start length source_mob track pos rate
      validation_clips clips = Some r ->
    fst r = clips ++ [clip] -> P clip.

Lemma timeline_walk_Forall segment :
  forall track pos rate depth clips,
    Forall P clips ->
    Forall P (_extract_timeline_clips_from_segment udb segment track pos rate
                validation_clips depth clips).
Proof.
  revert segment. fix IH 1. intros segment track pos rate depth clips Hc.
  destruct segment as [nm mob start len comps segs].
  cbn [_extract_timeline_clips_from_segment].
  destruct (MAX_DEPTH <? depth)%Z; [exact Hc|].
  assert (Hsrc : forall r,
            match mob with
            | Some source_mob =>
                timeline_source udb nm start len source_mob track pos rate validation_clips clips
            | None => Some (clips, pos)
            end = Some r -> Forall P (fst r)).
  { intros r. destruct mob as [source_mob|].
    - intros E. destruct (timeline_source_clip _ _ _ _ _ _ _ _ _ E) as (clip & Hr & _).
      rewrite Hr. apply Forall_app. split; [exact Hc|].
      constructor; [|constructor]. eapply P_source; eauto.
    - intros E. inversion E. exact Hc. }
  destruct (match mob with Some _ => _ | None => _ end) as [[clips1 pos1]|]; [|exact Hc].
  specialize (Hsrc _ eq_refl). cbn [fst] in Hsrc. clear Hc.
  assert (Hcomps :
    forall (l : list Segment) c, Forall P c ->
      Forall P (fst
        ((fix over_components (l : list Segment) (clips : list MediaClip)
            : list MediaClip * bool :=
            match l with
            | [] => (clips, false)
            | comp :: r =>
                match py_div (float_attr_or_zero (sg_start comp)) rate with
                | None => (clips, true)
                | Some offset =>
                    over_components r
                      (_extract_timeline_clips_from_segment udb comp track
                         (PrimFloat.add pos1 offset) rate validation_clips (depth + 1) clips)
                end
            end) l c))).
  { clear - IH. induction l as [|comp r IHl]; intros c Hc; [exact Hc|].
    destruct (py_div (float_attr_or_zero (sg_start comp)) rate); [|exact Hc].
    apply IHl. now apply IH. }
  assert (Hsegs :
    forall (l : list Segment) c, Forall P c ->
      Forall P
        ((fix over_segments (l : list Segment) (clips : list MediaClip) : list MediaClip :=
            match l with
            | [] => clips
            | seg :: r =>
                over_segments r
                  (_extract_timeline_clips_from_segment udb seg track pos1 rate
                     validation_clips (depth + 1) clips)
            end) l c)).
  { clear - IH. induction l as [|seg r IHl]; intros c Hc; [exact Hc|].
    apply IHl. now apply IH. }
  destruct comps as [comp_list|].
  - specialize (Hcomps comp_list clips1 Hsrc).
    destruct ((fix over_components (l : list Segment) (clips : list MediaClip)
                 : list MediaClip * bool := _) comp_list clips1) as [clips2 raised].
    cbn [fst] in Hcomps. destruct raised; [exact Hcomps|].
    destruct segs as [seg_list|]; [now apply Hsegs|exact Hcomps].
  - destruct segs as [seg_list|]; [now apply Hsegs|exact Hsrc].
Qed.

Lemma timeline_slots_Forall rate slots : forall track acc,
  Forall P (tc_clips acc) ->
  Forall P (tc_clips (timeline_slots udb rate validation_clips slots track acc)).
Proof.
  induction slots as [|slot rest IH]; intros track acc Hacc; [exact Hacc|].
  cbn [timeline_slots]. destruct (tl_segment slot) as [segment|]; [|now apply IH].
  destruct (py_div _ rate) as [pos|]; [|exact Hacc].
  apply IH. cbn [tc_clips]. now apply timeline_walk_Forall.
Qed.

Lemma timeline_aaf_Forall aaf2 toplevel file_path :
  Forall P (fst (_extract_timeline_clips_from_aaf udb aaf2 toplevel file_path validation_clips)).
Proof.
  unfold _extract_timeline_clips_from_aaf.
  destruct (negb (AAF_SUPPORT aaf2)); [constructor|].
  destruct (toplevel file_path) as [e|compositions]; [constructor|]. cbn [fst].
  apply (fold_left_inv (fun acc => Forall P (tc_clips acc))); [|constructor].
  intros acc composition Hacc. unfold timeline_composition.
  destruct (co_slots composition) as [slots|]; [|exact Hacc].
  now apply timeline_slots_Forall.
Qed.

End TimelineWalkFacts.

Lemma aaf_timeline_Forall_of udb aaf2 toplevel file_path validation_clips :
  Forall (timeline_clip_of validation_clips)
         (fst (_extract_timeline_clips_from_aaf udb aaf2 toplevel file_path validation_clips)).
Proof.
  apply timeline_aaf_Forall.
  intros segment_name start length source_mob track pos rate clips r clip E Hr.
  destruct (timeline_source_clip udb validation_clips _ _ _ _ _ _ _ _ _ E) as (c & Hc & _ & _ & H).
  rewrite Hr in Hc. apply app_inj_tail in Hc as [_ <-]. exact H.
Qed.

(** X11. Every clip of the timeline that [_extract_timeline_clips_from_aaf]
    returns has the id of its source and a non-empty name, and takes
    [is_embedded], [external_path] and [is_valid] from the validation clip
    of the same id (linked, no path and valid when no validation clip has
    that id); its [error_message] is [None] also when it is invalid. Without
    the [aaf2] library, or when the file cannot be opened, the timeline is
    empty and its duration [0.0]. *)
Theorem aaf_timeline_clips_inherit_verdict (udb : UnicodeDB) (aaf2 : Aaf2)
    (toplevel : pystr -> result (list Composition))
    (file_path : pystr) (validation_clips : list MediaClip) :
  Forall (fun clip =>
            exists source_id,
              clip_id clip = Some source_id /\ name clip <> [] /\ error_message clip = None
              /\ match validation_clip_map_get validation_clips source_id with
                 | Some matched =>
                     is_embedded clip = is_embedded matched
                     /\ external_path clip = external_path matched
                     /\ is_valid clip = is_valid matched
                 | None =>
                     is_embedded clip = false /\ external_path clip = None
                     /\ is_valid clip = true
                 end)
         (fst (_extract_timeline_clips_from_aaf udb aaf2 toplevel file_path validation_clips))
  /\ (AAF_SUPPORT aaf2 = false \/ (exists e, toplevel file_path = inl e) ->
      _extract_timeline_clips_from_aaf udb aaf2 toplevel file_path validation_clips
      = ([], 0%float)).
Proof.
  split; [exact (aaf_timeline_Forall_of udb aaf2 toplevel file_path validation_clips)|].
  unfold _extract_timeline_clips_from_aaf. intros [-> |[e ->]]; [reflexivity|].
  now destruct (negb (AAF_SUPPORT aaf2)).
Qed.

Lemma py_div_zero a rate : PrimFloat.eqb rate 0%float = true -> py_div a rate = None.
Proof. unfold py_div. now intros ->. Qed.

Lemma py_div_nonzero a rate :
  PrimFloat.eqb rate 0%float = false -> py_div a rate = Some (PrimFloat.div a rate).
Proof. unfold py_div. now intros ->. Qed.

Lemma timeline_slots_zero_rate udb rate validation_clips slots :
  PrimFloat.eqb rate 0%float = true ->
  forall track acc, timeline_slots udb rate validation_clips slots track acc = acc.
Proof.
  intros Hz. induction slots as [|slot rest IH]; intros track acc; [reflexivity|].
  cbn [timeline_slots]. destruct (tl_segment slot); [|apply IH].
  now rewrite py_div_zero.
Qed.

(** X12. A composition whose edit rate is zero gives the timeline nothing:
    the first division by it raises, the [except] of the loop skips the
    composition, and [_extract_timeline_clips_from_aaf] returns what it
    returns without that composition. *)
Theorem aaf_timeline_zero_edit_rate (udb : UnicodeDB) (aaf2 : Aaf2)
    (file_path : pystr) (validation_clips : list MediaClip)
    (before after : list Composition) (rate : float) (slots : option (list TimelineSlot)) :
  PrimFloat.eqb rate 0%float = true ->
  _extract_timeline_clips_from_aaf udb aaf2
    (fun _ => inr (before ++ mkComposition (FloatAttr rate) slots :: after))
    file_path validation_clips
  = _extract_timeline_clips_from_aaf udb aaf2 (fun _ => inr (before ++ after))
      file_path validation_clips.
Proof.
  intros Hz. unfold _extract_timeline_clips_from_aaf.
  destruct (negb (AAF_SUPPORT aaf2)); [reflexivity|].
  rewrite !fold_left_app. cbn [fold_left].
  replace (timeline_composition udb validation_clips
             (fold_left (timeline_composition udb validation_clips) before
                (mkTimelineAcc [] 0%float))
             (mkComposition (FloatAttr rate) slots))
    with (fold_left (timeline_composition udb validation_clips) before
            (mkTimelineAcc [] 0%float)); [reflexivity|].
  unfold timeline_composition. cbn [co_edit_rate co_slots].
  destruct slots as [l|]; [|reflexivity].
  symmetry. now apply timeline_slots_zero_rate.
Qed.

Lemma plain_source_clip_walk udb validation_clips comp track pos rate depth clips :
  plain_source_clip comp -> PrimFloat.eqb rate 0%float = false -> (depth <= MAX_DEPTH)%Z ->
  exists clip,
    _extract_timeline_clips_from_segment udb comp track pos rate validation_clips depth clips
    = clips ++ [clip].
Proof.
  intros (Hm & Hc & Hs) Hr Hd.
  destruct comp as [nm mob start len comps segs]. cbn [sg_mob sg_components sg_segments] in *.
  subst comps segs. destruct mob as [source_mob|]; [|congruence].
  cbn [_extract_timeline_clips_from_segment].
  destruct (Z.ltb_spec MAX_DEPTH depth); [lia|].
  unfold timeline_source. destruct (segment_timing start len) as [s l].
  rewrite (py_div_nonzero _ _ Hr). eexists. reflexivity.
Qed.

(** X13. The timeline walk does not remove repeated sources: a sequence
    whose components are [n] plain source clips gives [n] timeline clips, also
    when all of them refer to the same source (the edit rate not zero, the
    sequence at a depth below 20). *)
Theorem aaf_timeline_keeps_repeats (udb : UnicodeDB) (validation_clips : list MediaClip)
    (segment_name : option pystr) (start length : float_attr) (comps : list Segment)
    (track : Z) (pos rate : float) (depth : Z) (clips : list MediaClip) :
  Forall plain_source_clip comps ->
  PrimFloat.eqb rate 0%float = false -> (depth < MAX_DEPTH)%Z ->
  List.length
    (_extract_timeline_clips_from_segment udb
       (mkSegment segment_name None start length (Some comps) None)
       track pos rate validation_clips depth clips)
  = List.length clips + List.length comps.
Proof.
  intros Hp Hr Hd. cbn [_extract_timeline_clips_from_segment].
  destruct (Z.ltb_spec MAX_DEPTH depth); [lia|].
  assert (Hloop :
    forall (l : list Segment) c, Forall plain_source_clip l ->
      exists c2,
        (fix over_components (l : list Segment) (clips : list MediaClip)
           : list MediaClip * bool :=
           match l with
           | [] => (clips, false)
           | comp :: r =>
               match py_div (float_attr_or_zero (sg_start comp)) rate with
               | None => (clips, true)
               | Some offset =>
                   over_components r
                     (_extract_timeline_clips_from_segment udb comp track
                        (PrimFloat.add pos offset) rate validation_clips (depth + 1) clips)
               end
           end) l c = (c2, false)
        /\ List.length c2 = List.length c + List.length l).
  { intros l c Hl. revert c. induction Hl as [|comp r Hc Hrest IH]; intros c.
    - exists c. split; [reflexivity|]. cbn. lia.
    - rewrite (py_div_nonzero _ _ Hr).
      destruct (plain_source_clip_walk udb validation_clips comp track
                  (PrimFloat.add pos (PrimFloat.div (float_attr_or_zero (sg_start comp)) rate))
                  rate (depth + 1) c Hc Hr ltac:(lia)) as (clip & ->).
      destruct (IH (c ++ [clip])) as (c2 & E & Hl).
      exists c2. split; [exact E|]. rewrite length_app in Hl. cbn [List.length] in *. lia. }
  destruct (Hloop comps clips Hp) as (c2 & -> & Hl). exact Hl.
Qed.

(* ================================================================== *)
(** ** The type of a file by its extension *)

Lemma rfind_from_lt c s idx last :
  (last < idx)%Z -> (rfind_from c s idx last < idx + Z.of_nat (List.length s))%Z.
Proof.
  revert idx last. induction s as [|x s IH]; intros idx last H; cbn [rfind_from List.length].
  - lia.
  - destruct (char_eqb x c).
    + specialize (IH (idx + 1)%Z idx). lia.
    + specialize (IH (idx + 1)%Z last). lia.
Qed.

Lemma splitext_scan_finds p dotIndex target :
  forall gap filenameIndex fuel x,
    (filenameIndex + Z.of_nat gap = target)%Z -> (0 <= filenameIndex)%Z ->
    (target < dotIndex)%Z -> gap < fuel ->
    nth_error p (Z.to_nat target) = Some x -> x <> posixpath.extsep ->
    (Z.to_nat target < List.length p) ->
    posixpath.splitext_scan p dotIndex filenameIndex fuel
    = Some (slice_to dotIndex p, slice_from dotIndex p).
Proof.
  induction gap as [|gap IH]; intros f fuel x Hf H0 Hd Hfuel Hx Hne Hlen;
    (destruct fuel as [|fuel]; [lia|]); cbn [posixpath.splitext_scan].
  - replace f with target by lia.
    destruct (Z.ltb_spec target dotIndex); [|lia]. rewrite Hx.
    destruct (char_eqb x posixpath.extsep) eqn:E; [apply char_eqb_eq in E; contradiction|].
    reflexivity.
  - destruct (Z.ltb_spec f dotIndex); [|lia].
    destruct (nth_error p (Z.to_nat f)) as [c|] eqn:Ec; [|reflexivity].
    destruct (negb (char_eqb c posixpath.extsep)); [reflexivity|].
    apply (IH (f + 1)%Z fuel x); auto; lia.
Qed.

(** The extension of a file name that has a character other than a dot
    before its last dot. *)
Lemma splitext_ext head x rest e :
  x <> posixpath.extsep -> x <> posixpath.sep ->
  ~ In posixpath.sep rest -> ~ In posixpath.sep e -> ~ In posixpath.extsep e ->
  posixpath.splitext (head ++ x :: rest ++ posixpath.extsep :: e)
  = (head ++ x :: rest, posixpath.extsep :: e).
Proof.
  intros Hxd Hxs Hrs Hes Hed. unfold posixpath.splitext, rfind.
  set (p := head ++ x :: rest ++ posixpath.extsep :: e).
  assert (Hdot : rfind_from posixpath.extsep p 0 (-1) = Z.of_nat (List.length (head ++ x :: rest))).
  { unfold p. replace (head ++ x :: rest ++ posixpath.extsep :: e)
      with ((head ++ x :: rest) ++ posixpath.extsep :: e) by (now rewrite <- app_assoc).
    rewrite rfind_from_app. cbn [rfind_from].
    rewrite (proj2 (char_eqb_eq posixpath.extsep posixpath.extsep) eq_refl).
    rewrite rfind_from_absent by exact Hed. lia. }
  assert (Hsep : rfind_from posixpath.sep p 0 (-1) = rfind_from posixpath.sep head 0 (-1)).
  { unfold p. rewrite rfind_from_app. apply rfind_from_absent.
    intros [E|Hin]; [congruence|]. apply in_app_iff in Hin as [Hin|[E|Hin]]; auto.
    discriminate E. }
  pose proof (rfind_from_lt posixpath.sep head 0 (-1) ltac:(lia)) as Hlt.
  pose proof (posixpath_facts.rfind_from_ge posixpath.sep head 0 (-1) ltac:(lia)) as Hge.
  rewrite Hdot, Hsep. rewrite length_app in *. cbn [List.length] in *.
  destruct (Z.ltb_spec (rfind_from posixpath.sep head 0 (-1))
              (Z.of_nat (List.length head + S (List.length rest)))); [|lia].
  assert (Hp : List.length p = List.length head + S (List.length rest + S (List.length e))).
  { unfold p. rewrite length_app. cbn [List.length]. rewrite length_app. reflexivity. }
  assert (Hx : nth_error p (Z.to_nat (Z.of_nat (List.length head))) = Some x).
  { unfold p. rewrite Nat2Z.id, nth_error_app2, Nat.sub_diag by lia. reflexivity. }
  rewrite (splitext_scan_finds p (Z.of_nat (List.length head + S (List.length rest)))
             (Z.of_nat (List.length head))
             (Z.to_nat (Z.of_nat (List.length head) - (rfind_from posixpath.sep head 0 (-1) + 1)))
             (rfind_from posixpath.sep head 0 (-1) + 1)%Z (S (List.length p)) x
             ltac:(lia) ltac:(lia) ltac:(lia) ltac:(lia) Hx Hxd ltac:(lia)).
  unfold slice_to, slice_from, p. rewrite Nat2Z.id.
  replace (head ++ x :: rest ++ posixpath.extsep :: e)
    with ((head ++ x :: rest) ++ posixpath.extsep :: e) by (now rewrite <- app_assoc).
  rewrite firstn_app, skipn_app, length_app. cbn [List.length].
  rewrite firstn_all2, skipn_all2 by (rewrite length_app; cbn [List.length]; lia).
  replace (List.length head + S (List.length rest) - (List.length head + S (List.length rest)))
    with 0 by lia.
  cbn [firstn skipn]. now rewrite app_nil_r.
Qed.

Lemma splitext_dot_file dir (e : pystr) :
  ~ In posixpath.sep e -> ~ In posixpath.extsep e ->
  posixpath.splitext (dir ++ posixpath.sep :: posixpath.extsep :: e)
  = (dir ++ posixpath.sep :: posixpath.extsep :: e, []).
Proof.
  intros Hes Hed. unfold posixpath.splitext, rfind.
  rewrite !rfind_from_app. cbn [rfind_from].
  rewrite (proj2 (char_eqb_eq posixpath.sep posixpath.sep) eq_refl).
  rewrite (proj2 (char_eqb_eq posixpath.extsep posixpath.extsep) eq_refl).
  change (char_eqb posixpath.extsep posixpath.sep) with false.
  change (char_eqb posixpath.sep posixpath.extsep) with false.
  rewrite !rfind_from_absent by assumption.
  destruct (Z.ltb_spec (0 + Z.of_nat (List.length dir)) (0 + Z.of_nat (List.length dir) + 1));
    [|lia].
  cbn [posixpath.splitext_scan].
  destruct (Z.ltb_spec (0 + Z.of_nat (List.length dir) + 1) (0 + Z.of_nat (List.length dir) + 1));
    [lia|reflexivity].
Qed.

Lemma ascii_lower_letters e (target : string) :
  forallb is_ascii e = true -> map ascii_lower e = str target ->
  ~ In posixpath.sep (str target) -> ~ In posixpath.extsep (str target) ->
  ~ In posixpath.sep e /\ ~ In posixpath.extsep e.
Proof.
  intros _ Hmap Hs Hd. split; intros Hin.
  - apply Hs. rewrite <- Hmap. apply in_map_iff. exists posixpath.sep. split; [reflexivity|exact Hin].
  - apply Hd. rewrite <- Hmap. apply in_map_iff. exists posixpath.extsep.
    split; [reflexivity|exact Hin].
Qed.

Lemma lower_ascii udb s : forallb is_ascii s = true -> lower udb s = map ascii_lower s.
Proof. unfold lower. now intros ->. Qed.

(** X14. [_detect_file_type] goes by the extension alone when it is [.aaf]
    or [.omf] in any mix of upper and lower case, whatever the file holds
    and also when it cannot be opened: so for every file name that has a
    character other than a dot before its last dot. A file named just
    [.aaf] or [.omf] has no extension: when it cannot be opened the
    function raises [ValueError]. *)
Theorem file_type_by_extension (fs : FileSystem) (rt : Runtime) :
  (forall head x rest e,
      x <> posixpath.extsep -> x <> posixpath.sep -> ~ In posixpath.sep rest ->
      forallb is_ascii e = true ->
      (map ascii_lower e = str "aaf" ->
       _detect_file_type fs rt (head ++ x :: rest ++ posixpath.extsep :: e) = inr aaf)
      /\ (map ascii_lower e = str "omf" ->
          _detect_file_type fs rt (head ++ x :: rest ++ posixpath.extsep :: e) = inr omf))
  /\ (forall dir e err,
        e = str "aaf" \/ e = str "omf" ->
        fs_open fs (dir ++ posixpath.sep :: posixpath.extsep :: e) = inl err ->
        exists msg,
          _detect_file_type fs rt (dir ++ posixpath.sep :: posixpath.extsep :: e)
          = inl (mkExn ValueError msg)).
Proof.
  split.
  - intros head x rest e Hxd Hxs Hrs Ha.
    assert (Hext : forall target : string,
              map ascii_lower e = str target ->
              ~ In posixpath.sep (str target) -> ~ In posixpath.extsep (str target) ->
              lower (rt_unicode rt)
                (snd (posixpath.splitext (head ++ x :: rest ++ posixpath.extsep :: e)))
              = posixpath.extsep :: str target).
    { intros target Hm Hs Hd.
      destruct (ascii_lower_letters e target Ha Hm Hs Hd) as [Hes Hed].
      rewrite splitext_ext by assumption. cbn [snd].
      rewrite lower_ascii by (cbn [forallb]; rewrite Ha; reflexivity).
      cbn [map]. now rewrite Hm. }
    split; intros Hm; unfold _detect_file_type.
    + rewrite (Hext "aaf"%string Hm) by (cbv; intuition discriminate). reflexivity.
    + rewrite (Hext "omf"%string Hm) by (cbv; intuition discriminate). reflexivity.
  - intros dir e err He Hopen. unfold _detect_file_type.
    rewrite splitext_dot_file by (destruct He as [-> | ->]; cbv; intuition discriminate).
    cbn [snd]. rewrite lower_ascii by reflexivity. cbn [map].
    cbn [pystr_eqb]. rewrite Hopen. eexists. reflexivity.
Qed.

(* ================================================================== *)
(** ** The verdict of the validation *)

Lemma validate_clip_verdict fs clip :
  is_valid (fst (validate_clip fs clip)) = is_valid clip && media_present fs clip
  /\ snd (validate_clip fs clip) = negb (media_present fs clip).
Proof.
  unfold validate_clip, validate_embedded_media, media_present.
  destruct (is_embedded clip); cbn [negb orb fst snd]; [now rewrite andb_true_r|].
  destruct (external_path clip) as [p|]; [|cbn; now rewrite andb_false_r].
  destruct (truthy_str p); cbn [negb andb]; [|cbn; now rewrite andb_false_r].
  destruct (fs_exists fs p); cbn [negb andb]; [|cbn; now rewrite andb_false_r].
  destruct (fs_isfile fs p); cbn [negb andb fst snd mark_invalid is_valid];
    [now rewrite andb_true_r|now rewrite andb_false_r].
Qed.

Lemma validate_clips_verdict fs l :
  Forall fresh l ->
  filter is_valid (fst (validate_clips fs l))
  = map (fun c => fst (validate_clip fs c)) (filter (media_present fs) l)
  /\ snd (validate_clips fs l)
     = map (fun c => fst (validate_clip fs c)) (filter (fun c => negb (media_present fs c)) l).
Proof.
  induction 1 as [|c r Hc Hr [IH1 IH2]]; [split; reflexivity|].
  rewrite validate_clips_cons. cbn [fst snd filter].
  destruct (validate_clip_verdict fs c) as [Hv Hm]. rewrite Hv, Hm, Hc. cbn [andb].
  destruct (media_present fs c); cbn [negb map]; rewrite IH1, IH2; split; reflexivity.
Qed.

(** X15. The verdict of [validate_omf_aaf_media] is exact: for the clips a
    parser made, [valid_clips] counts the clips that are embedded or whose
    external path is a non-empty string naming an existing file,
    [missing_clips] counts the others, and [missing_clip_details] holds
    exactly the others, in the order of the parse. *)
Theorem validation_verdict_exact (fs : FileSystem) (rt : Runtime) (aaf2 : Aaf2)
    (ft : file_type) (file_path : pystr) (all_clips : list MediaClip) :
  Forall fresh all_clips ->
  let report := build_report fs rt aaf2 ft file_path all_clips in
  valid_clips report = count_clips (media_present fs) all_clips
  /\ missing_clips report = count_clips (fun clip => negb (media_present fs clip)) all_clips
  /\ missing_clip_details report
     = map (fun clip => fst (validate_clip fs clip))
           (filter (fun clip => negb (media_present fs clip)) all_clips).
Proof.
  intros Hf report.
  destruct (validate_clips_verdict fs all_clips Hf) as [Hv Hm].
  assert (Hd : missing_clip_details report = snd (validate_clips fs all_clips))
    by apply build_report_missing.
  unfold report, build_report in *.
  destruct (validate_clips fs all_clips) as [clips' missing].
  destruct (match ft with
            | aaf => if AAF_SUPPORT aaf2 then aaf2_timeline aaf2 file_path clips' else ([], 0%float)
            | omf => _extract_timeline_clips_from_omf fs (rt_unicode rt) file_path clips'
            end) as [tl total].
  cbn [valid_clips missing_clips missing_clip_details fst snd] in *.
  unfold count_clips. rewrite Hv, Hm, !length_map. repeat split.
Qed.

(* ================================================================== *)
(** ** The timeline of the graph format in the report *)

(** X16. With the timeline walk as the [aaf2_timeline] of the library, the
    report of a graph-format file is coherent: a clip of [timeline_clips]
    and a validated clip of the same file that have the same non-empty
    [clip_id] agree on [is_valid], [external_path] and [is_embedded]. The
    ids of the parsed clips are pairwise distinct, so the map of the
    timeline finds that very clip. *)
Theorem aaf_report_timeline (fs : FileSystem) (rt : Runtime) (aaf2 : Aaf2)
    (toplevel : pystr -> result (list Composition))
    (file_path : pystr) (report : ValidationReport) :
  _detect_file_type fs rt file_path = inr aaf ->
  validate_omf_aaf_media fs rt (with_timeline (rt_unicode rt) aaf2 toplevel) file_path
  = inr report ->
  exists parsed,
    _parse_aaf_file fs (rt_unicode rt) aaf2 file_path = inr parsed
    /\ forall timeline_clip clip i,
         In timeline_clip (timeline_clips report) ->
         In clip (fst (validate_clips fs parsed)) ->
         clip_id timeline_clip = Some i -> clip_id clip = Some i -> i <> [] ->
         is_valid timeline_clip = is_valid clip
         /\ external_path timeline_clip = external_path clip
         /\ is_embedded timeline_clip = is_embedded clip.
Proof.
  intros Hd. unfold validate_omf_aaf_media. rewrite Hd.
  destruct (negb (fs_exists fs file_path)); [discriminate|].
  assert (Hp : _parse_aaf_file fs (rt_unicode rt) (with_timeline (rt_unicode rt) aaf2 toplevel)
                 file_path
               = _parse_aaf_file fs (rt_unicode rt) aaf2 file_path) by reflexivity.
  rewrite Hp.
  destruct (_parse_aaf_file fs (rt_unicode rt) aaf2 file_path) as [e|parsed] eqn:E;
    [discriminate|].
  intros H. injection H as <-. exists parsed. split; [reflexivity|].
  apply parse_aaf_ids in E. rewrite <- (validate_clips_ids fs) in E.
  intros tc clip i Htc Hclip Hi Hci Hne.
  assert (Hget : validation_clip_map_get (fst (validate_clips fs parsed)) i = Some clip).
  { apply validation_clip_map_get_unique; auto. destruct i; [congruence|reflexivity]. }
  revert Htc. unfold build_report.
  destruct (validate_clips fs parsed) as [clips' missing]. cbn [fst] in *.
  cbn [AAF_SUPPORT aaf2_timeline with_timeline].
  destruct (AAF_SUPPORT aaf2) eqn:Es; [|intros []].
  pose proof (aaf_timeline_Forall_of (rt_unicode rt) aaf2 toplevel file_path clips') as Ht.
  destruct (_extract_timeline_clips_from_aaf (rt_unicode rt) aaf2 toplevel file_path clips')
    as [tl total].
  cbn [timeline_clips fst] in *. intros Htc.
  rewrite Forall_forall in Ht. destruct (Ht tc Htc) as (sid & Hsid & _ & _ & Hv).
  rewrite Hi in Hsid. injection Hsid as <-. rewrite Hget in Hv. tauto.
Qed.

(* ================================================================== *)
(** ** The further statements on concrete inputs *)

Lemma legacy_clip_ids_numbered_witness :
  exists parsed ev,
    _parse_omf_file relative_disk relative_runtime (str "/proj/show.omf") = (inr parsed, ev)
    /\ NoDup (map clip_id parsed).
Proof.
  eexists. eexists. split.
  - vm_compute. reflexivity.
  - apply (legacy_clip_ids_numbered relative_disk relative_runtime (str "/proj/show.omf") _
             (snd (_parse_omf_file relative_disk relative_runtime (str "/proj/show.omf")))).
    vm_compute. reflexivity.
Defined.

Lemma legacy_scan_clips_witness :
  exists parsed ev,
    _parse_omf_file relative_disk relative_runtime (str "/proj/show.omf") = (inr parsed, ev)
    /\ (NoDup (map external_path parsed)
        \/ Forall (made_by_fallback (str "/proj")) parsed).
Proof.
  eexists. eexists. split.
  - vm_compute. reflexivity.
  - destruct (legacy_scan_clips relative_disk relative_runtime (str "/proj/show.omf") _
                (snd (_parse_omf_file relative_disk relative_runtime (str "/proj/show.omf")))
                ltac:(vm_compute; reflexivity)) as [[H _]|H].
    + left. exact H.
    + right. exact H.
Defined.

Lemma aaf_one_clip_per_source_witness :
  exists clips,
    _parse_aaf_file nothing_on_disk ascii_only two_references (str "/proj/show.aaf") = inr clips
    /\ List.length clips = 1
    /\ NoDup (map clip_id clips).
Proof.
  eexists. split; [vm_compute; reflexivity|]. split; [reflexivity|].
  apply (aaf_one_clip_per_source nothing_on_disk ascii_only two_references
           (str "/proj/show.aaf")).
  vm_compute. reflexivity.
Defined.

Lemma parsed_clip_names_not_empty_witness :
  exists parsed,
    fst (_parse_omf_file relative_disk relative_runtime (str "/proj/show.omf")) = inr parsed
    /\ Forall (fun clip => name clip <> []) parsed.
Proof.
  eexists. split.
  - vm_compute. reflexivity.
  - apply (parsed_clip_names_not_empty relative_disk relative_runtime no_aaf2
             (str "/proj/show.omf")).
    left. vm_compute. reflexivity.
Defined.

Lemma validation_exceptions_witness :
  fs_exists nothing_on_disk (str "/proj/show.wav") = false
  /\ validate_omf_aaf_media nothing_on_disk relative_runtime no_aaf2 (str "/proj/show.wav")
     = inl (mkExn FileNotFoundError
              (str "The specified file does not exist: " ++ str "/proj/show.wav")).
Proof.
  split; [reflexivity|].
  exact (proj1 (validation_exceptions nothing_on_disk relative_runtime no_aaf2
                  (str "/proj/show.wav")) eq_refl).
Defined.

Lemma aggressive_path_start_witness :
  let match_bytes := bytes_of "/Users/me" ++ x2f :: bytes_of "take1.wav" in
  find_path_start match_bytes (List.length match_bytes) = 9%Z
  /\ skipn (Z.to_nat (find_path_start match_bytes (List.length match_bytes))) match_bytes
     = x2f :: bytes_of "take1.wav".
Proof.
  exact (proj1 aggressive_path_start (bytes_of "/Users/me") x2f (bytes_of "take1.wav")
           eq_refl eq_refl ltac:(vm_compute; lia)).
Defined.



Lemma aaf_timeline_zero_edit_rate_witness :
  PrimFloat.eqb 0%float 0%float = true
  /\ _extract_timeline_clips_from_aaf ascii_only two_references
       (fun _ => inr ([] ++ mkComposition (FloatAttr 0%float)
                              (Some [mkTimelineSlot (Some two_clip_sequence) NoAttr NoAttr])
                          :: []))
       (str "/proj/show.aaf") []
     = _extract_timeline_clips_from_aaf ascii_only two_references (fun _ => inr ([] ++ []))
         (str "/proj/show.aaf") [].
Proof.
  split; [reflexivity|].
  exact (aaf_timeline_zero_edit_rate ascii_only two_references (str "/proj/show.aaf") [] [] []
           0%float (Some [mkTimelineSlot (Some two_clip_sequence) NoAttr NoAttr]) eq_refl).
Defined.

Lemma aaf_timeline_keeps_repeats_witness :
  List.length
    (_extract_timeline_clips_from_segment ascii_only
       (mkSegment None None NoAttr (FloatAttr 96000%float)
          (Some [one_second_clip; one_second_clip]) None)
       0 0%float 48000%float [] 0 [])
  = 0 + 2.
Proof.
  apply (aaf_timeline_keeps_repeats ascii_only [] None NoAttr (FloatAttr 96000%float)
           [one_second_clip; one_second_clip] 0 0%float 48000%float 0 []).
  - repeat constructor; discriminate.
  - reflexivity.
  - reflexivity.
Defined.

Lemma file_type_by_extension_witness :
  _detect_file_type nothing_on_disk relative_runtime
    (str "/proj/" ++ 77%N :: str "ix" ++ posixpath.extsep :: str "AAF") = inr aaf.
Proof.
  apply (proj1 (file_type_by_extension nothing_on_disk relative_runtime)
           (str "/proj/") 77%N (str "ix") (str "AAF")).
  - discriminate.
  - discriminate.
  - vm_compute. intuition discriminate.
  - reflexivity.
  - reflexivity.
Defined.

Lemma validation_verdict_exact_witness :
  let clips := [MediaClip_new (str "a.wav") None false (Some (str "/proj/a.wav"));
                MediaClip_new (str "b.wav") None true None] in
  Forall fresh clips
  /\ valid_clips (build_report nothing_on_disk relative_runtime no_aaf2 omf
                    (str "/proj/show.omf") clips)
     = count_clips (media_present nothing_on_disk) clips.
Proof.
  intros clips.
  assert (Hf : Forall fresh clips) by (repeat constructor).
  split; [exact Hf|].
  exact (proj1 (validation_verdict_exact nothing_on_disk relative_runtime no_aaf2 omf
                  (str "/proj/show.omf") clips Hf)).
Defined.

Lemma aaf_report_timeline_witness :
  _detect_file_type aaf_disk relative_runtime (str "/proj/show.aaf") = inr aaf
  /\ exists report,
       validate_omf_aaf_media aaf_disk relative_runtime
         (with_timeline ascii_only two_references two_references_toplevel)
         (str "/proj/show.aaf") = inr report
       /\ total_clips report = 1%Z
       /\ List.length (timeline_clips report) = 2
       /\ exists parsed,
            _parse_aaf_file aaf_disk ascii_only two_references (str "/proj/show.aaf")
            = inr parsed.
Proof.
  split; [reflexivity|]. eexists. split; [vm_compute; reflexivity|].
  split; [reflexivity|]. split; [reflexivity|].
  destruct (aaf_report_timeline aaf_disk relative_runtime two_references
              two_references_toplevel (str "/proj/show.aaf") _ eq_refl
              ltac:(vm_compute; reflexivity)) as (parsed & Hp & _).
  exists parsed. exact Hp.
Defined.

(* ================================================================== *)
(** ** The fallback pass of the graph format *)

Lemma fallback_mob_classified fs p st mob (P : MediaClip -> Prop) :
  (forall n i ext, P (MediaClip_new n i (match ext with None => true | Some _ => false end) ext)) ->
  Forall P (w_clips st) -> Forall P (w_clips (fallback_mob fs p st mob)).
Proof.
  intros HP Hst. unfold fallback_mob.
  destruct (n_name mob), (n_mob_id mob); try exact Hst;
    (destruct (fallback_media _); [|exact Hst];
     destruct (str_in _ _); [exact Hst|];
     cbn [w_clips]; apply Forall_app; split; [exact Hst|];
     constructor; [apply HP|constructor]).
Qed.

(** X17. In the fallback pass of [_parse_aaf_file] (the walk found no clip) a
    clip is embedded exactly when no locator gave it a path: a source
    without a path counts as embedded although no essence was looked for,
    and the validation then accepts it unchecked. *)
Theorem aaf_fallback_pass_classification (fs : FileSystem) (file_path : pystr)
    (mobs : list Node) (processed_sources : list pystr) :
  Forall (fun clip =>
            (is_embedded clip = true <-> external_path clip = None)
            /\ (external_path clip = None -> validate_clip fs clip = (clip, false)))
         (w_clips (fold_left (fallback_mob fs file_path) mobs
                     (mkWalkState [] processed_sources))).
Proof.
  apply (fold_left_inv
           (fun st => Forall (fun clip =>
                                (is_embedded clip = true <-> external_path clip = None)
                                /\ (external_path clip = None ->
                                    validate_clip fs clip = (clip, false)))
                             (w_clips st))); [|constructor].
  intros st mob Hst. apply fallback_mob_classified; [|exact Hst].
  intros n i [q|]; cbn [is_embedded external_path MediaClip_new]; split.
  - split; discriminate.
  - discriminate.
  - split; reflexivity.
  - intros _. reflexivity.
Qed.

(* ================================================================== *)
(** ** The two names of a clip *)

Lemma splitext_scan_root p dotIndex : forall fuel filenameIndex r,
  (0 <= filenameIndex)%Z ->
  posixpath.splitext_scan p dotIndex filenameIndex fuel = Some r ->
  p <> [] -> fst r <> [].
Proof.
  induction fuel as [|fuel IH]; intros f r Hf; cbn [posixpath.splitext_scan]; [discriminate|].
  destruct (Z.ltb_spec f dotIndex) as [Hlt|]; [|discriminate].
  assert (Hroot : p <> [] -> slice_to dotIndex p <> []).
  { unfold slice_to. destruct p as [|c p]; [congruence|]. intros _.
    destruct (Z.to_nat dotIndex) eqn:E; [lia|discriminate]. }
  destruct (nth_error p (Z.to_nat f)) as [c|].
  - destruct (negb (char_eqb c posixpath.extsep)).
    + intros H Hp. inversion H. cbn [fst]. now apply Hroot.
    + apply IH. lia.
  - intros H Hp. inversion H. cbn [fst]. now apply Hroot.
Qed.

Lemma splitext_root_not_nil p : p <> [] -> fst (posixpath.splitext p) <> [].
Proof.
  intros Hp. unfold posixpath.splitext.
  destruct (_ <? _)%Z; [|exact Hp].
  destruct (posixpath.splitext_scan _ _ _ _) as [r|] eqn:E; [|exact Hp].
  apply splitext_scan_root in E; auto.
  pose proof (posixpath_facts.rfind_from_ge posixpath.sep p 0 (-1) ltac:(lia)). unfold rfind. lia.
Qed.

(** X18. The two walks of the graph format name a clip from different
    attributes. The timeline takes the name of the source, its extension
    removed, whenever that name is not blank or generic, whatever the segment
    is called; the validation takes the name of the segment when it is not
    blank or generic, and falls back to the name of the source. *)
Theorem clip_name_priority (udb : UnicodeDB) (source_mob : Node) (mob_name : pystr) :
  n_name source_mob = Some mob_name ->
  strip udb mob_name <> [] -> not_generic udb (strip udb mob_name) = true ->
  (forall segment_name matched_clip n_clips,
      timeline_clip_name udb segment_name source_mob matched_clip n_clips
      = fst (posixpath.splitext (strip udb mob_name)))
  /\ (forall segment seg_name n_clips,
        n_name segment = Some seg_name ->
        strip udb seg_name <> [] -> not_generic udb (strip udb seg_name) = true ->
        walker_clip_name udb segment source_mob n_clips = strip udb seg_name)
  /\ (forall segment n_clips,
        n_name segment = None ->
        walker_clip_name udb segment source_mob n_clips = strip udb mob_name).
Proof.
  intros Hn Hs Hg.
  assert (Ht : truthy_str mob_name = true).
  { destruct mob_name; [|reflexivity]. exfalso. apply Hs. reflexivity. }
  assert (Htruthy : forall s : pystr, s <> [] -> truthy_str s = true).
  { intros [|c s] H; [congruence|reflexivity]. }
  assert (Em : stripped_name udb (n_name source_mob) = Some (strip udb mob_name)).
  { unfold stripped_name. now rewrite Hn, Ht. }
  split; [|split].
  - intros segment_name matched_clip n_clips. unfold timeline_clip_name. cbv zeta.
    rewrite Em, Hg.
    pose proof (splitext_root_not_nil _ Hs) as Hr.
    repeat (cbn [truthy]; rewrite (Htruthy _ Hr)). reflexivity.
  - intros segment seg_name n_clips Hsn Hss Hsg. unfold walker_clip_name. cbv zeta.
    assert (Hst : truthy_str seg_name = true).
    { destruct seg_name; [|reflexivity]. exfalso. apply Hss. reflexivity. }
    assert (Es : stripped_name udb (n_name segment) = Some (strip udb seg_name)).
    { unfold stripped_name. now rewrite Hsn, Hst. }
    rewrite Es. repeat (cbn [truthy]; rewrite (Htruthy _ Hss)). cbn [negb orb].
    unfold not_generic in Hsg. apply negb_true_iff in Hsg. now rewrite Hsg.
  - intros segment n_clips Hsn. unfold walker_clip_name. cbv zeta.
    assert (Es : stripped_name udb (n_name segment) = None).
    { unfold stripped_name. now rewrite Hsn. }
    rewrite Es, Em. repeat (cbn [truthy]; rewrite (Htruthy _ Hs)). cbn [negb orb].
    unfold not_generic in Hg. apply negb_true_iff in Hg. now rewrite Hg.
Qed.

Lemma clip_name_priority_witness :
  n_name linked_with_locator = Some (str "a")
  /\ timeline_clip_name ascii_only (Some (str "Dialogue 1")) linked_with_locator None 0
     = fst (posixpath.splitext (strip ascii_only (str "a")))
  /\ walker_clip_name ascii_only
       (mkNode (Some (str "Dialogue 1")) None (str "2") (Some linked_with_locator) None false
          None None)
       linked_with_locator 0
     = strip ascii_only (str "Dialogue 1").
Proof.
  destruct (clip_name_priority ascii_only linked_with_locator (str "a") eq_refl
              ltac:(vm_compute; discriminate) eq_refl) as (H1 & H2 & _).
  split; [reflexivity|]. split; [apply H1|].
  apply H2; [reflexivity|vm_compute; discriminate|reflexivity].
Defined.

(* ================================================================== *)
(** ** No embedded clip in a legacy report *)

(** X19. [_extract_omf_essence_references] is a placeholder that returns no
    reference, so [_parse_omf_file] makes linked clips only: every report of
    a legacy file has [embedded_clips = 0] and [linked_clips = total_clips]. *)
Theorem legacy_report_has_no_embedded_clip (fs : FileSystem) (rt : Runtime) (aaf2 : Aaf2)
    (file_path : pystr) (report : ValidationReport) :
  _detect_file_type fs rt file_path = inr omf ->
  validate_omf_aaf_media fs rt aaf2 file_path = inr report ->
  embedded_clips report = 0%Z
  /\ linked_clips report = total_clips report
  /\ (forall file_handle, _extract_omf_essence_references file_handle = []).
Proof.
  intros Hd. unfold validate_omf_aaf_media. rewrite Hd.
  destruct (negb (fs_exists fs file_path)); [discriminate|].
  destruct (_parse_omf_file fs rt file_path) as [[e|clips] ev] eqn:E; [discriminate|].
  cbn [fst]. intros H. injection H as <-.
  assert (He : Forall (fun c => is_embedded c = false) clips).
  { apply parse_omf_origin in E as (f & _ & [[_ H]|(_ & H & _)]);
      eapply Forall_impl; try exact H; intros c Hc.
    - destruct Hc as (n & i & p & -> & _). reflexivity.
    - destruct Hc as (p & n & -> & _). reflexivity. }
  assert (Hf : Forall fresh clips).
  { eapply parse_omf_fresh; eauto. }
  destruct (build_report_counts fs rt aaf2 omf file_path clips Hf) as (Hs & _ & _).
  assert (H0 : embedded_clips (build_report fs rt aaf2 omf file_path clips) = 0%Z).
  { unfold build_report.
    apply (validate_clips_embedded fs) in He.
    destruct (validate_clips fs clips) as [clips' missing]. cbn [fst] in He.
    destruct (_extract_timeline_clips_from_omf fs (rt_unicode rt) file_path clips').
    cbn [embedded_clips]. now apply count_clips_none. }
  cbv zeta in Hs. split; [exact H0|]. split; [lia|]. reflexivity.
Qed.

Lemma legacy_report_has_no_embedded_clip_witness :
  _detect_file_type relative_disk relative_runtime (str "/proj/show.omf") = inr omf
  /\ exists report,
       validate_omf_aaf_media relative_disk relative_runtime no_aaf2 (str "/proj/show.omf")
       = inr report
       /\ embedded_clips report = 0%Z /\ linked_clips report = total_clips report.
Proof.
  split; [reflexivity|]. eexists. split; [vm_compute; reflexivity|].
  destruct (legacy_report_has_no_embedded_clip relative_disk relative_runtime no_aaf2
              (str "/proj/show.omf") _ eq_refl ltac:(vm_compute; reflexivity)) as (H1 & H2 & _).
  split; [exact H1|exact H2].
Defined.

(* ================================================================== *)
(** ** The shape of [external_path] in a report *)

Lemma validation_clip_map_get_In l source_id clip :
  validation_clip_map_get l source_id = Some clip -> In clip l.
Proof.
  induction l as [|c r IH]; [discriminate|]. cbn [validation_clip_map_get].
  destruct (validation_clip_map_get r source_id) as [c'|].
  - intros H. right. apply IH. exact H.
  - destruct (clip_id c) as [i|]; [|discriminate].
    destruct (truthy_str i && pystr_eqb i source_id); [|discriminate].
    intros H. injection H as <-. now left.
Qed.

Section ReportPathShape.
Import posixpath posixpath_facts.
Variable fs : FileSystem.
Variable rt : Runtime.
Variable aaf2 : Aaf2.
Hypothesis cwd_absolute : isabs (fs_cwd fs) = true.

(** The path the fallback pass gives a clip. *)
Lemma fallback_path_absolute aaf_file_path (ext : option pystr) q :
  match ext with
  | Some p =>
      if truthy_str p && negb (isabs p)
      then Some (normpath (join (dirname (abspath (fs_cwd fs) aaf_file_path)) p))
      else Some p
  | None => None
  end = Some q ->
  q <> [] -> isabs q = true.
Proof.
  destruct ext as [p|]; [|discriminate].
  destruct (truthy_str p) eqn:Et; destruct (isabs p) eqn:Ea; cbn [andb negb];
    intros H Hne; injection H as <-.
  - exact Ea.
  - rewrite normpath_isabs. apply join_isabs, dirname_isabs, abspath_isabs, cwd_absolute.
  - exact Ea.
  - destruct p; [congruence|discriminate Et].
Qed.

Lemma fallback_mob_absolute aaf_file_path st mob :
  Forall absolute_if_any (w_clips st) ->
  Forall absolute_if_any (w_clips (fallback_mob fs aaf_file_path st mob)).
Proof.
  intros Hst. unfold fallback_mob.
  destruct (n_name mob), (n_mob_id mob); try exact Hst;
    (destruct (fallback_media _) as [ext|]; [|exact Hst];
     destruct (str_in _ _); [exact Hst|];
     cbn [w_clips]; apply Forall_app; split; [exact Hst|];
     constructor; [|constructor];
     intros q; cbn [external_path MediaClip_new]; apply fallback_path_absolute).
Qed.

Lemma fallback_pass_absolute aaf_file_path mobs processed_sources :
  Forall absolute_if_any
    (w_clips (fold_left (fallback_mob fs aaf_file_path) mobs (mkWalkState [] processed_sources))).
Proof.
  apply (fold_left_inv (fun st => Forall absolute_if_any (w_clips st))); [|constructor].
  intros st mob Hst. now apply fallback_mob_absolute.
Qed.

(** Where the clips of [_parse_aaf_file] come from: the walk, or the fallback
    pass when the walk gave no clip. *)
Lemma parse_aaf_origin udb file_path clips (P : MediaClip -> Prop) :
  (forall segment source_mob n clip,
     walker_clip fs udb segment source_mob file_path n = Some clip -> P clip) ->
  _parse_aaf_file fs udb aaf2 file_path = inr clips ->
  Forall P clips
  \/ exists f processed_sources,
       aaf2_open aaf2 file_path = inr f
       /\ clips = w_clips (fold_left (fallback_mob fs file_path) (aaf_mobs f)
                             (mkWalkState [] processed_sources)).
Proof.
  intros HP. unfold _parse_aaf_file. destruct (negb (AAF_SUPPORT aaf2)); [discriminate|].
  destruct (aaf2_open aaf2 file_path) as [e|f]; [discriminate|].
  intros H. inversion H; subst; clear H.
  set (walk := fun st seg => _extract_clips_from_segment fs udb seg file_path st).
  assert (Hwalk : forall st seg, Forall P (w_clips st) -> Forall P (w_clips (walk st seg))).
  { intros st seg Hst. apply walker_Forall; [exact HP|exact Hst]. }
  assert (H1 : Forall P (w_clips
            (fold_left (walk_mob_slots fs udb file_path) (aaf_mobs f) (mkWalkState [] [])))).
  { apply (fold_left_inv (fun st => Forall P (w_clips st))); [|constructor].
    intros st mob Hst. unfold walk_mob_slots. destruct (n_slots mob) as [slots|]; [|exact Hst].
    apply (fold_left_inv (fun st => Forall P (w_clips st))); [|exact Hst].
    intros st' slot Hst'. destruct (s_segment slot); [|exact Hst']. now apply Hwalk. }
  assert (H2 : Forall P (w_clips
            (fold_left walk (aaf_toplevel f)
               (fold_left (walk_mob_slots fs udb file_path) (aaf_mobs f) (mkWalkState [] []))))).
  { apply (fold_left_inv (fun st => Forall P (w_clips st))); [|exact H1].
    intros st seg Hst. now apply Hwalk. }
  fold walk. fold walk in H2.
  destruct (fold_left walk (aaf_toplevel f) _) as [found processed_sources].
  cbn [w_clips] in *. destruct found as [|c r].
  - right. exists f, processed_sources. split; reflexivity.
  - left. exact H2.
Qed.

(** A path in the report of a graph-format file is the path of a parsed clip. *)
Lemma aaf_report_same_path toplevel file_path parsed clip q :
  let report :=
    build_report fs rt (with_timeline (rt_unicode rt) aaf2 toplevel) aaf file_path parsed in
  In clip (missing_clip_details report ++ timeline_clips report) ->
  external_path clip = Some q ->
  exists c0, In c0 parsed /\ external_path c0 = Some q.
Proof.
  intros report. unfold report, build_report.
  pose proof (missing_same_source fs parsed clip) as Hm.
  pose proof (fun tc => validated_same_source fs parsed tc) as Hv.
  destruct (validate_clips fs parsed) as [cl ms]. cbn [fst snd] in Hm, Hv.
  cbn [AAF_SUPPORT aaf2_timeline with_timeline].
  pose proof (aaf_timeline_Forall_of (rt_unicode rt) aaf2 toplevel file_path cl) as Ht.
  assert (Hmissing : In clip ms -> external_path clip = Some q ->
                     exists c0, In c0 parsed /\ external_path c0 = Some q).
  { intros H Hq. destruct (Hm H) as (c0 & Hc0 & Hp & _).
    exists c0. split; [exact Hc0|congruence]. }
  destruct (AAF_SUPPORT aaf2).
  - destruct (_extract_timeline_clips_from_aaf (rt_unicode rt) aaf2 toplevel file_path cl)
      as [tl total].
    cbn [missing_clip_details timeline_clips fst] in *.
    intros H Hq. apply in_app_or in H as [H|H]; [now apply Hmissing|].
    rewrite Forall_forall in Ht. destruct (Ht clip H) as (sid & _ & _ & _ & Hmatch).
    destruct (validation_clip_map_get cl sid) as [m|] eqn:Eg.
    + destruct Hmatch as (_ & Hp & _). apply validation_clip_map_get_In in Eg.
      destruct (Hv m Eg) as (c0 & Hc0 & Hp0 & _).
      exists c0. split; [exact Hc0|congruence].
    + destruct Hmatch as (_ & Hp & _). congruence.
  - cbn [missing_clip_details timeline_clips]. rewrite app_nil_r. exact Hmissing.
Qed.

End ReportPathShape.

(** C3, as stated, fails, in five ways. Legacy format: the report of
    [relative_disk] has a clip with the relative path [media/a.wav]; the
    report of [tilde_disk], whose clips come from the aggressive fallback,
    has a clip with an absolute path that is not normalized. Graph format:
    the report of [walk_finds_nothing], whose clips come from the fallback
    pass, has a clip with the path [/a/../b//c.wav]; the report of
    [one_empty_locator] has a clip whose path is the empty string; the
    timeline of [one_embedded] has an embedded clip with a path. *)
Lemma external_path_not_always_absolute :
  ~ (forall (fs : FileSystem) (rt : Runtime) (aaf2 : Aaf2) file_path report clip q,
       posixpath.isabs (fs_cwd fs) = true ->
       validate_omf_aaf_media fs rt aaf2 file_path = inr report ->
       In clip (missing_clip_details report ++ timeline_clips report) ->
       external_path clip = Some q ->
       posixpath.isabs q = true /\ normalized q)
  /\ (exists report clip,
        validate_omf_aaf_media relative_disk relative_runtime no_aaf2 (str "/proj/show.omf")
        = inr report
        /\ In clip (missing_clip_details report)
        /\ external_path clip = Some (str "media/a.wav")
        /\ posixpath.isabs (str "media/a.wav") = false)
  /\ (exists report clip,
        validate_omf_aaf_media tilde_disk tilde_runtime no_aaf2 (str "/proj/show.omf")
        = inr report
        /\ In clip (missing_clip_details report)
        /\ external_path clip = Some (str "/a//" ++ repeat 126%N 60 ++ str ".wav")
        /\ posixpath.normpath (str "/a//" ++ repeat 126%N 60 ++ str ".wav")
           = str "/a/" ++ repeat 126%N 60 ++ str ".wav")
  /\ (exists report clip,
        validate_omf_aaf_media aaf_disk relative_runtime
          (with_timeline ascii_only walk_finds_nothing no_toplevel) (str "/proj/show.aaf")
        = inr report
        /\ In clip (missing_clip_details report)
        /\ external_path clip = Some (str "/a/../b//c.wav")
        /\ posixpath.normpath (str "/a/../b//c.wav") = str "/b/c.wav")
  /\ (exists report clip,
        validate_omf_aaf_media aaf_disk relative_runtime
          (with_timeline ascii_only one_empty_locator no_toplevel) (str "/proj/show.aaf")
        = inr report
        /\ In clip (missing_clip_details report)
        /\ external_path clip = Some [])
  /\ (exists report clip,
        validate_omf_aaf_media aaf_disk relative_runtime
          (with_timeline ascii_only one_embedded one_embedded_toplevel) (str "/proj/show.aaf")
        = inr report
        /\ In clip (timeline_clips report)
        /\ is_embedded clip = true
        /\ external_path clip = Some (str "/proj/media/a.wav")).
Proof.
  assert (E : exists report clip,
             validate_omf_aaf_media relative_disk relative_runtime no_aaf2
               (str "/proj/show.omf") = inr report
             /\ In clip (missing_clip_details report)
             /\ external_path clip = Some (str "media/a.wav")
             /\ posixpath.isabs (str "media/a.wav") = false).
  { vm_compute. eexists. eexists. split; [reflexivity|].
    split; [left; reflexivity|]. split; reflexivity. }
  split; [|split; [exact E|]].
  - intros H. destruct E as (report & clip & Er & Hin & Hp & Hrel).
    destruct (H relative_disk relative_runtime no_aaf2 _ report clip _ eq_refl Er
                (in_or_app _ _ _ (or_introl Hin)) Hp) as [Habs _].
    rewrite Hrel in Habs. discriminate.
  - split; [|split; [|split]].
    + vm_compute. eexists. eexists. split; [reflexivity|].
      split; [left; reflexivity|]. split; reflexivity.
    + vm_compute. eexists. eexists. split; [reflexivity|].
      split; [left; reflexivity|]. split; reflexivity.
    + vm_compute. eexists. eexists. split; [reflexivity|].
      split; [left; reflexivity|reflexivity].
    + vm_compute. eexists. eexists. split; [reflexivity|].
      split; [left; reflexivity|]. split; reflexivity.
Qed.

(** C3, amended. With an absolute current directory. In a legacy-format
    report every clip (of [missing_clip_details] and of [timeline_clips]) is
    linked and has a non-empty [external_path], never [None]; the path is
    absolute, or else it is the normalized relative candidate that was not
    found under the directory of the container; it is normalized, unless
    the clips are those of the aggressive fallback, whose paths are all
    absolute. In a graph-format report (with the timeline walk of the
    source) every [external_path] is [None], the empty string or an absolute
    path; a non-empty one is normalized, unless the clips are those of the
    fallback pass. Every clip the graph walk makes with a non-empty
    [external_path] has it absolute and normalized. *)
Theorem external_path_shape (fs : FileSystem) (rt : Runtime) (aaf2 : Aaf2) :
  posixpath.isabs (fs_cwd fs) = true ->
  (forall file_path report,
     _detect_file_type fs rt file_path = inr omf ->
     validate_omf_aaf_media fs rt aaf2 file_path = inr report ->
     let base_dir := posixpath.dirname (posixpath.abspath (fs_cwd fs) file_path) in
     let clips := missing_clip_details report ++ timeline_clips report in
     (forall clip, In clip clips ->
        is_embedded clip = false
        /\ exists q, external_path clip = Some q /\ q <> []
                     /\ (posixpath.isabs q = true \/ kept_relative fs base_dir q))
     /\ ((forall clip q, In clip clips -> external_path clip = Some q -> normalized q)
         \/ ((exists f,
                fs_open fs file_path = inr f
                /\ report = build_report fs rt aaf2 omf file_path
                              (fst (_aggressive_omf_parse rt f base_dir file_path)))
             /\ forall clip q, In clip clips -> external_path clip = Some q ->
                               posixpath.isabs q = true)))
  /\ (forall toplevel file_path report,
        _detect_file_type fs rt file_path = inr aaf ->
        validate_omf_aaf_media fs rt (with_timeline (rt_unicode rt) aaf2 toplevel) file_path
        = inr report ->
        let clips := missing_clip_details report ++ timeline_clips report in
        (forall clip q, In clip clips -> external_path clip = Some q -> q <> [] ->
                        posixpath.isabs q = true)
        /\ ((forall clip q, In clip clips -> external_path clip = Some q -> q <> [] ->
                            normalized q)
            \/ exists f processed_sources,
                 aaf2_open aaf2 file_path = inr f
                 /\ report = build_report fs rt (with_timeline (rt_unicode rt) aaf2 toplevel)
                               aaf file_path
                               (w_clips (fold_left (fallback_mob fs file_path) (aaf_mobs f)
                                           (mkWalkState [] processed_sources)))))
  /\ (forall udb segment aaf_file_path clip q,
        In clip (w_clips (_extract_clips_from_segment fs udb segment aaf_file_path
                            (mkWalkState [] []))) ->
        external_path clip = Some q -> q <> [] ->
        posixpath.isabs q = true /\ normalized q).
Proof.
  intros Hcwd. split; [|split].
  - intros file_path report Hft Hrep base_dir clips.
    assert (Hbase : posixpath.isabs base_dir = true).
    { apply posixpath_facts.dirname_isabs, posixpath_facts.abspath_isabs, Hcwd. }
    unfold validate_omf_aaf_media in Hrep.
    destruct (negb (fs_exists fs file_path)); [discriminate|].
    rewrite Hft in Hrep.
    destruct (_parse_omf_file fs rt file_path) as [[e|parsed] ev] eqn:Ep; [discriminate|].
    cbn [fst] in Hrep. injection Hrep as <-.
    pose proof (report_same_source fs rt aaf2 file_path parsed) as Hsrc. cbv zeta in Hsrc.
    apply parse_omf_origin in Ep as (f & Hopen & Horigin). cbv zeta in Horigin.
    fold base_dir in Horigin.
    pose proof (extract_paths_scanned fs rt f base_dir Hbase) as Hscan.
    destruct Horigin as [[_ Hmade]|(Heq & Hmade & _)]; rewrite Forall_forall in Hmade.
    + split.
      * intros clip Hin. destruct (Hsrc clip Hin) as (c0 & Hc0 & Hp & He).
        destruct (made_by_scan_path fs base_dir _ c0 Hscan (Hmade c0 Hc0))
          as (He0 & q & Hq & Hne & _ & Hshape).
        split; [congruence|]. exists q. split; [congruence|]. auto.
      * left. intros clip q Hin Hq. destruct (Hsrc clip Hin) as (c0 & Hc0 & Hp & He).
        destruct (made_by_scan_path fs base_dir _ c0 Hscan (Hmade c0 Hc0))
          as (_ & q' & Hq' & _ & Hn & _).
        assert (q = q') by congruence. now subst.
    + assert (Habs : forall clip, In clip clips ->
                       is_embedded clip = false
                       /\ exists q, external_path clip = Some q /\ q <> []
                                    /\ posixpath.isabs q = true).
      { intros clip Hin. destruct (Hsrc clip Hin) as (c0 & Hc0 & Hp & He).
        destruct (made_by_fallback_abs base_dir c0 Hbase (Hmade c0 Hc0))
          as (He0 & q & Hq & Hne & Ha).
        split; [congruence|]. exists q. split; [congruence|]. auto. }
      split.
      * intros clip Hin. destruct (Habs clip Hin) as (He & q & Hq & Hne & Ha).
        split; [exact He|]. exists q. auto.
      * right. split.
        -- exists f. split; [exact Hopen|]. now rewrite <- Heq.
        -- intros clip q Hin Hq. destruct (Habs clip Hin) as (_ & q' & Hq' & _ & Ha).
           assert (q = q') by congruence. now subst.
  - intros toplevel file_path report Hft Hrep clips.
    unfold validate_omf_aaf_media in Hrep.
    destruct (negb (fs_exists fs file_path)); [discriminate|].
    rewrite Hft in Hrep.
    assert (Hp : _parse_aaf_file fs (rt_unicode rt)
                   (with_timeline (rt_unicode rt) aaf2 toplevel) file_path
                 = _parse_aaf_file fs (rt_unicode rt) aaf2 file_path) by reflexivity.
    rewrite Hp in Hrep. clear Hp.
    destruct (_parse_aaf_file fs (rt_unicode rt) aaf2 file_path) as [e|parsed] eqn:Ep;
      [discriminate|].
    injection Hrep as <-.
    pose proof (aaf_report_same_path fs rt aaf2 toplevel file_path parsed) as Hsrc.
    cbv zeta in Hsrc.
    destruct (parse_aaf_origin fs aaf2 (rt_unicode rt) file_path parsed
                (fun c => absolute_if_any c /\ normalized_if_any c)) as [Hall|Hfb];
      [|exact Ep| |].
    + intros segment source_mob n clip Hc.
      split; intros q Hq Hne;
        apply (walker_clip_shape fs (rt_unicode rt) file_path segment source_mob n clip q
                 Hcwd Hc Hq Hne).
    + rewrite Forall_forall in Hall.
      split; [|left]; intros clip q Hin Hq Hne;
        destruct (Hsrc clip q Hin Hq) as (c0 & Hc0 & Hq0);
        destruct (Hall c0 Hc0) as [Ha Hn]; auto.
    + destruct Hfb as (f & processed_sources & Hopen & ->). split.
      * intros clip q Hin Hq Hne. destruct (Hsrc clip q Hin Hq) as (c0 & Hc0 & Hq0).
        pose proof (fallback_pass_absolute fs Hcwd file_path (aaf_mobs f) processed_sources)
          as Hfb.
        rewrite Forall_forall in Hfb. exact (Hfb c0 Hc0 q Hq0 Hne).
      * right. exists f, processed_sources. split; [exact Hopen|reflexivity].
  - intros udb segment aaf_file_path clip q Hin Hq Hne.
    pose proof (walker_Forall fs udb aaf_file_path
                  (fun c => forall q, external_path c = Some q -> q <> [] ->
                                      posixpath.isabs q = true /\ normalized q)) as Hw.
    assert (Hall := Hw (fun s m n c Hc q0 => walker_clip_shape fs udb aaf_file_path s m n c q0 Hcwd Hc)
                       segment (mkWalkState [] []) (Forall_nil _)).
    rewrite Forall_forall in Hall. exact (Hall clip Hin q Hq Hne).
Qed.

Lemma external_path_shape_witness :
  posixpath.isabs (fs_cwd relative_disk) = true
  /\ _detect_file_type relative_disk relative_runtime (str "/proj/show.omf") = inr omf
  /\ (exists report,
        validate_omf_aaf_media relative_disk relative_runtime no_aaf2 (str "/proj/show.omf")
        = inr report
        /\ forall clip, In clip (missing_clip_details report ++ timeline_clips report) ->
                        is_embedded clip = false)
  /\ posixpath.isabs (fs_cwd aaf_disk) = true
  /\ _detect_file_type aaf_disk relative_runtime (str "/proj/show.aaf") = inr aaf
  /\ exists report,
       validate_omf_aaf_media aaf_disk relative_runtime
         (with_timeline ascii_only walk_finds_nothing no_toplevel) (str "/proj/show.aaf")
       = inr report
       /\ forall clip q, In clip (missing_clip_details report ++ timeline_clips report) ->
                         external_path clip = Some q -> q <> [] ->
                         posixpath.isabs q = true.
Proof.
  split; [reflexivity|]. split; [reflexivity|].
  pose proof (external_path_shape relative_disk relative_runtime no_aaf2 eq_refl) as [H _].
  pose proof (external_path_shape aaf_disk relative_runtime walk_finds_nothing eq_refl)
    as (_ & G & _).
  split; [|split; [reflexivity|split; [reflexivity|]]].
  - eexists. split.
    + vm_compute. reflexivity.
    + intros clip Hin.
      assert (Hrep : validate_omf_aaf_media relative_disk relative_runtime no_aaf2
                       (str "/proj/show.omf") = inr _) by (vm_compute; reflexivity).
      destruct (H (str "/proj/show.omf") _ eq_refl Hrep) as [Hall _].
      now destruct (Hall clip Hin).
  - eexists. split.
    + vm_compute. reflexivity.
    + assert (Hrep : validate_omf_aaf_media aaf_disk relative_runtime
                       (with_timeline ascii_only walk_finds_nothing no_toplevel)
                       (str "/proj/show.aaf") = inr _) by (vm_compute; reflexivity).
      exact (proj1 (G no_toplevel (str "/proj/show.aaf") _ eq_refl Hrep)).
Defined.
